(** * MemoriSaas technical-interview-prep backend: review scheduler,
      analytics and mock-session scoring

    A shallow embedding of [backend/database.py] and of the request
    handlers of [backend/main.py].

    - Python [int] is [Z]; Python [float] is an IEEE 754 binary64 value,
      taken from the standard library's executable specification
      ([SpecFloat], precision 53, [emax] 1024, round to nearest even).
    - [datetime] is a number of microseconds since 0001-01-01T00:00:00
      with the range check CPython performs on every addition.
    - An [int] that an SQL statement binds has to be a signed 64-bit
      integer: for any other the SQLite driver raises [OverflowError]
      before the statement runs.
    - Exceptions are explicit: a computation returns [Ok v] or
      [Raise e]; code that mutates an ORM object before raising returns
      the mutated object next to the outcome.
    - The tables are lists of rows; the dictionaries built by the
      analytics helpers are finite maps keyed by strings. *)

From stdpp Require Import gmap strings.
From Stdlib Require Import ZArith Lia List Bool String Ascii.
From Stdlib Require Import Floats.SpecFloat.
Import ListNotations.

Local Open Scope Z_scope.

(** ** Exceptions and results *)

Inductive exn : Type :=
| OverflowError
| ZeroDivisionError
| ValueError
| HTTPException (status_code : Z) (detail : string).

Inductive result (A : Type) : Type :=
| Ok (v : A)
| Raise (e : exn).

Arguments Ok {A} v.
Arguments Raise {A} e.

Definition bind {A B : Type} (r : result A) (k : A -> result B) : result B :=
  match r with
  | Ok v => k v
  | Raise e => Raise e
  end.

Notation "'do' x <- r ; k" := (bind r (fun x => k))
  (at level 10, x name, r at level 100, k at level 200).

Definition is_ok {A : Type} (r : result A) : bool :=
  match r with Ok _ => true | Raise _ => false end.

(** ** Python floats (IEEE 754 binary64) *)

Module Float64.

Definition prec : Z := 53.
Definition emax : Z := 1024.

Definition float : Type := spec_float.

Definition add : float -> float -> float := SFadd prec emax.
Definition sub : float -> float -> float := SFsub prec emax.
Definition mul : float -> float -> float := SFmul prec emax.
Definition div : float -> float -> float := SFdiv prec emax.
Definition ltb : float -> float -> bool := SFltb.
Definition leb : float -> float -> bool := SFleb.
Definition eqb : float -> float -> bool := SFeqb.

(** A Python float is always in canonical form. *)
Definition valid (x : float) : bool := valid_binary prec emax x.

(** An integer as an exact binary value with exponent 0 (not
    canonical in general); the operand form of the correctly rounded
    integer operations below. *)
Definition exact_of_Z (n : Z) : float :=
  match n with
  | Z0 => S754_zero false
  | Zpos p => S754_finite false p 0
  | Zneg p => S754_finite true p 0
  end.

(** [float(n)], as [PyLong_AsDouble]: round to nearest even, and
    [OverflowError] when the integer is too large. *)
Definition of_int (n : Z) : result float :=
  match binary_normalize prec emax n 0 false with
  | S754_infinity _ => Raise OverflowError
  | x => Ok x
  end.

(** [int(x)]: truncation toward zero; [inf] and [nan] raise. *)
Definition to_int (x : float) : result Z :=
  match x with
  | S754_zero _ => Ok 0
  | S754_infinity _ => Raise OverflowError
  | S754_nan => Raise ValueError
  | S754_finite s m e =>
      let a := match e with
               | Zneg k => Z.shiftr (Zpos m) (Zpos k)
               | _ => Z.shiftl (Zpos m) e
               end in
      Ok (if s then - a else a)
  end.

(** [a / b] on two ints ([long_true_divide]): the correctly rounded
    quotient, [ZeroDivisionError] on a zero divisor, [OverflowError]
    when the quotient does not fit. *)
Definition int_truediv (a b : Z) : result float :=
  if b =? 0 then Raise ZeroDivisionError
  else match div (exact_of_Z a) (exact_of_Z b) with
       | S754_infinity _ => Raise OverflowError
       | x => Ok x
       end.

(** [x * n] with a float and an int: the int is converted first. *)
Definition mul_int (x : float) (n : Z) : result float :=
  do f <- of_int n; Ok (mul x f).

(** [n * x] with an int and a float. *)
Definition int_mul (n : Z) (x : float) : result float :=
  do f <- of_int n; Ok (mul f x).

(** [min(a, b)] and [max(a, b)] of the builtins: the first argument
    is kept unless the second compares strictly below (above) it. *)
Definition py_min (a b : float) : float := if ltb b a then b else a.
Definition py_max (a b : float) : float := if ltb a b then b else a.

(** Nearest integer to [num / den], ties to even ([den] positive). *)
Definition round_half_even_div (num den : Z) : Z :=
  let q := num / den in
  match 2 * (num mod den) ?= den with
  | Lt => q
  | Gt => q + 1
  | Eq => if Z.even q then q else q + 1
  end.

(** [round(x, 1)] ([double_round]): the exact value is rounded to one
    decimal, ties to even, and the decimal is converted back to the
    nearest double. *)
Definition round1 (x : float) : result float :=
  match x with
  | S754_finite s m e =>
      let t := match e with
               | Zneg k => round_half_even_div (10 * Zpos m) (2 ^ Zpos k)
               | _ => 10 * Zpos m * 2 ^ e
               end in
      if t =? 0 then Ok (S754_zero s)
      else match div (exact_of_Z (if s then - t else t)) (exact_of_Z 10) with
           | S754_infinity _ => Raise OverflowError
           | y => Ok y
           end
  | _ => Ok x
  end.

(** The literals of the source. *)
Definition m0_1 : positive := 7205759403792794.
Definition m1_3 : positive := 5854679515581645.
Definition m2_5 : positive := 5629499534213120.
Definition f0_1 : float := S754_finite false m0_1 (-56).
Definition f0_2 : float := S754_finite false m0_1 (-55).
Definition f1_3 : float := S754_finite false m1_3 (-52).
Definition f2_5 : float := S754_finite false m2_5 (-51).

(** *** Vocabulary for reasoning about rounding *)

(** The exponent of the last place of a value whose leading bit has
    weight [2^(e-1)]. *)
Definition fexp64 (e : Z) : Z := Z.max (e - 53) (-1074).

(** The value [m * 2^e] counted in units of [2^-2148], fine enough
    for every exact sum, difference and product of two doubles. *)
Definition sc (m e : Z) : Z := m * 2 ^ (e + 2148).

Definition scaled (x : float) : Z :=
  match x with
  | S754_finite s m e => if s then - sc (Zpos m) e else sc (Zpos m) e
  | _ => 0
  end.

Definition is_finite (x : float) : bool :=
  match x with S754_finite _ _ _ | S754_zero _ => true | _ => false end.

(** The outcome of rounding to mantissa [m1] at exponent [E]. *)
Definition rounded (s : bool) (m1 E : Z) : float :=
  if m1 =? 0 then S754_zero s
  else if m1 =? 2 ^ 53 then
    (if E + 1 <=? 971 then S754_finite s (Z.to_pos (2 ^ 52)) (E + 1)
     else S754_infinity s)
  else if E <=? 971 then S754_finite s (Z.to_pos m1) E else S754_infinity s.

Definition inexact (mrs : shr_record) : bool := shr_r mrs || shr_s mrs.

(** A value some mantissa of at most 53 bits represents. *)
Definition repr (my ey : Z) : Prop := 0 <= my <= 2 ^ 53 /\ -1074 <= ey.

(** A non negative rounding result of value [v] (in [sc] units);
    infinity stands for a value at or above [2^1024]. *)
Inductive pos_result (v : Z) : float -> Prop :=
| pr_zero : v = 0 -> pos_result v (S754_zero false)
| pr_finite m e :
    bounded 53 1024 m e = true -> sc (Zpos m) e = v ->
    pos_result v (S754_finite false m e)
| pr_infinity : sc (2 ^ 53) 971 <= v -> pos_result v (S754_infinity false).

End Float64.

Import Float64.

(** ** [datetime] and [timedelta] *)

Module Datetime.

(** Microseconds since 0001-01-01T00:00:00 (UTC). *)
Definition datetime : Type := Z.
(** Microseconds. *)
Definition timedelta : Type := Z.

Definition us_per_day : Z := 86400000000.

(** [date.max.toordinal()], the ordinal of 9999-12-31. *)
Definition MAXORDINAL : Z := 3652059.

Definition datetime_max : datetime := MAXORDINAL * us_per_day - 1.

Definition in_range (t : Z) : bool := (0 <=? t) && (t <=? datetime_max).

(** [timedelta(days=n)]: the day count is limited in magnitude. *)
Definition timedelta_days (days : Z) : result timedelta :=
  if Z.abs days >? 999999999 then Raise OverflowError
  else Ok (days * us_per_day).

(** [timedelta(weeks=n)]. *)
Definition timedelta_weeks (weeks : Z) : result timedelta :=
  timedelta_days (7 * weeks).

(** [t + d] and [t - d]: [OverflowError] outside years 1..9999. *)
Definition datetime_add (t : datetime) (d : timedelta) : result datetime :=
  if in_range (t + d) then Ok (t + d) else Raise OverflowError.

Definition datetime_sub (t : datetime) (d : timedelta) : result datetime :=
  if in_range (t - d) then Ok (t - d) else Raise OverflowError.

Definition toordinal (t : datetime) : Z := t / us_per_day + 1.

(** Monday is 0. *)
Definition weekday (t : datetime) : Z := (toordinal t + 6) mod 7.

(** The proleptic Gregorian calendar, as [_ord2ymd] and [_ymd2ord]
    of the [datetime] module. *)
Definition DAYS_IN_MONTH : list Z :=
  [-1; 31; 28; 31; 30; 31; 30; 31; 31; 30; 31; 30; 31].
Definition DAYS_BEFORE_MONTH : list Z :=
  [-1; 0; 31; 59; 90; 120; 151; 181; 212; 243; 273; 304; 334].

Definition is_leap (year : Z) : bool :=
  (year mod 4 =? 0) && (negb (year mod 100 =? 0) || (year mod 400 =? 0)).

Definition b2z (b : bool) : Z := if b then 1 else 0.

Definition ord2ymd (ordinal : Z) : Z * Z * Z :=
  let n := ordinal - 1 in
  let n400 := n / 146097 in let n := n mod 146097 in
  let year := n400 * 400 + 1 in
  let n100 := n / 36524 in let n := n mod 36524 in
  let n4 := n / 1461 in let n := n mod 1461 in
  let n1 := n / 365 in let n := n mod 365 in
  let year := year + n100 * 100 + n4 * 4 + n1 in
  if (n1 =? 4) || (n100 =? 4) then (year - 1, 12, 31)
  else
    let leapyear := (n1 =? 3) && (negb (n4 =? 24) || (n100 =? 3)) in
    let month := Z.shiftr (n + 50) 5 in
    let preceding :=
      nth (Z.to_nat month) DAYS_BEFORE_MONTH 0
      + b2z ((month >? 2) && leapyear) in
    if preceding >? n then
      let month := month - 1 in
      let preceding :=
        preceding
        - (nth (Z.to_nat month) DAYS_IN_MONTH 0
           + b2z ((month =? 2) && leapyear)) in
      (year, month, n - preceding + 1)
    else (year, month, n - preceding + 1).

Definition days_before_year (year : Z) : Z :=
  let y := year - 1 in y * 365 + y / 4 - y / 100 + y / 400.

Definition ymd2ord (year month day : Z) : Z :=
  days_before_year year
  + (nth (Z.to_nat month) DAYS_BEFORE_MONTH 0
     + b2z ((month >? 2) && is_leap year))
  + day.

(** [datetime(year, month, day, hour, minute, second)]. *)
Definition make (year month day hour minute second : Z) : datetime :=
  (ymd2ord year month day - 1) * us_per_day
  + ((hour * 60 + minute) * 60 + second) * 1000000.

Definition digit (n : Z) : ascii := ascii_of_nat (48 + Z.to_nat (n mod 10)).

Definition two_digits (n : Z) : string :=
  String (digit (n / 10)) (String (digit n) EmptyString).

Definition four_digits (n : Z) : string :=
  String (digit (n / 1000)) (String (digit (n / 100)) (two_digits n)).

(** [t.strftime("%Y-%m-%d")], the year printed with four digits. *)
Definition strftime_ymd (t : datetime) : string :=
  let '(y, m, d) := ord2ymd (toordinal t) in
  (four_digits y ++ "-" ++ two_digits m ++ "-" ++ two_digits d)%string.

End Datetime.

Import Datetime.

(** ** The tables of [backend/database.py] *)

(** A Python number: an [int] or a [float]. *)
Inductive number : Type :=
| Int (n : Z)
| Float (x : float).

(** What a [Float] column holds for a number: SQLite stores an integer
    bound to a column of affinity REAL as the double of the same
    value, and that double is what is read back. *)
Definition as_real (n : number) : float :=
  match n with
  | Int k => binary_normalize Float64.prec Float64.emax k 0 false
  | Float x => x
  end.

(** An [int] that SQLite can bind to a statement: a signed 64-bit
    integer. For any other the driver raises [OverflowError] before
    the statement runs. *)
Definition sqlite_integer (n : Z) : bool :=
  (- 2 ^ 63 <=? n) && (n <? 2 ^ 63).

(** An [int] that fits [Py_ssize_t], as sequence repetition needs it. *)
Definition index_sized (n : Z) : bool :=
  (- 2 ^ 63 <=? n) && (n <? 2 ^ 63).

Module ProblemAttempt.

(** [patterns] holds the decoded JSON array of the column. *)
Record t : Type := mk {
  id : Z;
  user_id : string;
  created_at : datetime;
  title : string;
  difficulty : string;
  patterns : list string;
  statement : string;
  language : string;
  code : string;
  hints_used : Z;
  verdict : option string;
  time_complexity : option string;
  space_complexity : option string;
  evaluation_markdown : string;
  next_review_at : option datetime;
  review_interval_days : Z;
  ease_factor : float;
  company_style : option string;
  mock_session_id : option string
}.

(** [attempt.review_interval_days = v] *)
Definition set_review_interval_days (v : Z) (a : t) : t :=
  mk (id a) (user_id a) (created_at a) (title a) (difficulty a) (patterns a)
     (statement a) (language a) (code a) (hints_used a) (verdict a)
     (time_complexity a) (space_complexity a) (evaluation_markdown a)
     (next_review_at a) v (ease_factor a) (company_style a)
     (mock_session_id a).

(** [attempt.ease_factor = v] *)
Definition set_ease_factor (v : float) (a : t) : t :=
  mk (id a) (user_id a) (created_at a) (title a) (difficulty a) (patterns a)
     (statement a) (language a) (code a) (hints_used a) (verdict a)
     (time_complexity a) (space_complexity a) (evaluation_markdown a)
     (next_review_at a) (review_interval_days a) v (company_style a)
     (mock_session_id a).

(** [attempt.next_review_at = v] *)
Definition set_next_review_at (v : option datetime) (a : t) : t :=
  mk (id a) (user_id a) (created_at a) (title a) (difficulty a) (patterns a)
     (statement a) (language a) (code a) (hints_used a) (verdict a)
     (time_complexity a) (space_complexity a) (evaluation_markdown a)
     v (review_interval_days a) (ease_factor a) (company_style a)
     (mock_session_id a).

End ProblemAttempt.

Module Bookmark.

Record t : Type := mk {
  id : Z;
  user_id : string;
  attempt_id : Z;
  collection_name : string;
  created_at : datetime;
  notes : option string
}.

End Bookmark.

Module MockInterviewSession.

Record t : Type := mk {
  id : string;
  user_id : string;
  created_at : datetime;
  completed_at : option datetime;
  session_type : string;
  time_limit_minutes : Z;
  num_problems : Z;
  difficulties : list string;
  problems_completed : Z;
  total_score : option float
}.

(** The three assignments of [complete_mock_session], as the commit
    stores them: [total_score] is a [Float] column. *)
Definition complete (now : datetime) (n : Z) (score : number) (s : t) : t :=
  mk (id s) (user_id s) (created_at s) (Some now) (session_type s)
     (time_limit_minutes s) (num_problems s) (difficulties s) n
     (Some (as_real score)).

End MockInterviewSession.

Record Db : Type := {
  problem_attempts : list ProblemAttempt.t;
  bookmarks : list Bookmark.t;
  mock_interview_sessions : list MockInterviewSession.t
}.

Definition set_problem_attempts (rows : list ProblemAttempt.t) (d : Db) : Db :=
  {| problem_attempts := rows;
     bookmarks := bookmarks d;
     mock_interview_sessions := mock_interview_sessions d |}.

Definition set_bookmarks (rows : list Bookmark.t) (d : Db) : Db :=
  {| problem_attempts := problem_attempts d;
     bookmarks := rows;
     mock_interview_sessions := mock_interview_sessions d |}.

Definition set_mock_interview_sessions
    (rows : list MockInterviewSession.t) (d : Db) : Db :=
  {| problem_attempts := problem_attempts d;
     bookmarks := bookmarks d;
     mock_interview_sessions := rows |}.

(** ** The world a request handler runs in

    The committed database and the ambient clock. [clock k] is what the
    [k]-th call of [datetime.now(timezone.utc)] returns. *)
Record World : Type := {
  db : Db;
  clock : nat -> datetime;
  ticks : nat
}.

Definition datetime_now (w : World) : datetime * World :=
  (clock w (ticks w),
   {| db := db w; clock := clock w; ticks := S (ticks w) |}).

(** [db.commit()] of a handler that worked on the tables [d]. *)
Definition commit (d : Db) (w : World) : World :=
  {| db := d; clock := clock w; ticks := ticks w |}.

(** Column comparisons against a string literal; [NULL] never matches. *)
Definition str_eq (a b : string) : bool := String.eqb a b.

Definition opt_str_eq (a : option string) (b : string) : bool :=
  match a with
  | Some x => String.eqb x b
  | None => false
  end.

(** [UPDATE problem_attempts ... WHERE id = ?] *)
Definition update_attempt (a : ProblemAttempt.t)
    (rows : list ProblemAttempt.t) : list ProblemAttempt.t :=
  map (fun r => if ProblemAttempt.id r =? ProblemAttempt.id a then a else r) rows.

(** The key SQLite gives a new row of a table with an integer primary
    key: 1 in an empty table, else one more than the largest key in
    use (as long as that is not the largest 64-bit integer). *)
Definition next_id (ids : list Z) : Z :=
  match ids with
  | [] => 1
  | k :: rest => 1 + fold_right Z.max k rest
  end.

(** ** Spaced repetition ([backend/database.py]) *)

(** [calculate_next_review(attempt, was_correct)]. The attempt is
    mutated in place, so the attempt as it is after the call is
    returned next to the outcome, also when the call raises. *)
Definition calculate_next_review
    (attempt : ProblemAttempt.t) (was_correct : bool) (w : World)
  : World * ProblemAttempt.t * result datetime :=
  let branch : result (Z * float) :=
    if was_correct then
      do product <- Float64.int_mul (ProblemAttempt.review_interval_days attempt)
                                    (ProblemAttempt.ease_factor attempt);
      do new_interval <- Float64.to_int product;
      Ok (new_interval,
          Float64.py_min f2_5 (Float64.add (ProblemAttempt.ease_factor attempt) f0_1))
    else
      Ok (1, Float64.py_max f1_3 (Float64.sub (ProblemAttempt.ease_factor attempt) f0_2))
  in
  match branch with
  | Raise e => (w, attempt, Raise e)
  | Ok (new_interval, new_ease) =>
      let attempt :=
        ProblemAttempt.set_ease_factor new_ease
          (ProblemAttempt.set_review_interval_days new_interval attempt) in
      let '(now, w) := datetime_now w in
      match (do delta <- timedelta_days new_interval; datetime_add now delta) with
      | Raise e => (w, attempt, Raise e)
      | Ok next => (w, ProblemAttempt.set_next_review_at (Some next) attempt, Ok next)
      end
  end.

(** Rows in ascending order of [next_review_at] ([ORDER BY]). *)
Definition review_key (a : ProblemAttempt.t) : Z :=
  match ProblemAttempt.next_review_at a with
  | Some t => t
  | None => 0
  end.

Fixpoint insert_by_review (a : ProblemAttempt.t) (l : list ProblemAttempt.t)
  : list ProblemAttempt.t :=
  match l with
  | [] => [a]
  | b :: l' =>
      if review_key a <? review_key b then a :: l
      else b :: insert_by_review a l'
  end.

Definition order_by_next_review (l : list ProblemAttempt.t)
  : list ProblemAttempt.t :=
  fold_right insert_by_review [] (rev l).

(** [.limit(n)]: a negative limit is no limit in SQLite. *)
Definition sql_limit {A : Type} (n : Z) (l : list A) : list A :=
  if n <? 0 then l else firstn (Z.to_nat n) l.

Definition is_due (user_id : string) (now : datetime) (a : ProblemAttempt.t) : bool :=
  str_eq (ProblemAttempt.user_id a) user_id
  && match ProblemAttempt.next_review_at a with
     | Some t => t <=? now
     | None => false
     end.

(** [get_due_problems(db, user_id, limit)], for a [limit] that is a
    signed 64-bit integer (the query binds it). *)
Definition get_due_problems (user_id : string) (limit : Z) (w : World)
  : World * list ProblemAttempt.t :=
  let '(now, w) := datetime_now w in
  (w, sql_limit limit
        (order_by_next_review
           (filter (is_due user_id now) (problem_attempts (db w))))).

(** ** Analytics helpers ([backend/database.py]) *)

Module PatternStat.

Record t : Type := mk { total : Z; correct : Z; incorrect : Z; partial : Z }.

End PatternStat.

(** The counters of one pattern after one more attempt with verdict
    [v]. *)
Definition count_pattern (v : option string) (s : PatternStat.t) : PatternStat.t :=
  if opt_str_eq v "correct" then
    PatternStat.mk (PatternStat.total s + 1) (PatternStat.correct s + 1)
                   (PatternStat.incorrect s) (PatternStat.partial s)
  else if opt_str_eq v "incorrect" then
    PatternStat.mk (PatternStat.total s + 1) (PatternStat.correct s)
                   (PatternStat.incorrect s + 1) (PatternStat.partial s)
  else
    PatternStat.mk (PatternStat.total s + 1) (PatternStat.correct s)
                   (PatternStat.incorrect s) (PatternStat.partial s + 1).

Definition for_user (user_id : string) (d : Db) : list ProblemAttempt.t :=
  filter (fun a => str_eq (ProblemAttempt.user_id a) user_id) (problem_attempts d).

(** [get_pattern_stats(db, user_id)] *)
Definition get_pattern_stats (d : Db) (user_id : string)
  : gmap string PatternStat.t :=
  fold_left
    (fun stats attempt =>
       fold_left
         (fun stats pattern =>
            let s := default (PatternStat.mk 0 0 0 0) (stats !! pattern) in
            <[pattern := count_pattern (ProblemAttempt.verdict attempt) s]> stats)
         (ProblemAttempt.patterns attempt) stats)
    (for_user user_id d) ∅.

Module DifficultyStat.

Record t : Type := mk { total : Z; correct : Z }.

End DifficultyStat.

(** [get_difficulty_stats(db, user_id)] *)
Definition get_difficulty_stats (d : Db) (user_id : string)
  : gmap string DifficultyStat.t :=
  let zero := DifficultyStat.mk 0 0 in
  fold_left
    (fun stats attempt =>
       match stats !! ProblemAttempt.difficulty attempt with
       | Some s =>
           <[ProblemAttempt.difficulty attempt :=
               DifficultyStat.mk
                 (DifficultyStat.total s + 1)
                 (if opt_str_eq (ProblemAttempt.verdict attempt) "correct"
                  then DifficultyStat.correct s + 1
                  else DifficultyStat.correct s)]> stats
       | None => stats
       end)
    (for_user user_id d)
    (<["Easy"%string := zero]> (<["Medium"%string := zero]>
       (<["Hard"%string := zero]> ∅))).

Record WeekBucket : Type := { week : string; count : Z }.

(** The grouping loop of [get_weekly_activity]: the key of an attempt
    is the date of the Monday of its week. *)
Definition week_key (created_at : datetime) : result string :=
  do delta <- timedelta_days (weekday created_at);
  do week_start <- datetime_sub created_at delta;
  Ok (strftime_ymd week_start).

Fixpoint group_by_week (attempts : list ProblemAttempt.t)
    (weekly_data : gmap string Z) : result (gmap string Z) :=
  match attempts with
  | [] => Ok weekly_data
  | attempt :: rest =>
      do key <- week_key (ProblemAttempt.created_at attempt);
      group_by_week rest
        (<[key := default 0 (weekly_data !! key) + 1]> weekly_data)
  end.

(** The [while current <= end_date] loop. [None] is a loop that is
    still running when the fuel is spent. *)
Fixpoint fill_weeks (fuel : nat) (weekly_data : gmap string Z)
    (current end_date : datetime) : option (result (list WeekBucket)) :=
  match fuel with
  | O => None
  | S fuel =>
      if current <=? end_date then
        let bucket := {| week := strftime_ymd current;
                         count := default 0 (weekly_data !! strftime_ymd current) |} in
        match (do delta <- timedelta_weeks 1; datetime_add current delta) with
        | Raise e => Some (Raise e)
        | Ok next =>
            match fill_weeks fuel weekly_data next end_date with
            | Some (Ok rest) => Some (Ok (bucket :: rest))
            | other => other
            end
        end
      else Some (Ok [])
  end.

(** Enough iterations for any two datetimes. *)
Definition weeks_fuel (start_date end_date : datetime) : nat :=
  S (S (Z.to_nat ((end_date - start_date) / (7 * us_per_day)))).

(** [get_weekly_activity(db, user_id, weeks)] *)
Definition get_weekly_activity (user_id : string) (weeks : Z) (w : World)
  : World * option (result (list WeekBucket)) :=
  let '(end_date, w) := datetime_now w in
  match (do delta <- timedelta_weeks weeks; datetime_sub end_date delta) with
  | Raise e => (w, Some (Raise e))
  | Ok start_date =>
      let attempts :=
        filter (fun a => str_eq (ProblemAttempt.user_id a) user_id
                         && (start_date <=? ProblemAttempt.created_at a))
               (problem_attempts (db w)) in
      match group_by_week attempts ∅ with
      | Raise e => (w, Some (Raise e))
      | Ok weekly_data =>
          (w, fill_weeks (weeks_fuel start_date end_date)
                weekly_data start_date end_date)
      end
  end.

(** ** Request handlers ([backend/main.py]) *)

Module ProblemMetadata.

Record t : Type := mk {
  title : string;
  difficulty : string;
  patterns : list string;
  statement : string
}.

End ProblemMetadata.

Module SaveAttemptRequest.

Record t : Type := mk {
  userId : string;
  problem : ProblemMetadata.t;
  language : string;
  code : string;
  hintsUsed : Z;
  verdict : string;
  timeComplexity : option string;
  spaceComplexity : option string;
  evaluationMarkdown : string;
  companyStyle : option string;
  mockSessionId : option string
}.

End SaveAttemptRequest.

Definition not_found (detail : string) : exn := HTTPException 404 detail.

(** The verdict parsing of [evaluate_solution_endpoint]. [lower] is
    [str.lower]. *)
Fixpoint starts_with (prefix s : string) : bool :=
  match prefix, s with
  | EmptyString, _ => true
  | String a p, String b s' => Ascii.eqb a b && starts_with p s'
  | String _ _, EmptyString => false
  end.

(** [needle in s] *)
Fixpoint contains (needle s : string) : bool :=
  starts_with needle s
  || match s with
     | EmptyString => false
     | String _ s' => contains needle s'
     end.

Section Verdict.

Variable lower : string -> string.

Definition parse_verdict (evaluation_md : string) : string :=
  let eval_lower := lower evaluation_md in
  if contains "incorrect" eval_lower || contains "wrong" eval_lower
  then "incorrect"%string
  else if contains "correct" eval_lower && negb (contains "partially" eval_lower)
  then "correct"%string
  else "partially_correct"%string.

End Verdict.

(** [str.lower] on ASCII text. *)
Definition ascii_lower_char (c : ascii) : ascii :=
  let n := nat_of_ascii c in
  if ((65 <=? n) && (n <=? 90))%nat then ascii_of_nat (n + 32) else c.

Fixpoint ascii_lower (s : string) : string :=
  match s with
  | EmptyString => EmptyString
  | String c s' => String (ascii_lower_char c) (ascii_lower s')
  end.

(** [POST /attempts/save] *)
Definition save_attempt (req : SaveAttemptRequest.t) (w : World)
  : World * result Z :=
  let '(now, w) := datetime_now w in
  (* db.add(attempt); db.commit(): the row gets its key and the column
     defaults, [created_at] from a clock reading of its own; then the
     INSERT binds [hints_used] *)
  let '(created, w) := datetime_now w in
  if negb (sqlite_integer (SaveAttemptRequest.hintsUsed req))
  then (w, Raise OverflowError)
  else
  let attempt :=
    ProblemAttempt.mk
      (next_id (map ProblemAttempt.id (problem_attempts (db w))))
      (SaveAttemptRequest.userId req) created
      (ProblemMetadata.title (SaveAttemptRequest.problem req)) (ProblemMetadata.difficulty (SaveAttemptRequest.problem req))
      (ProblemMetadata.patterns (SaveAttemptRequest.problem req)) (ProblemMetadata.statement (SaveAttemptRequest.problem req))
      (SaveAttemptRequest.language req) (SaveAttemptRequest.code req) (SaveAttemptRequest.hintsUsed req)
      (Some (SaveAttemptRequest.verdict req)) (SaveAttemptRequest.timeComplexity req) (SaveAttemptRequest.spaceComplexity req)
      (SaveAttemptRequest.evaluationMarkdown req)
      (Some now) (* Due immediately for first review *)
      1 f2_5
      (SaveAttemptRequest.companyStyle req) (SaveAttemptRequest.mockSessionId req) in
  let w := commit (set_problem_attempts
                     (problem_attempts (db w) ++ [attempt]) (db w)) w in
  (* Calculate next review based on verdict *)
  let was_correct := str_eq (SaveAttemptRequest.verdict req) "correct" in
  let '(w, attempt, r) := calculate_next_review attempt was_correct w in
  match r with
  | Raise e => (w, Raise e)
  | Ok _ =>
      (commit (set_problem_attempts
                 (update_attempt attempt (problem_attempts (db w))) (db w)) w,
       Ok (ProblemAttempt.id attempt))
  end.

Definition find_attempt (attempt_id : Z) (d : Db) : option ProblemAttempt.t :=
  find (fun a => ProblemAttempt.id a =? attempt_id) (problem_attempts d).

(** [GET /attempts/{attempt_id}]; the query binds [attempt_id]. *)
Definition get_attempt (attempt_id : Z) (d : Db) : result ProblemAttempt.t :=
  if negb (sqlite_integer attempt_id) then Raise OverflowError
  else
    match find_attempt attempt_id d with
    | None => Raise (not_found "Attempt not found")
    | Some attempt => Ok attempt
    end.

(** [GET /review/due/{user_id}] *)
Definition get_due_for_review (user_id : string) (limit : Z) (w : World)
  : World * (Z * list ProblemAttempt.t) :=
  let '(w, due) := get_due_problems user_id limit w in
  (w, (Z.of_nat (List.length due), due)).

Record ReviewResponse : Type := { nextReviewAt : datetime; intervalDays : Z }.

(** [POST /review/complete/{attempt_id}]; the query binds
    [attempt_id]. *)
Definition complete_review (attempt_id : Z) (was_correct : bool) (w : World)
  : World * result ReviewResponse :=
  if negb (sqlite_integer attempt_id) then (w, Raise OverflowError)
  else
  match find_attempt attempt_id (db w) with
  | None => (w, Raise (not_found "Attempt not found"))
  | Some attempt =>
      let '(w, attempt, r) := calculate_next_review attempt was_correct w in
      match r with
      | Raise e => (w, Raise e)
      | Ok next_review =>
          (commit (set_problem_attempts
                     (update_attempt attempt (problem_attempts (db w))) (db w)) w,
           Ok {| nextReviewAt := next_review;
                 intervalDays := ProblemAttempt.review_interval_days attempt |})
      end
  end.

(** [DELETE /bookmarks/{bookmark_id}]; the answer is the ["success"]
    field. The query binds [bookmark_id]. *)
Definition delete_bookmark (bookmark_id : Z) (d : Db) : Db * result bool :=
  if negb (sqlite_integer bookmark_id) then (d, Raise OverflowError)
  else
  match find (fun b => Bookmark.id b =? bookmark_id) (bookmarks d) with
  | Some bookmark =>
      (set_bookmarks
         (filter (fun b => negb (Bookmark.id b =? Bookmark.id bookmark))
                 (bookmarks d)) d,
       Ok true)
  | None => (d, Ok true)
  end.

Definition find_session (session_id : string) (d : Db)
  : option MockInterviewSession.t :=
  find (fun s => str_eq (MockInterviewSession.id s) session_id)
       (mock_interview_sessions d).

Definition session_problems (session_id : string) (d : Db)
  : list ProblemAttempt.t :=
  filter (fun a => opt_str_eq (ProblemAttempt.mock_session_id a) session_id)
         (problem_attempts d).

(** [GET /mock/session/{session_id}] *)
Definition get_mock_session (session_id : string) (d : Db)
  : result (MockInterviewSession.t * list ProblemAttempt.t) :=
  match find_session session_id d with
  | None => Raise (not_found "Session not found")
  | Some session => Ok (session, session_problems session_id d)
  end.

(** The points the scoring loop adds for one problem. *)
Definition verdict_points (v : option string) : Z :=
  if opt_str_eq v "correct" then 100
  else if opt_str_eq v "partially_correct" then 50
  else 0.

Record MockCompleteResponse : Type := { score : number; problemsCompleted : Z }.

(** [POST /mock/complete/{session_id}] *)
Definition complete_mock_session (session_id : string) (w : World)
  : World * result MockCompleteResponse :=
  match find_session session_id (db w) with
  | None => (w, Raise (not_found "Session not found"))
  | Some session =>
      let problems := session_problems session_id (db w) in
      let total_score :=
        fold_left (fun total p => total + verdict_points (ProblemAttempt.verdict p))
                  problems 0 in
      let total_score : result number :=
        match problems with
        | [] => Ok (Int total_score)
        | _ :: _ =>
            do q <- Float64.int_truediv total_score (Z.of_nat (List.length problems));
            Ok (Float q)
        end in
      match total_score with
      | Raise e => (w, Raise e)
      | Ok total_score =>
          let '(now, w) := datetime_now w in
          let session :=
            MockInterviewSession.complete now (Z.of_nat (List.length problems))
              total_score session in
          (commit (set_mock_interview_sessions
                     (map (fun s => if str_eq (MockInterviewSession.id s)
                                              (MockInterviewSession.id session)
                                    then session else s)
                          (mock_interview_sessions (db w))) (db w)) w,
           Ok {| score := total_score;
                 problemsCompleted := Z.of_nat (List.length problems) |})
      end
  end.

Record AnalyticsResponse : Type := {
  totalAttempts : Z;
  correctAttempts : Z;
  accuracy : number;
  patternStats : gmap string PatternStat.t;
  difficultyStats : gmap string DifficultyStat.t;
  weeklyActivity : list WeekBucket
}.

(** The ["accuracy"] entry of the answer of [get_analytics]. *)
Definition accuracy_of (correct_attempts total_attempts : Z) : result number :=
  if total_attempts >? 0 then
    do ratio <- Float64.int_truediv correct_attempts total_attempts;
    do percent <- Float64.mul_int ratio 100;
    do rounded <- Float64.round1 percent;
    Ok (Float rounded)
  else Ok (Int 0).

(** [GET /analytics/{user_id}] *)
Definition get_analytics (user_id : string) (w : World)
  : World * option (result AnalyticsResponse) :=
  let pattern_stats := get_pattern_stats (db w) user_id in
  let difficulty_stats := get_difficulty_stats (db w) user_id in
  let '(w, weekly) := get_weekly_activity user_id 12 w in
  match weekly with
  | None => (w, None)
  | Some (Raise e) => (w, Some (Raise e))
  | Some (Ok weekly_activity) =>
      let total_attempts := Z.of_nat (List.length (for_user user_id (db w))) in
      let correct_attempts :=
        Z.of_nat (List.length (filter (fun a => opt_str_eq (ProblemAttempt.verdict a) "correct")
                                 (for_user user_id (db w)))) in
      match accuracy_of correct_attempts total_attempts with
      | Raise e => (w, Some (Raise e))
      | Ok acc =>
          (w, Some (Ok {| totalAttempts := total_attempts;
                          correctAttempts := correct_attempts;
                          accuracy := acc;
                          patternStats := pattern_stats;
                          difficultyStats := difficulty_stats;
                          weeklyActivity := weekly_activity |}))
      end
  end.

(** ** Vocabulary of the properties *)

(** The documented domain of the ease factor: a double between the
    literals [1.3] and [2.5]. *)
Definition ease_in_range (x : float) : bool :=
  Float64.valid x && Float64.leb f1_3 x && Float64.leb x f2_5.

(** The review state an attempt is documented to keep. *)
Definition review_state_ok (a : ProblemAttempt.t) : Prop :=
  1 <= ProblemAttempt.review_interval_days a /\
  ease_in_range (ProblemAttempt.ease_factor a) = true.

(** The attempt after a series of reviews, one call of
    [calculate_next_review] per outcome, whatever each call returns. *)
Fixpoint run_reviews (outcomes : list bool) (a : ProblemAttempt.t) (w : World)
  : World * ProblemAttempt.t :=
  match outcomes with
  | [] => (w, a)
  | was_correct :: rest =>
      let '(w, a, _) := calculate_next_review a was_correct w in
      run_reviews rest a w
  end.

(** The fields of an attempt the scheduler has no business with. *)
Definition same_but_review (a b : ProblemAttempt.t) : Prop :=
  ProblemAttempt.set_next_review_at (ProblemAttempt.next_review_at a)
    (ProblemAttempt.set_ease_factor (ProblemAttempt.ease_factor a)
       (ProblemAttempt.set_review_interval_days
          (ProblemAttempt.review_interval_days a) b)) = a.

(** [needle] occurs in [s]. *)
Definition occurs (needle s : string) : Prop :=
  exists before after, s = (before ++ needle ++ after)%string.

(** The sum the scoring loop accumulates. *)
Definition points_sum (problems : list ProblemAttempt.t) : Z :=
  fold_right Z.add 0 (map (fun p => verdict_points (ProblemAttempt.verdict p)) problems).

(** The interval and ease [calculate_next_review] is about to assign,
    or the exception the conversion of the product raises. *)
Definition new_review_values (a : ProblemAttempt.t) (was_correct : bool)
  : result (Z * float) :=
  if was_correct then
    do product <- Float64.int_mul (ProblemAttempt.review_interval_days a)
                                  (ProblemAttempt.ease_factor a);
    do new_interval <- Float64.to_int product;
    Ok (new_interval,
        Float64.py_min f2_5 (Float64.add (ProblemAttempt.ease_factor a) f0_1))
  else
    Ok (1, Float64.py_max f1_3 (Float64.sub (ProblemAttempt.ease_factor a) f0_2)).

(** [now + timedelta(days=n)] *)
Definition plus_days (now : datetime) (n : Z) : result datetime :=
  do delta <- timedelta_days n; datetime_add now delta.

Definition attempt_after (x : World * ProblemAttempt.t * result datetime)
  : ProblemAttempt.t := snd (fst x).

Definition world_after (x : World * ProblemAttempt.t * result datetime)
  : World := fst (fst x).

Definition outcome (x : World * ProblemAttempt.t * result datetime)
  : result datetime := snd x.

Definition us_per_week : Z := 7 * us_per_day.

(** [n] buckets, one per week from [current] on. *)
Fixpoint week_buckets (n : nat) (weekly_data : gmap string Z)
    (current : datetime) : list WeekBucket :=
  match n with
  | O => []
  | S n =>
      {| week := strftime_ymd current;
         count := default 0 (weekly_data !! strftime_ymd current) |}
      :: week_buckets n weekly_data (current + us_per_week)
  end.

(** How often [current <= end_date] holds while [current] advances by
    a week. *)
Definition weeks_between (current end_date : datetime) : nat :=
  if current <=? end_date
  then Z.to_nat ((end_date - current) / us_per_week + 1)
  else O.

(** Every stored [created_at] is a datetime. *)
Definition created_in_range (d : Db) : Prop :=
  Forall (fun a => in_range (ProblemAttempt.created_at a) = true)
         (problem_attempts d).

(** The attempts [get_weekly_activity] groups. *)
Definition in_window (user_id : string) (start_date : datetime) (d : Db)
  : list ProblemAttempt.t :=
  filter (fun a => str_eq (ProblemAttempt.user_id a) user_id
                   && (start_date <=? ProblemAttempt.created_at a))
         (problem_attempts d).

(** Every stored attempt has a review state in the documented range. *)
Definition stored_review_state_ok (d : Db) : Prop :=
  Forall review_state_ok (problem_attempts d).

(** ** Sample data *)

(** A clock that starts on Wednesday 2024-01-03 at noon and advances
    one second per reading. *)
Definition clock_2024 (k : nat) : datetime :=
  make 2024 1 3 12 0 0 + Z.of_nat k * 1000000.

(** The same clock one hour later. *)
Definition clock_2024_later (k : nat) : datetime :=
  make 2024 1 3 13 0 0 + Z.of_nat k * 1000000.

Definition empty_db : Db :=
  {| problem_attempts := []; bookmarks := []; mock_interview_sessions := [] |}.

Definition world_2024 (d : Db) : World :=
  {| db := d; clock := clock_2024; ticks := 0 |}.

Definition world_2024_later (d : Db) : World :=
  {| db := d; clock := clock_2024_later; ticks := 0 |}.

Definition f2_0 : float := S754_finite false 4503599627370496 (-51).
Definition f1_8 : float := S754_finite false 8106479329266893 (-52).
Definition f2_3 : float := S754_finite false 5179139571476070 (-51).

(** An attempt of user ["ada"] in mock session ["S"]. *)
Definition sample_attempt (key : Z) (created : datetime) (v : option string)
    (interval : Z) (ease : float) : ProblemAttempt.t :=
  ProblemAttempt.mk key "ada" created "Two Sum" "Easy" ["arrays"%string]
    "Find two numbers that add up to the target." "python" "pass" 0 v
    None None "ok" None interval ease None (Some "S"%string).

Definition tuesday : datetime := make 2024 1 2 9 0 0.

Definition sample_request (v : string) : SaveAttemptRequest.t :=
  SaveAttemptRequest.mk "ada"
    (ProblemMetadata.mk "Two Sum" "Easy" ["arrays"%string]
       "Find two numbers that add up to the target.")
    "python" "pass" 0 v None None "ok" None None.

Definition sample_session (key : string) : MockInterviewSession.t :=
  MockInterviewSession.mk key "ada" tuesday None "custom" 45 3
    ["Easy"%string; "Medium"%string; "Hard"%string] 0 None.

(** Three attempts made on Tuesday 2024-01-02, linked to session
    ["S"]; session ["E"] has no attempt. *)
Definition sample_db : Db :=
  {| problem_attempts :=
       [sample_attempt 1 tuesday (Some "correct"%string) 1 f2_5;
        sample_attempt 2 tuesday (Some "partially_correct"%string) 1 f2_5;
        sample_attempt 3 tuesday (Some "incorrect"%string) 1 f2_5];
     bookmarks :=
       [Bookmark.mk 1 "ada" 1 "Saved" tuesday None];
     mock_interview_sessions := [sample_session "S"; sample_session "E"] |}.

Definition m100 : positive := 7036874417766400.
Definition f100 : float := S754_finite false m100 (-46).
Definition f33_3 : float := S754_finite false 4686558362232422 (-47).

(** * Further handlers and helpers

    The bookmark and mock-interview handlers of [backend/main.py], the
    free-usage table of [memory_utils.py] and the text parsing of
    [core.py] and [backend/main.py]. *)

From Stdlib Require Import Sorted.

(** ** Bookmarks ([backend/main.py]) *)

Module BookmarkRequest.

Record t : Type := mk {
  userId : string;
  attemptId : Z;
  collectionName : string;
  notes : option string
}.

End BookmarkRequest.

(** The answer of [add_bookmark]: ["bookmarkId"] and, for a bookmark
    that was already there, ["message"]. *)
Record AddBookmarkResponse : Type := {
  bookmarkId : Z;
  message : option string
}.

(** The filter of the [existing] query. *)
Definition same_bookmark (req : BookmarkRequest.t) (b : Bookmark.t) : bool :=
  str_eq (Bookmark.user_id b) (BookmarkRequest.userId req)
  && (Bookmark.attempt_id b =? BookmarkRequest.attemptId req)
  && str_eq (Bookmark.collection_name b) (BookmarkRequest.collectionName req).

(** [POST /bookmarks/add], for an [attemptId] that is a signed 64-bit
    integer (the queries bind it). SQLite does not check the foreign
    key [attempt_id] (the connection never turns [foreign_keys] on). *)
Definition add_bookmark (req : BookmarkRequest.t) (w : World)
  : World * AddBookmarkResponse :=
  match find (same_bookmark req) (bookmarks (db w)) with
  | Some existing =>
      (w, {| bookmarkId := Bookmark.id existing;
             message := Some "Already bookmarked"%string |})
  | None =>
      (* db.add(bookmark); db.commit(): key and [created_at] default *)
      let '(created, w) := datetime_now w in
      let bookmark :=
        Bookmark.mk (next_id (map Bookmark.id (bookmarks (db w))))
          (BookmarkRequest.userId req) (BookmarkRequest.attemptId req)
          (BookmarkRequest.collectionName req) created
          (BookmarkRequest.notes req) in
      (commit (set_bookmarks (bookmarks (db w) ++ [bookmark]) (db w)) w,
       {| bookmarkId := Bookmark.id bookmark; message := None |})
  end.

(** [ORDER BY key DESC]: rows in descending order of an integer key. *)
Fixpoint insert_desc {A : Type} (key : A -> Z) (a : A) (l : list A) : list A :=
  match l with
  | [] => [a]
  | b :: l' =>
      if key b <? key a then a :: l
      else b :: insert_desc key a l'
  end.

Definition order_by_desc {A : Type} (key : A -> Z) (l : list A) : list A :=
  fold_right (insert_desc key) [] (rev l).

(** [SELECT DISTINCT]: each value once, in the order of first
    appearance. *)
Fixpoint distinct (l : list string) : list string :=
  match l with
  | [] => []
  | x :: l' => x :: filter (fun y => negb (str_eq y x)) (distinct l')
  end.

(** [GET /bookmarks/{user_id}?collection=...]: the ["bookmarks"] and
    the ["collections"] of the answer. *)
Definition get_bookmarks (user_id : string) (collection : option string) (d : Db)
  : list Bookmark.t * list string :=
  let query := filter (fun b => str_eq (Bookmark.user_id b) user_id) (bookmarks d) in
  let query :=
    match collection with
    | Some (String c cs) =>
        filter (fun b => str_eq (Bookmark.collection_name b) (String c cs)) query
    | Some EmptyString | None => query
    end in
  (order_by_desc Bookmark.created_at query,
   distinct (map Bookmark.collection_name
               (filter (fun b => str_eq (Bookmark.user_id b) user_id) (bookmarks d)))).

(** ** Mock interview sessions ([backend/main.py]) *)

Module MockSessionRequest.

Record t : Type := mk {
  userId : string;
  sessionType : string;
  timeLimitMinutes : Z;
  numProblems : Z;
  difficulties : list string
}.

End MockSessionRequest.

Module MockStartResponse.

Record t : Type := mk {
  sessionId : string;
  timeLimitMinutes : Z;
  numProblems : Z;
  difficulties : list string
}.

End MockStartResponse.

(** The [difficulties] that [start_mock_session] settles on.
    [["Medium"] * n] is empty for [n <= 0] and raises [OverflowError]
    for an [n] that is not index-sized; memory is taken to be large
    enough for the list. *)
Definition session_difficulties (req : MockSessionRequest.t)
  : result (list string) :=
  match MockSessionRequest.difficulties req with
  | [] =>
      if str_eq (MockSessionRequest.sessionType req) "phone_screen"
      then Ok ["Easy"; "Medium"]%string
      else if str_eq (MockSessionRequest.sessionType req) "onsite"
      then Ok ["Medium"; "Medium"; "Hard"]%string
      else if index_sized (MockSessionRequest.numProblems req)
      then Ok (repeat "Medium"%string (Z.to_nat (MockSessionRequest.numProblems req)))
      else Raise OverflowError
  | _ :: _ => Ok (MockSessionRequest.difficulties req)
  end.

(** How a handler that inserts a row ends: the row is stored, or its
    primary key is taken and SQLAlchemy raises [IntegrityError], or
    another exception is raised. *)
Inductive insert_result (A : Type) : Type :=
| Inserted (v : A)
| IntegrityError
| Refused (e : exn).

Arguments Inserted {A} v.
Arguments IntegrityError {A}.
Arguments Refused {A} e.

(** [POST /mock/start]; [session_id] is the value of
    [str(uuid.uuid4())]. *)
Definition start_mock_session (session_id : string)
    (req : MockSessionRequest.t) (w : World)
  : World * insert_result MockStartResponse.t :=
  match session_difficulties req with
  | Raise e => (w, Refused e)
  | Ok difficulties =>
      (* the flush evaluates the [created_at] default, then the INSERT
         binds [time_limit_minutes] *)
      let '(created, w) := datetime_now w in
      if negb (sqlite_integer (MockSessionRequest.timeLimitMinutes req))
      then (w, Refused OverflowError)
      else
        match find_session session_id (db w) with
        | Some _ => (w, IntegrityError)
        | None =>
            let session :=
              MockInterviewSession.mk session_id (MockSessionRequest.userId req)
                created None (MockSessionRequest.sessionType req)
                (MockSessionRequest.timeLimitMinutes req)
                (Z.of_nat (List.length difficulties)) difficulties 0 None in
            (commit (set_mock_interview_sessions
                       (mock_interview_sessions (db w) ++ [session]) (db w)) w,
             Inserted
               (MockStartResponse.mk session_id
                  (MockSessionRequest.timeLimitMinutes req)
                  (Z.of_nat (List.length difficulties)) difficulties))
        end
  end.

(** [GET /mock/history/{user_id}] *)
Definition get_mock_history (user_id : string) (d : Db)
  : list MockInterviewSession.t :=
  sql_limit 20
    (order_by_desc MockInterviewSession.created_at
       (filter (fun s => str_eq (MockInterviewSession.user_id s) user_id)
               (mock_interview_sessions d))).

(** ** The free-usage table ([memory_utils.py])

    [interview_free_usage(entity_id TEXT PRIMARY KEY, remaining INTEGER
    NOT NULL)]. *)
Definition FreeUsage : Type := gmap string Z.

(** [MemoriManager.set_free_uses_remaining(remaining)] of a manager
    whose [entity_id] is [entity_id]. *)
Definition set_free_uses_remaining (entity_id : string) (remaining : Z)
    (table : FreeUsage) : FreeUsage * result unit :=
  match entity_id with
  | EmptyString => (table, Ok tt)
  | String _ _ =>
      if sqlite_integer remaining
      then (<[entity_id := remaining]> table, Ok tt)
      else (table, Raise OverflowError)
  end.

(** [MemoriManager.get_free_uses_remaining(default_total)] *)
Definition get_free_uses_remaining (entity_id : string) (default_total : Z)
    (table : FreeUsage) : Z :=
  match entity_id with
  | EmptyString => default_total
  | String _ _ =>
      match table !! entity_id with
      | None => default_total
      | Some remaining => remaining
      end
  end.

(** ** Text parsing *)

(** [re.search(r"O\([^)]+\)", s)] of [evaluate_solution_endpoint]
    ([backend/main.py]), on the UTF-8 bytes of the text.

    [paren_run s] is what [[^)]*\)] matches at the start of [s]: the
    text up to the first [")"], with it. *)
Fixpoint paren_run (s : string) : option string :=
  match s with
  | EmptyString => None
  | String c s' =>
      if Ascii.eqb c ")" then Some ")"%string
      else option_map (String c) (paren_run s')
  end.

(** The match of the pattern at the start of [s]. *)
Definition match_complexity (s : string) : option string :=
  match s with
  | String "O" (String "(" rest) =>
      match paren_run rest with
      | Some (String c (String c' body)) =>
          Some (String "O" (String "(" (String c (String c' body))))
      | _ => None
      end
  | _ => None
  end.

(** The leftmost match, [time_match.group(0)]. *)
Fixpoint search_complexity (s : string) : option string :=
  match match_complexity s with
  | Some m => Some m
  | None =>
      match s with
      | EmptyString => None
      | String _ s' => search_complexity s'
      end
  end.

(** [c in s] for a character. *)
Fixpoint has_char (c : ascii) (s : string) : bool :=
  match s with
  | EmptyString => false
  | String c' s' => Ascii.eqb c' c || has_char c s'
  end.

(** [s[n:]] *)
Fixpoint string_drop (n : nat) (s : string) : string :=
  match n, s with
  | O, _ => s
  | S n', String _ s' => string_drop n' s'
  | S _, EmptyString => EmptyString
  end.

(** [s.split(sep)] for a one-character separator. *)
Fixpoint split_char (sep : ascii) (s : string) : list string :=
  match s with
  | EmptyString => [EmptyString]
  | String c s' =>
      if Ascii.eqb c sep then EmptyString :: split_char sep s'
      else match split_char sep s' with
           | [] => [String c EmptyString]
           | h :: t => String c h :: t
           end
  end.

(** [sep.join(l)] *)
Fixpoint join (sep : string) (l : list string) : string :=
  match l with
  | [] => EmptyString
  | [x] => x
  | x :: l' => x ++ sep ++ join sep l'
  end.

(** [a or b] on strings and on lists. *)
Definition str_or (a b : string) : string :=
  match a with
  | EmptyString => b
  | String _ _ => a
  end.

Definition list_or {A : Type} (a b : list A) : list A :=
  match a with
  | [] => b
  | _ :: _ => a
  end.

Definition nonempty (s : string) : bool :=
  match s with
  | EmptyString => false
  | String _ _ => true
  end.

(** The template parsing of [generate_personalized_problem]
    ([core.py]), from the text the agent answered. *)
Module Parse.

Record state : Type := mk {
  title : string;
  parsed_difficulty : string;
  parsed_patterns : list string;
  statement_lines : list string;
  in_statement : bool
}.

End Parse.

Section ProblemTemplate.

(** [str.strip] and [str.splitlines] *)
Variable strip : string -> string.
Variable splitlines : string -> list string.

(** [stripped.split(prefix, 1)[1]] of a text that starts with
    [prefix]. *)
Definition after_prefix (prefix stripped : string) : string :=
  string_drop (String.length prefix) stripped.

(** One round of the [for line in text.splitlines()] loop. *)
Definition parse_line (difficulty : string) (patterns : list string)
    (st : Parse.state) (line : string) : Parse.state :=
  let stripped := strip line in
  if starts_with "Title:" stripped then
    Parse.mk (str_or (strip (after_prefix "Title:" stripped)) (Parse.title st))
      (Parse.parsed_difficulty st) (Parse.parsed_patterns st)
      (Parse.statement_lines st) (Parse.in_statement st)
  else if starts_with "Difficulty:" stripped then
    Parse.mk (Parse.title st)
      (str_or (strip (after_prefix "Difficulty:" stripped))
              (str_or (Parse.parsed_difficulty st) difficulty))
      (Parse.parsed_patterns st)
      (Parse.statement_lines st) (Parse.in_statement st)
  else if starts_with "Patterns:" stripped then
    let pats := after_prefix "Patterns:" stripped in
    Parse.mk (Parse.title st) (Parse.parsed_difficulty st)
      (list_or (map strip (filter (fun p => nonempty (strip p))
                                  (split_char "," pats)))
               (list_or (Parse.parsed_patterns st) patterns))
      (Parse.statement_lines st) (Parse.in_statement st)
  else if starts_with "Problem:" stripped then
    Parse.mk (Parse.title st) (Parse.parsed_difficulty st)
      (Parse.parsed_patterns st) (Parse.statement_lines st) true
  else if Parse.in_statement st then
    Parse.mk (Parse.title st) (Parse.parsed_difficulty st)
      (Parse.parsed_patterns st) (Parse.statement_lines st ++ [line]) true
  else st.

Definition parse_lines (difficulty : string) (patterns : list string)
    (text : string) : Parse.state :=
  fold_left (parse_line difficulty patterns) (splitlines text)
    (Parse.mk "Practice Problem" difficulty patterns [] false).

Definition parse_problem (text difficulty : string) (patterns : list string)
  : ProblemMetadata.t :=
  let st := parse_lines difficulty patterns text in
  ProblemMetadata.mk (Parse.title st) (Parse.parsed_difficulty st)
    (Parse.parsed_patterns st)
    (str_or (strip (join (String "010" EmptyString) (Parse.statement_lines st)))
            text).

End ProblemTemplate.

(** [str.strip] and [str.splitlines] on ASCII text: the white space
    and the line boundaries below 128. *)
Definition ascii_space (c : ascii) : bool :=
  let n := nat_of_ascii c in
  (((9 <=? n) && (n <=? 13)) || ((28 <=? n) && (n <=? 32)))%nat.

Fixpoint ascii_lstrip (s : string) : string :=
  match s with
  | EmptyString => EmptyString
  | String c s' => if ascii_space c then ascii_lstrip s' else s
  end.

Fixpoint ascii_rstrip (s : string) : string :=
  match s with
  | EmptyString => EmptyString
  | String c s' =>
      match ascii_rstrip s' with
      | EmptyString => if ascii_space c then EmptyString else String c EmptyString
      | String c' r => String c (String c' r)
      end
  end.

Definition ascii_strip (s : string) : string := ascii_rstrip (ascii_lstrip s).

Definition ascii_line_break (c : ascii) : bool :=
  let n := nat_of_ascii c in
  (((10 <=? n) && (n <=? 13)) || ((28 <=? n) && (n <=? 30)))%nat.

(** The lines of [s]; [after_cr] says that a carriage return came just
    before, so that a line feed now belongs to the same boundary. *)
Fixpoint ascii_lines (after_cr : bool) (s : string) : list string :=
  match s with
  | EmptyString => []
  | String c s' =>
      if after_cr && Ascii.eqb c "010" then ascii_lines false s'
      else if ascii_line_break c
      then EmptyString :: ascii_lines (Ascii.eqb c "013") s'
      else match ascii_lines false s' with
           | [] => [String c EmptyString]
           | first :: others => String c first :: others
           end
  end.

Definition ascii_splitlines (s : string) : list string := ascii_lines false s.

(** ** Vocabulary of the further properties *)

(** [a] is scheduled no later than [b]; both are scheduled. *)
Definition review_before (a b : ProblemAttempt.t) : Prop :=
  match ProblemAttempt.next_review_at a, ProblemAttempt.next_review_at b with
  | Some x, Some y => x <= y
  | _, _ => False
  end.

(** [a] is an attempt of [user_id] whose review is due at [now]. *)
Definition due_at (user_id : string) (now : datetime) (a : ProblemAttempt.t) : Prop :=
  ProblemAttempt.user_id a = user_id /\
  exists t, ProblemAttempt.next_review_at a = Some t /\ t <= now.

(** An attempt of user ["ada"] with a review scheduled at [next]. *)
Definition scheduled_attempt (key : Z) (next : datetime) : ProblemAttempt.t :=
  ProblemAttempt.set_next_review_at (Some next)
    (sample_attempt key tuesday (Some "correct"%string) 1 f2_5).

(** Two reviews that are due on 2024-01-03 and one that is not. *)
Definition review_db : Db :=
  {| problem_attempts :=
       [scheduled_attempt 1 tuesday;
        scheduled_attempt 2 (make 2024 1 1 9 0 0);
        scheduled_attempt 3 (make 2024 2 1 9 0 0)];
     bookmarks := [];
     mock_interview_sessions := [] |}.

(** How often the attempts of [l] that [sel] selects list [pattern]. *)
Fixpoint pattern_uses (pattern : string) (sel : ProblemAttempt.t -> bool)
    (l : list ProblemAttempt.t) : Z :=
  match l with
  | [] => 0
  | a :: l' =>
      (if sel a
       then Z.of_nat (count_occ string_dec (ProblemAttempt.patterns a) pattern)
       else 0)
      + pattern_uses pattern sel l'
  end.

Definition is_correct (a : ProblemAttempt.t) : bool :=
  opt_str_eq (ProblemAttempt.verdict a) "correct".

Definition is_incorrect (a : ProblemAttempt.t) : bool :=
  opt_str_eq (ProblemAttempt.verdict a) "incorrect".

(** The counters of a pattern that [n] more uses by an attempt with
    verdict [v] lead to. *)
Definition add_uses (n : Z) (v : option string) (o : option PatternStat.t)
  : option PatternStat.t :=
  if n =? 0 then o
  else
    let s := default (PatternStat.mk 0 0 0 0) o in
    Some (PatternStat.mk
            (PatternStat.total s + n)
            (PatternStat.correct s + if opt_str_eq v "correct" then n else 0)
            (PatternStat.incorrect s
             + if negb (opt_str_eq v "correct") && opt_str_eq v "incorrect"
               then n else 0)
            (PatternStat.partial s
             + if negb (opt_str_eq v "correct") && negb (opt_str_eq v "incorrect")
               then n else 0)).

(** The entry of a pattern agrees with the attempts [l]. *)
Definition pattern_stat_of (pattern : string) (l : list ProblemAttempt.t)
    (o : option PatternStat.t) : Prop :=
  match o with
  | None => pattern_uses pattern (fun _ => true) l = 0
  | Some s =>
      0 < PatternStat.total s /\
      PatternStat.total s = pattern_uses pattern (fun _ => true) l /\
      PatternStat.correct s = pattern_uses pattern is_correct l /\
      PatternStat.incorrect s = pattern_uses pattern is_incorrect l /\
      PatternStat.partial s
      = pattern_uses pattern
          (fun a => negb (is_correct a) && negb (is_incorrect a)) l
  end.

(** The number of attempts of [l] with difficulty label [label] that
    [sel] selects. *)
Definition difficulty_uses (label : string) (sel : ProblemAttempt.t -> bool)
    (l : list ProblemAttempt.t) : Z :=
  Z.of_nat (List.length
              (filter (fun a => str_eq (ProblemAttempt.difficulty a) label && sel a) l)).

(** What makes two bookmarks the same bookmark for [add_bookmark]. *)
Definition bookmark_key (b : Bookmark.t) : string * Z * string :=
  (Bookmark.user_id b, Bookmark.attempt_id b, Bookmark.collection_name b).

(** The bookmark table has no key twice and no attempt twice in one
    collection of one user. *)
Definition bookmarks_ok (d : Db) : Prop :=
  NoDup (map Bookmark.id (bookmarks d)) /\
  NoDup (map bookmark_key (bookmarks d)).

(** The request [req] with other notes. *)
Definition with_notes (notes : option string) (req : BookmarkRequest.t)
  : BookmarkRequest.t :=
  BookmarkRequest.mk (BookmarkRequest.userId req) (BookmarkRequest.attemptId req)
    (BookmarkRequest.collectionName req) notes.

(** The collection filter of [get_bookmarks] is on: the parameter is
    given and not empty. *)
Definition in_collection (collection : option string) (b : Bookmark.t) : Prop :=
  match collection with
  | Some (String c cs) => Bookmark.collection_name b = String c cs
  | Some EmptyString | None => True
  end.

(** A second bookmark request of ["ada"], for attempt 2. *)
Definition sample_bookmark_request : BookmarkRequest.t :=
  BookmarkRequest.mk "ada" 2 "Saved" (Some "again"%string).

(** A session score: the integer 0 or a double between 0 and 100. *)
Definition score_in_range (n : number) : Prop :=
  match n with
  | Int k => k = 0
  | Float x =>
      Float64.valid x = true /\ Float64.is_finite x = true /\
      Float64.leb (S754_zero false) x = true /\ Float64.leb x f100 = true
  end.

(** The request leaves the difficulties to [numProblems]: it names
    none and is no phone screen and no onsite. *)
Definition custom_session (req : MockSessionRequest.t) : bool :=
  match MockSessionRequest.difficulties req with
  | [] => negb (str_eq (MockSessionRequest.sessionType req) "phone_screen")
          && negb (str_eq (MockSessionRequest.sessionType req) "onsite")
  | _ :: _ => false
  end.

(** The integers of the request that are used are signed 64-bit
    integers: [timeLimitMinutes], and [numProblems] when the
    difficulties are left to it. *)
Definition session_request_fits (req : MockSessionRequest.t) : bool :=
  sqlite_integer (MockSessionRequest.timeLimitMinutes req)
  && (negb (custom_session req)
      || index_sized (MockSessionRequest.numProblems req)).


(** A line that [generate_personalized_problem] reads as a header. *)
Definition is_header (stripped : string) : bool :=
  starts_with "Title:" stripped || starts_with "Difficulty:" stripped
  || starts_with "Patterns:" stripped || starts_with "Problem:" stripped.

(** An answer that follows the template, and one that ignores it. *)
Definition template_answer : string :=
  ("Title: Two Sum" ++ String "010" "Difficulty: Easy" ++ String "010"
   "Patterns: arrays, hashing ,," ++ String "013" (String "010"
   "Problem: given" ++ String "010" "  Find two numbers." ++ String "010"
   "Title: Again" ++ String "010" "They add up." ++ String "010" ""))%string.

Definition plain_answer : string := "  Reverse a linked list.  ".

(** The lines after the first [Problem:] header, and those of them
    that are no headers. *)
Fixpoint after_problem_header (strip : string -> string) (lines : list string)
  : list string :=
  match lines with
  | [] => []
  | line :: rest =>
      if starts_with "Problem:" (strip line) then rest
      else after_problem_header strip rest
  end.

Definition statement_body (strip : string -> string) (lines : list string)
  : list string :=
  filter (fun line => negb (is_header (strip line)))
         (after_problem_header strip lines).

(** ** The handlers as a service *)

(** A call of one of the handlers that work on the tables. *)
Inductive request : Type :=
| SaveAttempt (req : SaveAttemptRequest.t)
| CompleteReview (attempt_id : Z) (was_correct : bool)
| GetDueForReview (user_id : string) (limit : Z)
| AddBookmark (req : BookmarkRequest.t)
| DeleteBookmark (bookmark_id : Z)
| StartMockSession (session_id : string) (req : MockSessionRequest.t)
| CompleteMockSession (session_id : string)
| GetAnalytics (user_id : string).

(** The world after the call, whatever the answer. *)
Definition handle (r : request) (w : World) : World :=
  match r with
  | SaveAttempt req => fst (save_attempt req w)
  | CompleteReview attempt_id was_correct =>
      fst (complete_review attempt_id was_correct w)
  | GetDueForReview user_id limit => fst (get_due_for_review user_id limit w)
  | AddBookmark req => fst (add_bookmark req w)
  | DeleteBookmark bookmark_id => commit (fst (delete_bookmark bookmark_id (db w))) w
  | StartMockSession session_id req => fst (start_mock_session session_id req w)
  | CompleteMockSession session_id => fst (complete_mock_session session_id w)
  | GetAnalytics user_id => fst (get_analytics user_id w)
  end.

Definition serve (requests : list request) (w : World) : World :=
  fold_left (fun w r => handle r w) requests w.

(** A session is scored exactly when it is completed, and has as many
    problems as difficulties. *)
Definition session_ok (s : MockInterviewSession.t) : Prop :=
  MockInterviewSession.num_problems s
  = Z.of_nat (List.length (MockInterviewSession.difficulties s))
  /\ (MockInterviewSession.completed_at s = None
      <-> MockInterviewSession.total_score s = None).

(** What the handlers keep true of the tables. *)
Definition tables_ok (d : Db) : Prop :=
  NoDup (map ProblemAttempt.id (problem_attempts d))
  /\ stored_review_state_ok d
  /\ Forall (fun a => ProblemAttempt.next_review_at a <> None) (problem_attempts d)
  /\ bookmarks_ok d
  /\ NoDup (map MockInterviewSession.id (mock_interview_sessions d))
  /\ Forall session_ok (mock_interview_sessions d).

(** ** The calendar *)

(** The month and the day of [_ord2ymd] for day [n] of a year,
    counting from 0. *)
Definition month_day (leapyear : bool) (n : Z) : Z * Z :=
  let month := Z.shiftr (n + 50) 5 in
  let preceding :=
    nth (Z.to_nat month) DAYS_BEFORE_MONTH 0
    + b2z ((month >? 2) && leapyear) in
  if preceding >? n then
    let month := month - 1 in
    let preceding :=
      preceding
      - (nth (Z.to_nat month) DAYS_IN_MONTH 0
         + b2z ((month =? 2) && leapyear)) in
    (month, n - preceding + 1)
  else (month, n - preceding + 1).

(** [month_day] gives a date of the year, the one [_ymd2ord] counts
    back to [n]. *)
Definition month_day_ok (leapyear : bool) (n : Z) : bool :=
  let '(month, day) := month_day leapyear n in
  (1 <=? month) && (month <=? 12) && (1 <=? day) && (day <=? 31)
  && (nth (Z.to_nat month) DAYS_BEFORE_MONTH 0
      + b2z ((month >? 2) && leapyear) + day =? n + 1).

(** The same calendar day. *)
Definition same_day (t1 t2 : datetime) : bool := toordinal t1 =? toordinal t2.

(** The day the week of [t] starts, as [get_weekly_activity] has it. *)
Definition week_start (t : datetime) : datetime := t - weekday t * us_per_day.

(** ** Streaks of answers *)

(** The ease [calculate_next_review] assigns after a wrong and after
    a correct answer. *)
Definition ease_after_wrong (x : float) : float :=
  Float64.py_max f1_3 (Float64.sub x f0_2).

Definition ease_after_correct (x : float) : float :=
  Float64.py_min f2_5 (Float64.add x f0_1).

(** * Rounding in binary64

    What the rounding step of [SpecFloat] does to a non negative value:
    the result lies between the two neighbouring doubles of the exact
    value, so it never crosses a value that is itself representable. *)

Lemma digits2_pos_size (p : positive) : digits2_pos p = Pos.size p.
Proof. induction p; simpl; congruence. Qed.

Lemma digits2_bounds (p : positive) :
  2 ^ (Zpos (digits2_pos p) - 1) <= Zpos p < 2 ^ Zpos (digits2_pos p).
Proof.
  rewrite digits2_pos_size. split.
  - pose proof (Pos.size_le p) as H.
    assert (Hz : Zpos (2 ^ Pos.size p) <= Zpos p~0) by exact H.
    rewrite Pos2Z.inj_pow in Hz.
    replace (Zpos (Pos.size p)) with ((Zpos (Pos.size p) - 1) + 1) in Hz by lia.
    rewrite Z.pow_add_r in Hz by lia. change (2 ^ 1) with 2 in Hz.
    change (Zpos p~0) with (2 * Zpos p) in Hz. lia.
  - pose proof (Pos.size_gt p) as H.
    assert (Hz : Zpos p < Zpos (2 ^ Pos.size p)) by exact H.
    now rewrite Pos2Z.inj_pow in Hz.
Qed.

Lemma digits2_unique (p : positive) (d : Z) :
  2 ^ (d - 1) <= Zpos p < 2 ^ d -> Zpos (digits2_pos p) = d.
Proof.
  intros [Hl Hu]. pose proof (digits2_bounds p) as [Hl' Hu'].
  assert (0 < d).
  { destruct (Z.ltb_spec 0 d); auto.
    assert (2 ^ d <= 2 ^ 0) by (apply Z.pow_le_mono_r; lia).
    change (2 ^ 0) with 1 in *. lia. }
  destruct (Z.lt_trichotomy (Zpos (digits2_pos p)) d) as [Hlt | [Heq | Hgt]]; auto.
  - assert (2 ^ Zpos (digits2_pos p) <= 2 ^ (d - 1)) by (apply Z.pow_le_mono_r; lia). lia.
  - assert (2 ^ d <= 2 ^ (Zpos (digits2_pos p) - 1)) by (apply Z.pow_le_mono_r; lia). lia.
Qed.

Lemma iter_pos_nat {A : Type} (f : A -> A) (p : positive) (x : A) :
  iter_pos f p x = Nat.iter (Pos.to_nat p) f x.
Proof.
  revert x. induction p as [p IH | p IH |]; intros x; cbn [iter_pos].
  - rewrite !IH. rewrite Pos2Nat.inj_xI.
    replace (S (2 * Pos.to_nat p)) with (Pos.to_nat p + (Pos.to_nat p + 1))%nat by lia.
    rewrite !Nat.iter_add. reflexivity.
  - rewrite !IH. rewrite Pos2Nat.inj_xO.
    replace (2 * Pos.to_nat p)%nat with (Pos.to_nat p + Pos.to_nat p)%nat by lia.
    rewrite Nat.iter_add. reflexivity.
  - reflexivity.
Qed.

Lemma shr_1_spec (mrs : shr_record) :
  0 <= shr_m mrs ->
  shr_m (shr_1 mrs) = shr_m mrs / 2 /\
  inexact (shr_1 mrs) = negb (shr_m mrs mod 2 =? 0) || inexact mrs.
Proof.
  destruct mrs as [m r s]. unfold inexact. simpl. intros Hm.
  destruct m as [| [p | p |] | p]; simpl; try lia.
  - split; [reflexivity | now destruct r, s].
  - split.
    + change (Zpos p~1) with (2 * Zpos p + 1). apply Z.div_unique with (r := 1); lia.
    + change (Zpos p~1) with (2 * Zpos p + 1).
      replace ((2 * Zpos p + 1) mod 2) with 1; [reflexivity |].
      apply Z.mod_unique with (q := Zpos p); lia.
  - split.
    + change (Zpos p~0) with (2 * Zpos p). apply Z.div_unique with (r := 0); lia.
    + change (Zpos p~0) with (2 * Zpos p).
      replace ((2 * Zpos p) mod 2) with 0; [now destruct r, s |].
      apply Z.mod_unique with (q := Zpos p); lia.
  - split; reflexivity.
Qed.

Lemma shr_iter_spec (k : nat) (mrs : shr_record) :
  0 <= shr_m mrs ->
  let r := Nat.iter k shr_1 mrs in
  shr_m r = shr_m mrs / 2 ^ Z.of_nat k /\
  inexact r = negb (shr_m mrs mod 2 ^ Z.of_nat k =? 0) || inexact mrs.
Proof.
  intros Hm. induction k as [| k [IHm IHi]].
  - simpl. rewrite Z.div_1_r, Z.mod_1_r. split; reflexivity.
  - cbn zeta in *. rewrite Nat.iter_succ.
    assert (Hq : 0 <= shr_m (Nat.iter k shr_1 mrs)).
    { rewrite IHm. apply Z.div_pos; lia. }
    destruct (shr_1_spec _ Hq) as [H1 H2].
    rewrite H1, H2, IHm, IHi.
    rewrite Nat2Z.inj_succ, Z.pow_succ_r by lia.
    assert (Hp : 0 < 2 ^ Z.of_nat k) by (apply Z.pow_pos_nonneg; lia).
    split.
    + rewrite Z.div_div by lia. f_equal. lia.
    + rewrite (Z.mul_comm 2), Z.rem_mul_r by lia.
      set (a := shr_m mrs mod 2 ^ Z.of_nat k).
      set (b := (shr_m mrs / 2 ^ Z.of_nat k) mod 2).
      assert (0 <= a < 2 ^ Z.of_nat k) by (apply Z.mod_pos_bound; lia).
      assert (0 <= b < 2) by (apply Z.mod_pos_bound; lia).
      destruct (Z.eqb_spec b 0), (Z.eqb_spec a 0),
        (Z.eqb_spec (a + 2 ^ Z.of_nat k * b) 0); simpl; try reflexivity; try nia;
        destruct (inexact mrs); reflexivity.
Qed.

Lemma rne_spec (mrs : shr_record) :
  let m1 := round_nearest_even (shr_m mrs) (loc_of_shr_record mrs) in
  m1 = shr_m mrs \/ (m1 = shr_m mrs + 1 /\ inexact mrs = true).
Proof.
  destruct mrs as [m r s]. unfold inexact. simpl.
  destruct r, s; simpl; auto. destruct (Z.even m); auto.
Qed.

Lemma fexp64_eq e : fexp 53 1024 e = fexp64 e.
Proof. reflexivity. Qed.

Lemma shr_nonpos mrs e n : n <= 0 -> shr mrs e n = (mrs, e).
Proof. destruct n; simpl; auto; lia. Qed.

Lemma shr_spec mrs e n :
  0 <= n -> 0 <= shr_m mrs ->
  exists r, shr mrs e n = (r, e + n) /\
    shr_m r = shr_m mrs / 2 ^ n /\
    inexact r = negb (shr_m mrs mod 2 ^ n =? 0) || inexact mrs.
Proof.
  intros Hn Hm. destruct n as [| p | p]; try lia.
  - exists mrs. simpl. rewrite Z.add_0_r, Z.div_1_r, Z.mod_1_r. auto.
  - exists (iter_pos shr_1 p mrs). split; [reflexivity |].
    rewrite iter_pos_nat. 
    pose proof (shr_iter_spec (Pos.to_nat p) mrs Hm) as H. cbn zeta in H.
    rewrite positive_nat_Z in H. exact H.
Qed.

Lemma inexact_of_loc m l :
  shr_m (shr_record_of_loc m l) = m /\
  (inexact (shr_record_of_loc m l) = true -> l <> loc_Exact).
Proof.
  destruct l as [| []]; simpl; split; auto; unfold inexact; simpl; congruence.
Qed.

Lemma Zdigits2_pos_bounds m :
  0 < m -> 2 ^ (Zdigits2 m - 1) <= m < 2 ^ Zdigits2 m.
Proof. destruct m; try lia. intros _. apply digits2_bounds. Qed.

Lemma Zdigits2_unique m d :
  0 < m -> 2 ^ (d - 1) <= m < 2 ^ d -> Zdigits2 m = d.
Proof. destruct m; try lia. intros _. apply digits2_unique. Qed.

Lemma Zdigits2_nonneg_bound m : 0 <= m -> m < 2 ^ Zdigits2 m.
Proof.
  intros Hm. destruct (Z.eq_dec m 0) as [-> | Hn]; [reflexivity |].
  apply Zdigits2_pos_bounds. lia.
Qed.

Lemma binary_round_aux_spec s m e l :
  0 <= m ->
  let E := fexp64 (Zdigits2 m + e) in
  e <= E ->
  exists m1,
    (m1 = m / 2 ^ (E - e) \/
     (m1 = m / 2 ^ (E - e) + 1 /\ (m mod 2 ^ (E - e) <> 0 \/ l <> loc_Exact))) /\
    m / 2 ^ (E - e) < 2 ^ 53 /\
    (E = -1074 \/ 2 ^ 52 <= m / 2 ^ (E - e)) /\
    binary_round_aux 53 1024 s m e l = rounded s m1 E.
Proof.
  intros Hm E HE.
  assert (HEmin : -1074 <= E) by (unfold E, fexp64; lia).
  unfold binary_round_aux, shr_fexp. rewrite !fexp64_eq. fold E.
  destruct (inexact_of_loc m l) as [Hm0 Hl0].
  destruct (shr_spec (shr_record_of_loc m l) e (E - e)) as (r & -> & Hrm & Hri);
    [lia | rewrite Hm0; lia |].
  rewrite Hm0 in Hrm, Hri.
  replace (e + (E - e)) with E by lia.
  set (q := m / 2 ^ (E - e)) in *.
  set (m1 := round_nearest_even (shr_m r) (loc_of_shr_record r)).
  assert (Hp : 0 < 2 ^ (E - e)) by (apply Z.pow_pos_nonneg; lia).
  assert (Hq0 : 0 <= q) by (apply Z.div_pos; lia).
  assert (Hq : q < 2 ^ 53).
  { apply Z.div_lt_upper_bound; [lia |].
    pose proof (Zdigits2_nonneg_bound m Hm) as Hu.
    eapply Z.lt_le_trans; [exact Hu |].
    rewrite <- Z.pow_add_r by lia. apply Z.pow_le_mono_r; [lia |].
    unfold E, fexp64. lia. }
  assert (Hm1 : m1 = q \/ (m1 = q + 1 /\ (m mod 2 ^ (E - e) <> 0 \/ l <> loc_Exact))).
  { pose proof (rne_spec r) as H. cbn zeta in H. fold m1 in H. rewrite Hrm in H.
    destruct H as [H | [H Hi]]; [left; exact H | right; split; [exact H |]].
    rewrite Hri in Hi. apply orb_true_iff in Hi. destruct Hi as [Hi | Hi].
    - left. apply negb_true_iff in Hi. now apply Z.eqb_neq in Hi.
    - right. auto. }
  assert (Hn : E = -1074 \/ 2 ^ 52 <= q).
  { destruct (Z.eq_dec E (-1074)) as [HEq | HEq]; [left; exact HEq | right].
    assert (Hdm : 0 < m).
    { destruct (Z.eq_dec m 0) as [-> | Hn0]; [| lia].
      exfalso. unfold E, fexp64 in HEq, HE. simpl Zdigits2 in *. lia. }
    apply Z.div_le_lower_bound; [lia |].
    pose proof (Zdigits2_pos_bounds m Hdm) as [Hl _].
    eapply Z.le_trans; [| exact Hl].
    rewrite <- Z.pow_add_r by (unfold E, fexp64 in *; lia).
    apply Z.pow_le_mono_r; [lia |]. unfold E, fexp64 in *. lia. }
  exists m1. split; [exact Hm1 |]. split; [exact Hq |]. split; [exact Hn |].
  assert (Hb : 0 <= m1 <= 2 ^ 53) by lia.
  unfold rounded. rewrite fexp64_eq.
  destruct (Z.eqb_spec m1 0) as [H0 | H0].
  - rewrite H0. rewrite shr_nonpos; [reflexivity |]. simpl Zdigits2. unfold fexp64. lia.
  - destruct (Z.eqb_spec m1 (2 ^ 53)) as [H53 | H53].
    + rewrite H53.
      replace (Zdigits2 (2 ^ 53)) with 54 by reflexivity.
      replace (fexp64 (54 + E) - E) with 1 by (unfold fexp64; lia).
      reflexivity.
    + assert (Hd : Zdigits2 m1 <= 53).
      { pose proof (Zdigits2_pos_bounds m1 ltac:(lia)) as [Hl _].
        destruct (Z.leb_spec (Zdigits2 m1) 53); auto.
        assert (2 ^ 53 <= 2 ^ (Zdigits2 m1 - 1)) by (apply Z.pow_le_mono_r; lia). lia. }
      rewrite shr_nonpos by (unfold fexp64; lia).
      simpl shr_m. destruct m1 as [| p | p]; try lia. reflexivity.
Qed.

Lemma pow2_pos k : 0 <= k -> 0 < 2 ^ k.
Proof. intros. apply Z.pow_pos_nonneg; lia. Qed.

Lemma pow2_split a b : 0 <= a <= b -> 2 ^ b = 2 ^ (b - a) * 2 ^ a.
Proof. intros. rewrite <- Z.pow_add_r by lia. f_equal. lia. Qed.

Lemma sc_shift m e n : 0 <= n -> -2148 <= e -> sc (m * 2 ^ n) e = sc m (e + n).
Proof.
  intros Hn He. unfold sc.
  rewrite (pow2_split (e + 2148) (e + n + 2148)) by lia.
  replace (e + n + 2148 - (e + 2148)) with n by lia. ring.
Qed.

Lemma sc_le_mono_m m1 m2 e : -2148 <= e -> m1 <= m2 -> sc m1 e <= sc m2 e.
Proof. intros He H. unfold sc. pose proof (pow2_pos (e + 2148)). nia. Qed.

Lemma sc_le_inv m1 m2 e : -2148 <= e -> sc m1 e <= sc m2 e -> m1 <= m2.
Proof. intros He H. unfold sc in H. pose proof (pow2_pos (e + 2148)). nia. Qed.

Lemma sc_lt_inv m1 m2 e : -2148 <= e -> sc m1 e < sc m2 e -> m1 < m2.
Proof. intros He H. unfold sc in H. pose proof (pow2_pos (e + 2148)). nia. Qed.

Lemma sc_le_mono_e m e1 e2 : 0 <= m -> -2148 <= e1 <= e2 -> sc m e1 <= sc m e2.
Proof.
  intros Hm He. unfold sc.
  assert (2 ^ (e1 + 2148) <= 2 ^ (e2 + 2148)) by (apply Z.pow_le_mono_r; lia).
  nia.
Qed.

Lemma sc_succ_e m e : -2148 <= e -> sc m (e + 1) = sc (2 * m) e.
Proof.
  intros He. unfold sc. replace (e + 1 + 2148) with (Z.succ (e + 2148)) by lia.
  rewrite Z.pow_succ_r by lia. ring.
Qed.

(** canonical floats *)
Lemma bounded_inv m e :
  bounded 53 1024 m e = true ->
  -1074 <= e <= 971 /\ Zpos m < 2 ^ 53 /\ (e = -1074 \/ 2 ^ 52 <= Zpos m).
Proof.
  unfold bounded, canonical_mantissa. rewrite fexp64_eq.
  intros H. apply andb_true_iff in H. destruct H as [Hc He].
  apply Z.eqb_eq in Hc. apply Z.leb_le in He. change (1024 - 53) with 971 in He.
  pose proof (digits2_bounds m) as [Hl Hu]. unfold fexp64 in Hc.
  split; [lia |]. split.
  - eapply Z.lt_le_trans; [exact Hu |]. apply Z.pow_le_mono_r; lia.
  - destruct (Z.eq_dec e (-1074)); [left; assumption | right].
    eapply Z.le_trans; [| exact Hl]. apply Z.pow_le_mono_r; lia.
Qed.

Lemma bounded_intro m e :
  -1074 <= e <= 971 -> 0 < m < 2 ^ 53 -> (e = -1074 \/ 2 ^ 52 <= m) ->
  bounded 53 1024 (Z.to_pos m) e = true.
Proof.
  intros He Hm Hn. unfold bounded, canonical_mantissa. rewrite fexp64_eq.
  apply andb_true_iff. split; [| apply Z.leb_le; change (1024 - 53) with 971; lia].
  apply Z.eqb_eq. unfold fexp64.
  pose proof (digits2_bounds (Z.to_pos m)) as [Hl Hu].
  rewrite Z2Pos.id in Hl, Hu by lia.
  set (d := Zpos (digits2_pos (Z.to_pos m))) in *.
  assert (Hd53 : d <= 53).
  { destruct (Z.leb_spec d 53); auto.
    assert (2 ^ 53 <= 2 ^ (d - 1)) by (apply Z.pow_le_mono_r; lia). lia. }
  destruct Hn as [Hn | Hn]; [lia |].
  assert (53 <= d).
  { destruct (Z.leb_spec 53 d); auto.
    assert (2 ^ d <= 2 ^ 52) by (apply Z.pow_le_mono_r; lia). lia. }
  lia.
Qed.

Lemma rounded_valid s m1 E :
  0 <= m1 <= 2 ^ 53 -> -1074 <= E -> (E = -1074 \/ 2 ^ 52 <= m1) ->
  valid_binary 53 1024 (rounded s m1 E) = true.
Proof.
  intros Hm HE Hn. unfold rounded.
  destruct (Z.eqb_spec m1 0); [reflexivity |].
  destruct (Z.eqb_spec m1 (2 ^ 53)).
  - destruct (Z.leb_spec (E + 1) 971); [| reflexivity].
    cbn [valid_binary]. apply bounded_intro; lia.
  - destruct (Z.leb_spec E 971); [| reflexivity].
    cbn [valid_binary]. apply bounded_intro; lia.
Qed.

Lemma rounded_scaled m1 E :
  0 <= m1 <= 2 ^ 53 -> -1074 <= E ->
  is_finite (rounded false m1 E) = true -> scaled (rounded false m1 E) = sc m1 E.
Proof.
  intros Hm HE. unfold rounded.
  destruct (Z.eqb_spec m1 0) as [-> | H0]; [reflexivity |].
  destruct (Z.eqb_spec m1 (2 ^ 53)) as [-> | H53].
  - destruct (Z.leb_spec (E + 1) 971); [| discriminate]. intros _.
    cbn [scaled]. rewrite Z2Pos.id by lia. rewrite sc_succ_e by lia. reflexivity.
  - destruct (Z.leb_spec E 971); [| discriminate]. intros _.
    cbn [scaled]. rewrite Z2Pos.id by lia. reflexivity.
Qed.

Lemma rounded_finite_iff m1 E s :
  0 <= m1 <= 2 ^ 53 -> -1074 <= E -> (E = -1074 \/ 2 ^ 52 <= m1) ->
  (is_finite (rounded s m1 E) = true <-> sc m1 E < sc (2 ^ 53) 971).
Proof.
  intros Hm HE Hn. unfold rounded.
  destruct (Z.eqb_spec m1 0) as [-> | H0].
  { split; [intros _ | reflexivity]. unfold sc. pose proof (pow2_pos (971 + 2148)). 
    assert (0 < 2 ^ 53) by (apply pow2_pos; lia). nia. }
  destruct (Z.eqb_spec m1 (2 ^ 53)) as [-> | H53].
  - destruct (Z.leb_spec (E + 1) 971); split; try reflexivity; try discriminate.
    + intros _.
      assert (Hs : sc (2 ^ 53) 971 = sc (2 ^ 53 * 2 ^ (971 - E)) E).
      { rewrite sc_shift by lia. f_equal. lia. }
      rewrite Hs.
      assert (2 <= 2 ^ (971 - E)).
      { change 2 with (2 ^ 1) at 1. apply Z.pow_le_mono_r; lia. }
      unfold sc. pose proof (pow2_pos (E + 2148)). nia.
    + intros Hlt. exfalso.
      assert (sc (2 ^ 53) 971 <= sc (2 ^ 53) E) by (apply sc_le_mono_e; lia). lia.
  - destruct (Z.leb_spec E 971); split; try reflexivity; try discriminate.
    + intros _.
      assert (sc m1 E < sc (2 ^ 53) E).
      { unfold sc. pose proof (pow2_pos (E + 2148)). nia. }
      assert (sc (2 ^ 53) E <= sc (2 ^ 53) 971) by (apply sc_le_mono_e; lia). lia.
    + intros Hlt. exfalso.
      destruct Hn as [Hn | Hn]; [lia |].
      assert (sc (2 ^ 53) 971 = sc (2 ^ 52) 972).
      { rewrite sc_succ_e with (e := 971) by lia. reflexivity. }
      assert (sc (2 ^ 52) 972 <= sc (2 ^ 52) E) by (apply sc_le_mono_e; lia).
      assert (sc (2 ^ 52) E <= sc m1 E) by (apply sc_le_mono_m; lia). lia.
Qed.

Lemma rounded_pos_result m1 E :
  0 <= m1 <= 2 ^ 53 -> -1074 <= E -> (E = -1074 \/ 2 ^ 52 <= m1) ->
  pos_result (sc m1 E) (rounded false m1 E).
Proof.
  intros Hm HE Hn.
  pose proof (rounded_valid false m1 E Hm HE Hn) as Hv.
  pose proof (rounded_scaled m1 E Hm HE) as Hs.
  pose proof (rounded_finite_iff m1 E false Hm HE Hn) as Hf.
  unfold rounded in *.
  destruct (Z.eqb_spec m1 0) as [-> | H0]; [apply pr_zero; reflexivity |].
  destruct (m1 =? 2 ^ 53).
  - destruct (E + 1 <=? 971).
    + apply pr_finite; [exact Hv | apply Hs; reflexivity].
    + apply pr_infinity. destruct (Z.leb_spec (sc (2 ^ 53) 971) (sc m1 E)); auto.
      apply Hf in H. discriminate.
  - destruct (E <=? 971).
    + apply pr_finite; [exact Hv | apply Hs; reflexivity].
    + apply pr_infinity. destruct (Z.leb_spec (sc (2 ^ 53) 971) (sc m1 E)); auto.
      apply Hf in H. discriminate.
Qed.

Lemma floor_grid_ge m e n my ey :
  0 <= m -> -2148 <= e -> 0 <= n ->
  (e + n = -1074 \/ 2 ^ 52 <= m / 2 ^ n) ->
  repr my ey -> sc my ey <= sc m e ->
  sc my ey <= sc (m / 2 ^ n) (e + n).
Proof.
  intros Hm He Hn Hnorm [Hmy Hey] Hle.
  assert (Hp : 0 < 2 ^ n) by (apply pow2_pos; lia).
  destruct (Z.le_gt_cases (e + n) ey) as [Hc | Hc].
  - (* y lies on the grid of the result *)
    rewrite <- (sc_shift (m / 2 ^ n) e n) by lia.
    replace ey with (e + (ey - e)) in * by lia.
    rewrite <- (sc_shift my e (ey - e)) in * by lia.
    apply sc_le_inv in Hle; [| lia]. apply sc_le_mono_m; [lia |].
    rewrite (pow2_split n (ey - e)) in * by lia.
    rewrite Z.mul_assoc in *.
    assert (my * 2 ^ (ey - e - n) <= m / 2 ^ n).
    { apply Z.div_le_lower_bound; [lia |]. lia. }
    nia.
  - destruct Hnorm as [Hnorm | Hnorm]; [lia |].
    apply Z.le_trans with (sc (2 ^ 53) ey).
    { apply sc_le_mono_m; lia. }
    apply Z.le_trans with (sc (2 ^ 52) (ey + 1)).
    { rewrite sc_succ_e by lia. apply Z.le_refl. }
    apply Z.le_trans with (sc (2 ^ 52) (e + n)).
    { apply sc_le_mono_e; lia. }
    apply sc_le_mono_m; lia.
Qed.

Lemma floor_le m e n :
  0 <= m -> -2148 <= e -> 0 <= n -> sc (m / 2 ^ n) (e + n) <= sc m e.
Proof.
  intros Hm He Hn. rewrite <- sc_shift by lia. apply sc_le_mono_m; [lia |].
  assert (Hp : 0 < 2 ^ n) by (apply pow2_pos; lia).
  pose proof (Z.mul_div_le m (2 ^ n) Hp). lia.
Qed.

Lemma ceil_grid_le m e n m1 my ey :
  0 <= m -> -2148 <= e -> 0 <= n ->
  (e + n = -1074 \/ 2 ^ 52 <= m / 2 ^ n) ->
  (m1 = m / 2 ^ n \/ (m1 = m / 2 ^ n + 1 /\ (m mod 2 ^ n <> 0 \/ sc m e < sc my ey))) ->
  repr my ey -> sc m e <= sc my ey ->
  sc m1 (e + n) <= sc my ey.
Proof.
  intros Hm He Hn Hnorm Hm1 [Hmy Hey] Hle.
  assert (Hp : 0 < 2 ^ n) by (apply pow2_pos; lia).
  pose proof (floor_le m e n Hm He Hn) as Hfl.
  destruct (Z.le_gt_cases (e + n) ey) as [Hc | Hc].
  - rewrite <- (sc_shift m1 e n) by lia.
    replace ey with (e + (ey - e)) in * by lia.
    rewrite <- (sc_shift my e (ey - e)) in * by lia.
    apply sc_le_mono_m; [lia |].
    rewrite (pow2_split n (ey - e)) in * by lia.
    rewrite Z.mul_assoc in *.
    set (k := my * 2 ^ (ey - e - n)) in *.
    pose proof (Z.div_mod m (2 ^ n) ltac:(lia)) as Hdm.
    pose proof (Z.mod_pos_bound m (2 ^ n) Hp) as Hmod.
    assert (Hmk : m <= k * 2 ^ n) by (apply sc_le_inv in Hle; lia).
    destruct Hm1 as [-> | [-> Hin]].
    + assert (m / 2 ^ n <= k) by (apply Z.div_le_upper_bound; lia). nia.
    + assert (Hlt : m < k * 2 ^ n).
      { destruct Hin as [Hin | Hin].
        - destruct (Z.eq_dec m (k * 2 ^ n)) as [Heq | Hne]; [| lia].
          exfalso. apply Hin. rewrite Heq. apply Z.mod_mul. lia.
        - apply sc_lt_inv in Hin; lia. }
      assert (m / 2 ^ n < k) by (apply Z.div_lt_upper_bound; lia). nia.
  - destruct Hnorm as [Hnorm | Hnorm]; [lia |].
    assert (Hch : sc my ey <= sc (m / 2 ^ n) (e + n)).
    { apply Z.le_trans with (sc (2 ^ 53) ey); [apply sc_le_mono_m; lia |].
      apply Z.le_trans with (sc (2 ^ 52) (ey + 1));
        [rewrite sc_succ_e by lia; apply Z.le_refl |].
      apply Z.le_trans with (sc (2 ^ 52) (e + n)); [apply sc_le_mono_e; lia |].
      apply sc_le_mono_m; lia. }
    assert (Heq : sc (m / 2 ^ n) (e + n) = sc m e) by lia.
    destruct Hm1 as [-> | [-> Hin]]; [lia |].
    exfalso. destruct Hin as [Hin | Hin]; [| lia].
    apply Hin. rewrite <- sc_shift in Heq by lia.
    assert (m / 2 ^ n * 2 ^ n = m).
    { apply Z.le_antisymm; [pose proof (Z.mul_div_le m (2 ^ n) Hp); lia |].
      apply sc_le_inv with (e := e); lia. }
    pose proof (Z.div_mod m (2 ^ n) ltac:(lia)). lia.
Qed.

(** The rounding step of every operation, on a non-negative mantissa. *)
Theorem binary_round_aux_interval m e l :
  0 <= m -> -2148 <= e -> e <= fexp64 (Zdigits2 m + e) ->
  exists v,
    pos_result v (binary_round_aux 53 1024 false m e l) /\
    (forall my ey, repr my ey -> sc my ey <= sc m e -> sc my ey <= v) /\
    (forall my ey, repr my ey -> sc m e <= sc my ey ->
       (l <> loc_Exact -> sc m e < sc my ey) -> v <= sc my ey).
Proof.
  intros Hm He HE.
  destruct (binary_round_aux_spec false m e l Hm HE) as (m1 & Hm1 & Hq & Hn & ->).
  set (E := fexp64 (Zdigits2 m + e)) in *.
  assert (HEmin : -1074 <= E) by (unfold E, fexp64; lia).
  set (n := E - e) in *.
  assert (Hn0 : 0 <= n) by (unfold n; lia).
  assert (HEn : E = e + n) by (unfold n; lia).
  assert (Hp : 0 < 2 ^ n) by (apply pow2_pos; lia).
  assert (Hq0 : 0 <= m / 2 ^ n) by (apply Z.div_pos; lia).
  exists (sc m1 E). split; [| split].
  - apply rounded_pos_result; try lia.
  - intros my ey Hr Hle.
    apply Z.le_trans with (sc (m / 2 ^ n) E).
    + rewrite HEn. apply floor_grid_ge; auto. rewrite <- HEn. exact Hn.
    + apply sc_le_mono_m; lia.
  - intros my ey Hr Hle Hl. rewrite HEn.
    apply ceil_grid_le with (m := m); auto.
    + rewrite <- HEn. exact Hn.
    + destruct Hm1 as [H1 | [H1 [H2 | H2]]]; auto.
Qed.

Lemma sc_compare_mono m1 m2 e :
  -2148 <= e -> (sc m1 e ?= sc m2 e) = (m1 ?= m2).
Proof.
  intros He. unfold sc. pose proof (pow2_pos (e + 2148) ltac:(lia)) as Hp.
  symmetry. apply Zmult_compare_compat_r. lia.
Qed.

Lemma sc_lt_exp m1 e1 m2 e2 :
  bounded 53 1024 m1 e1 = true -> bounded 53 1024 m2 e2 = true ->
  e1 < e2 -> sc (Zpos m1) e1 < sc (Zpos m2) e2.
Proof.
  intros H1 H2 Hlt.
  apply bounded_inv in H1. apply bounded_inv in H2.
  destruct H1 as (He1 & Hm1 & _). destruct H2 as (He2 & _ & Hn2).
  destruct Hn2 as [Hn2 | Hn2]; [lia |].
  apply Z.lt_le_trans with (sc (2 ^ 53) e1).
  { unfold sc. pose proof (pow2_pos (e1 + 2148) ltac:(lia)). nia. }
  apply Z.le_trans with (sc (2 ^ 52) (e1 + 1)).
  { rewrite sc_succ_e by lia. apply Z.le_refl. }
  apply Z.le_trans with (sc (2 ^ 52) e2).
  { apply sc_le_mono_e; lia. }
  apply sc_le_mono_m; lia.
Qed.

Theorem SFcompare_pos m1 e1 m2 e2 :
  bounded 53 1024 m1 e1 = true -> bounded 53 1024 m2 e2 = true ->
  SFcompare (S754_finite false m1 e1) (S754_finite false m2 e2)
  = Some (sc (Zpos m1) e1 ?= sc (Zpos m2) e2).
Proof.
  intros H1 H2. cbn [SFcompare]. f_equal.
  destruct (Z.compare_spec e1 e2) as [Heq | Hlt | Hgt].
  - subst e2. apply bounded_inv in H1. rewrite sc_compare_mono by lia.
    rewrite Pos.compare_cont_spec. change (Zpos m1 ?= Zpos m2) with (m1 ?= m2)%positive.
    destruct (m1 ?= m2)%positive; reflexivity.
  - symmetry. apply Z.compare_lt_iff. now apply sc_lt_exp.
  - symmetry. apply Z.compare_gt_iff. now apply sc_lt_exp.
Qed.

(** left shifts *)
Lemma pos_iter_xO (m d : positive) :
  Zpos (Pos.iter xO m d) = Zpos m * 2 ^ Zpos d.
Proof.
  induction d as [| d IH] using Pos.peano_ind.
  - simpl. lia.
  - rewrite Pos.iter_succ. change (Zpos (Pos.iter xO m d)~0) with (2 * Zpos (Pos.iter xO m d)).
    rewrite IH, Pos2Z.inj_succ, Z.pow_succ_r by lia. ring.
Qed.

Lemma shl_align_spec mx ex ex' :
  ex' <= ex ->
  Zpos (fst (shl_align mx ex ex')) = Zpos mx * 2 ^ (ex - ex') /\
  snd (shl_align mx ex ex') = ex'.
Proof.
  intros H. unfold shl_align.
  destruct (ex' - ex) as [| d | d] eqn:Hd; try lia.
  - replace (ex - ex') with 0 by lia. simpl. split; lia.
  - cbn [fst snd]. rewrite pos_iter_xO. replace (ex - ex') with (Zpos d) by lia. auto.
Qed.

Lemma shl_align_id mx ex ex' : ex <= ex' -> shl_align mx ex ex' = (mx, ex).
Proof. intros H. unfold shl_align. destruct (ex' - ex) eqn:Hd; auto; lia. Qed.

Lemma Zdigits2_shift m n :
  0 < m -> 0 <= n -> Zdigits2 (m * 2 ^ n) = Zdigits2 m + n.
Proof.
  intros Hm Hn. pose proof (Zdigits2_pos_bounds m Hm) as [Hl Hu].
  assert (Hp : 0 < 2 ^ n) by (apply pow2_pos; lia).
  assert (Hd : 0 < Zdigits2 m) by (destruct m; simpl; lia).
  apply Zdigits2_unique; [nia |].
  replace (Zdigits2 m + n - 1) with (Zdigits2 m - 1 + n) by lia.
  rewrite !Z.pow_add_r by lia. nia.
Qed.

Theorem binary_round_interval (M : positive) (e : Z) :
  -2148 <= e ->
  exists v,
    pos_result v (binary_round 53 1024 false M e) /\
    (forall my ey, repr my ey -> sc my ey <= sc (Zpos M) e -> sc my ey <= v) /\
    (forall my ey, repr my ey -> sc (Zpos M) e <= sc my ey -> v <= sc my ey).
Proof.
  intros He. unfold binary_round. rewrite fexp64_eq.
  set (E := fexp64 (Zpos (digits2_pos M) + e)).
  assert (HEmin : -1074 <= E) by (unfold E, fexp64; lia).
  destruct (Z.le_gt_cases e E) as [Hc | Hc].
  - rewrite shl_align_id by exact Hc.
    destruct (binary_round_aux_interval (Zpos M) e loc_Exact) as (v & Hv & Hge & Hle);
      [lia | exact He | exact Hc |].
    exists v. split; [exact Hv |]. split; [exact Hge |].
    intros my ey Hr H. apply Hle; auto. congruence.
  - destruct (shl_align_spec M e E ltac:(lia)) as [Hm Hs].
    destruct (shl_align M e E) as [mz ez]. cbn [fst snd] in Hm, Hs. subst ez.
    assert (Hsc : sc (Zpos mz) E = sc (Zpos M) e).
    { rewrite Hm, sc_shift by lia. f_equal. lia. }
    destruct (binary_round_aux_interval (Zpos mz) E loc_Exact) as (v & Hv & Hge & Hle);
      [lia | lia | |].
    { rewrite Hm, Zdigits2_shift by lia. simpl Zdigits2.
      replace (Zpos (digits2_pos M) + (e - E) + E) with (Zpos (digits2_pos M) + e) by lia.
      fold E. lia. }
    rewrite Hsc in Hge, Hle.
    exists v. split; [exact Hv |]. split; [exact Hge |].
    intros my ey Hr H. apply Hle; auto. congruence.
Qed.

(** *** The operations on non negative operands *)

Lemma sc_lt_mono_e m e1 e2 : 0 < m -> -2148 <= e1 < e2 -> sc m e1 < sc m e2.
Proof.
  intros Hm He. unfold sc.
  assert (2 ^ (e1 + 2148) < 2 ^ (e2 + 2148)) by (apply Z.pow_lt_mono_r; lia).
  nia.
Qed.

Lemma sc_add m1 m2 e : sc (m1 + m2) e = sc m1 e + sc m2 e.
Proof. unfold sc. ring. Qed.

Lemma sc_sub m1 m2 e : sc (m1 - m2) e = sc m1 e - sc m2 e.
Proof. unfold sc. ring. Qed.

Lemma sc_pos m e : 0 < m -> -2148 <= e -> 0 < sc m e.
Proof. intros Hm He. unfold sc. pose proof (pow2_pos (e + 2148) ltac:(lia)). nia. Qed.

Lemma sc_max_float m e : repr m e -> e <= 970 -> sc m e < sc (2 ^ 53) 971.
Proof.
  intros [Hm He] Hle.
  apply Z.le_lt_trans with (sc (2 ^ 53) e); [apply sc_le_mono_m; lia |].
  apply sc_lt_mono_e; lia.
Qed.

Lemma pos_result_finite v x my ey :
  pos_result v x -> repr my ey -> ey <= 970 -> v <= sc my ey -> is_finite x = true.
Proof.
  intros Hx Hr He Hle. destruct Hx as [| |Hinf]; try reflexivity.
  pose proof (sc_max_float my ey Hr He). lia.
Qed.

Lemma pos_result_valid v x : pos_result v x -> valid x = true.
Proof. intros []; auto. Qed.

Lemma pos_result_scaled v x : pos_result v x -> is_finite x = true -> scaled x = v.
Proof. intros [| |] Hf; simpl in *; congruence. Qed.

Theorem add_interval mx ex my ey :
  bounded 53 1024 mx ex = true -> bounded 53 1024 my ey = true ->
  exists v,
    pos_result v (Float64.add (S754_finite false mx ex) (S754_finite false my ey)) /\
    (forall m e, repr m e -> sc m e <= sc (Zpos mx) ex + sc (Zpos my) ey -> sc m e <= v) /\
    (forall m e, repr m e -> sc (Zpos mx) ex + sc (Zpos my) ey <= sc m e -> v <= sc m e).
Proof.
  intros Hx Hy. apply bounded_inv in Hx. apply bounded_inv in Hy.
  unfold Float64.add. cbn [SFadd cond_Zopp].
  set (ez := Z.min ex ey).
  destruct (shl_align_spec mx ex ez) as [Hax _]; [lia |].
  destruct (shl_align_spec my ey ez) as [Hay _]; [lia |].
  set (a := fst (shl_align mx ex ez)) in *.
  set (b := fst (shl_align my ey ez)) in *.
  change (Zpos a + Zpos b) with (Zpos (a + b)). cbn [binary_normalize].
  destruct (binary_round_interval (a + b) ez) as (v & Hv & Hge & Hle); [lia |].
  assert (Hsum : sc (Zpos (a + b)) ez = sc (Zpos mx) ex + sc (Zpos my) ey).
  { rewrite Pos2Z.inj_add, sc_add, Hax, Hay, !sc_shift by lia.
    f_equal; f_equal; lia. }
  rewrite Hsum in Hge, Hle. exists v. auto.
Qed.

Theorem sub_interval mx ex my ey :
  bounded 53 1024 mx ex = true -> bounded 53 1024 my ey = true ->
  sc (Zpos my) ey < sc (Zpos mx) ex ->
  exists v,
    pos_result v (Float64.sub (S754_finite false mx ex) (S754_finite false my ey)) /\
    (forall m e, repr m e -> sc m e <= sc (Zpos mx) ex - sc (Zpos my) ey -> sc m e <= v) /\
    (forall m e, repr m e -> sc (Zpos mx) ex - sc (Zpos my) ey <= sc m e -> v <= sc m e).
Proof.
  intros Hx Hy Hlt. apply bounded_inv in Hx. apply bounded_inv in Hy.
  unfold Float64.sub. cbn [SFsub cond_Zopp].
  set (ez := Z.min ex ey).
  destruct (shl_align_spec mx ex ez) as [Hax _]; [lia |].
  destruct (shl_align_spec my ey ez) as [Hay _]; [lia |].
  set (a := fst (shl_align mx ex ez)) in *.
  set (b := fst (shl_align my ey ez)) in *.
  assert (Hsa : sc (Zpos a) ez = sc (Zpos mx) ex).
  { rewrite Hax, sc_shift by lia. f_equal. lia. }
  assert (Hsb : sc (Zpos b) ez = sc (Zpos my) ey).
  { rewrite Hay, sc_shift by lia. f_equal. lia. }
  assert (Hab : Zpos b < Zpos a).
  { apply sc_lt_inv with (e := ez); lia. }
  destruct (Zpos a - Zpos b) as [| p | p] eqn:Hd; try lia.
  cbn [binary_normalize].
  destruct (binary_round_interval p ez) as (v & Hv & Hge & Hle); [lia |].
  assert (Hdiff : sc (Zpos p) ez = sc (Zpos mx) ex - sc (Zpos my) ey).
  { rewrite <- Hd, sc_sub. lia. }
  rewrite Hdiff in Hge, Hle. exists v. auto.
Qed.

Lemma Zdigits2_lower m k : 0 <= k -> 2 ^ k <= m -> k + 1 <= Zdigits2 m.
Proof.
  intros Hk Hm. assert (Hp : 0 < 2 ^ k) by (apply pow2_pos; lia).
  pose proof (Zdigits2_pos_bounds m ltac:(lia)) as [_ Hu].
  destruct (Z.le_gt_cases (k + 1) (Zdigits2 m)) as [H | H]; auto.
  assert (2 ^ Zdigits2 m <= 2 ^ k) by (apply Z.pow_le_mono_r; lia). lia.
Qed.

Theorem mul_interval mx ex my ey :
  bounded 53 1024 mx ex = true -> bounded 53 1024 my ey = true ->
  exists v,
    pos_result v (Float64.mul (S754_finite false mx ex) (S754_finite false my ey)) /\
    (forall m e, repr m e -> sc m e <= sc (Zpos mx * Zpos my) (ex + ey) -> sc m e <= v) /\
    (forall m e, repr m e -> sc (Zpos mx * Zpos my) (ex + ey) <= sc m e -> v <= sc m e).
Proof.
  intros Hx Hy. apply bounded_inv in Hx. apply bounded_inv in Hy.
  destruct Hx as (Hex & Hmx & Hnx). destruct Hy as (Hey & Hmy & Hny).
  unfold Float64.mul. cbn [SFmul xorb].
  destruct (binary_round_aux_interval (Zpos (mx * my)) (ex + ey) loc_Exact)
    as (v & Hv & Hge & Hle); [lia | lia | |].
  - rewrite Pos2Z.inj_mul.
    destruct (Z.le_gt_cases (2 ^ 52) (Zpos mx * Zpos my)) as [Hc | Hc].
    + pose proof (Zdigits2_lower _ 52 ltac:(lia) Hc). unfold fexp64. lia.
    + assert (ex = -1074) by (destruct Hnx as [|Hnx]; [assumption | nia]).
      assert (ey = -1074) by (destruct Hny as [|Hny]; [assumption | nia]).
      unfold fexp64. lia.
  - rewrite Pos2Z.inj_mul in Hge, Hle. exists v. split; [exact Hv |].
    split; [exact Hge |]. intros m e Hr H. apply Hle; auto. congruence.
Qed.

Theorem of_int_interval (n : Z) :
  0 < n ->
  exists v,
    pos_result v (binary_normalize 53 1024 n 0 false) /\
    (forall m e, repr m e -> sc m e <= sc n 0 -> sc m e <= v) /\
    (forall m e, repr m e -> sc n 0 <= sc m e -> v <= sc m e).
Proof.
  intros Hn. destruct n as [| p | p]; try lia. cbn [binary_normalize].
  apply binary_round_interval. lia.
Qed.

Lemma to_int_finite m e :
  -2148 <= e ->
  Float64.to_int (S754_finite false m e) = Ok (sc (Zpos m) e / 2 ^ 2148).
Proof.
  intros He. unfold Float64.to_int, sc. f_equal.
  assert (H2 : 0 < 2 ^ 2148) by (apply pow2_pos; lia).
  destruct e as [| k | k].
  - rewrite Z.shiftl_0_r. change (0 + 2148) with 2148. symmetry. apply Z.div_mul. lia.
  - rewrite Z.shiftl_mul_pow2 by lia. rewrite Z.pow_add_r by lia.
    rewrite Z.mul_assoc. symmetry. apply Z.div_mul. lia.
  - rewrite Z.shiftr_div_pow2 by lia.
    rewrite (pow2_split (Zneg k + 2148) 2148) by lia.
    replace (2148 - (Zneg k + 2148)) with (Zpos k) by lia.
    assert (0 < 2 ^ Zpos k) by (apply pow2_pos; lia).
    assert (0 < 2 ^ (Zneg k + 2148)) by (apply pow2_pos; lia).
    symmetry. apply Z.div_mul_cancel_r; lia.
Qed.
(** *** Comparisons of non negative results *)

Lemma compare_pos_result x y vx vy :
  pos_result vx x -> pos_result vy y ->
  is_finite x = true -> is_finite y = true ->
  SFcompare x y = Some (vx ?= vy).
Proof.
  intros Hx Hy Fx Fy.
  destruct Hx as [Hx | mx ex Bx Hx | Hx]; try discriminate;
    destruct Hy as [Hy | my ey By Hy | Hy]; try discriminate.
  - subst. reflexivity.
  - subst vx. cbn [SFcompare]. f_equal. symmetry. apply Z.compare_lt_iff.
    rewrite <- Hy. apply bounded_inv in By. apply sc_pos; lia.
  - subst vy. cbn [SFcompare]. f_equal. symmetry. apply Z.compare_gt_iff.
    rewrite <- Hx. apply bounded_inv in Bx. apply sc_pos; lia.
  - rewrite SFcompare_pos by assumption. now rewrite Hx, Hy.
Qed.

Lemma leb_pos_result x y vx vy :
  pos_result vx x -> pos_result vy y ->
  is_finite x = true -> is_finite y = true ->
  Float64.leb x y = (vx <=? vy).
Proof.
  intros Hx Hy Fx Fy. unfold Float64.leb, SFleb.
  rewrite (compare_pos_result x y vx vy) by assumption.
  unfold Z.leb. destruct (vx ?= vy); reflexivity.
Qed.

Lemma ltb_pos_result x y vx vy :
  pos_result vx x -> pos_result vy y ->
  is_finite x = true -> is_finite y = true ->
  Float64.ltb x y = (vx <? vy).
Proof.
  intros Hx Hy Fx Fy. unfold Float64.ltb, SFltb.
  rewrite (compare_pos_result x y vx vy) by assumption.
  unfold Z.ltb. destruct (vx ?= vy); reflexivity.
Qed.

Lemma pos_result_of_bounded m e :
  bounded 53 1024 m e = true -> pos_result (sc (Zpos m) e) (S754_finite false m e).
Proof. intros H. now apply pr_finite. Qed.

(** *** Division of two non negative integers *)

Lemma new_location_exact n r : new_location n r <> loc_Exact -> r <> 0.
Proof.
  intros H ->. apply H. unfold new_location, new_location_even, new_location_odd.
  destruct (Z.even n); reflexivity.
Qed.

Lemma fexp64_mono a b : a <= b -> fexp64 a <= fexp64 b.
Proof. unfold fexp64. lia. Qed.

Lemma div_core_spec (ma mb : Z) :
  0 < ma -> 0 < mb ->
  let e' := Z.min (fexp64 (Zdigits2 ma - Zdigits2 mb)) 0 in
  let m' := ma * 2 ^ (- e') in
  SFdiv_core_binary 53 1024 ma 0 mb 0 = (m' / mb, e', new_location mb (m' mod mb)) /\
  e' <= fexp64 (Zdigits2 (m' / mb) + e').
Proof.
  intros Ha Hb e' m'.
  assert (He' : -1074 <= e' <= 0) by (unfold e', fexp64; lia).
  assert (Hp : 0 < 2 ^ (- e')) by (apply pow2_pos; lia).
  split.
  - unfold SFdiv_core_binary. rewrite !Z.add_0_r, fexp64_eq.
    change (0 - 0) with 0. fold e'. rewrite !Z.sub_0_l.
    assert (Hm' : match - e' with
                  | Zpos _ => Z.shiftl ma (- e')
                  | 0 => ma
                  | Zneg _ => 0
                  end = m').
    { unfold m'. destruct (- e') as [| p | p] eqn:Hs; try lia.
      rewrite Z.shiftl_mul_pow2 by lia. reflexivity. }
    rewrite Hm'. unfold Z.div, Z.modulo.
    destruct (Z.div_eucl m' mb) as [q r]. reflexivity.
  - set (D := Zdigits2 ma - Zdigits2 mb) in *.
    pose proof (Zdigits2_pos_bounds ma Ha) as [Hla _].
    pose proof (Zdigits2_pos_bounds mb Hb) as [_ Hub].
    assert (Hd1 : 0 < Zdigits2 ma) by (destruct ma; simpl; lia).
    assert (Hd2 : 0 < Zdigits2 mb) by (destruct mb; simpl; lia).
    destruct (Z.le_gt_cases 1 (D - e')) as [Hc | Hc].
    + assert (Hq : 2 ^ (D - e' - 1) <= m' / mb).
      { apply Z.div_le_lower_bound; [lia |].
        assert (Hpq : 0 < 2 ^ (D - e' - 1)) by (apply pow2_pos; lia).
        apply Z.le_trans with (2 ^ Zdigits2 mb * 2 ^ (D - e' - 1)); [nia |].
        rewrite <- Z.pow_add_r by lia.
        replace (Zdigits2 mb + (D - e' - 1)) with (Zdigits2 ma - 1 + (- e'))
          by (unfold D; lia).
        rewrite Z.pow_add_r by lia. unfold m'. nia. }
      pose proof (Zdigits2_lower (m' / mb) (D - e' - 1) ltac:(lia) Hq) as Hd.
      apply Z.le_trans with (fexp64 D); [unfold e'; lia |].
      apply fexp64_mono. lia.
    + unfold e', fexp64 in *. lia.
Qed.

Theorem int_truediv_interval (a b k : Z) :
  0 <= a -> 0 < b -> 0 <= k <= 2 ^ 53 -> a <= k * b ->
  exists v x,
    Float64.int_truediv a b = Ok x /\ pos_result v x /\
    is_finite x = true /\ v <= sc k 0.
Proof.
  intros Ha Hb Hk Hab. unfold Float64.int_truediv.
  destruct (Z.eqb_spec b 0) as [? | _]; [lia |].
  destruct (Z.eq_dec a 0) as [-> | Ha0].
  { destruct b; try lia. cbn. exists 0, (S754_zero false).
    repeat split; [now apply pr_zero |]. unfold sc. 
    pose proof (pow2_pos (0 + 2148) ltac:(lia)). nia. }
  destruct a as [| pa | pa]; try lia. destruct b as [| pb | pb]; try lia.
  unfold Float64.div, Float64.prec, Float64.emax. cbn [exact_of_Z SFdiv xorb].
  destruct (div_core_spec (Zpos pa) (Zpos pb)) as [Hcore HE]; [lia | lia |].
  cbn zeta in Hcore, HE. rewrite Hcore.
  set (e' := Z.min (fexp64 (Zdigits2 (Zpos pa) - Zdigits2 (Zpos pb))) 0) in *.
  set (m' := Zpos pa * 2 ^ (- e')) in *.
  assert (He' : -1074 <= e' <= 0) by (unfold e', fexp64; lia).
  assert (Hp : 0 < 2 ^ (- e')) by (apply pow2_pos; lia).
  assert (Hm'0 : 0 <= m') by (unfold m'; nia).
  assert (Hq0 : 0 <= m' / Zpos pb) by (apply Z.div_pos; lia).
  destruct (binary_round_aux_interval (m' / Zpos pb) e' (new_location (Zpos pb) (m' mod Zpos pb)))
    as (v & Hv & _ & Hle); [lia | lia | exact HE |].
  assert (Hsck : sc (k * 2 ^ (- e')) e' = sc k 0).
  { rewrite sc_shift by lia. f_equal. lia. }
  assert (Hm'k : m' <= Zpos pb * (k * 2 ^ (- e'))) by (unfold m'; nia).
  assert (Hvk : v <= sc k 0).
  { apply Hle; [split; lia | |].
    - rewrite <- Hsck. apply sc_le_mono_m; [lia |].
      apply Z.div_le_upper_bound; lia.
    - intros Hl. apply new_location_exact in Hl.
      rewrite <- Hsck. unfold sc.
      pose proof (pow2_pos (e' + 2148) ltac:(lia)).
      assert (m' / Zpos pb < k * 2 ^ (- e')); [| nia].
      apply Z.div_lt_upper_bound; [lia |].
      destruct (Z.eq_dec m' (Zpos pb * (k * 2 ^ (- e')))) as [Heq | Hne]; [| lia].
      exfalso. apply Hl. rewrite Heq, Z.mul_comm. apply Z.mod_mul. lia. }
  assert (Hfin : is_finite (binary_round_aux 53 1024 false (m' / Zpos pb) e'
                              (new_location (Zpos pb) (m' mod Zpos pb))) = true).
  { apply pos_result_finite with (v := v) (my := k) (ey := 0);
      [exact Hv | split; lia | lia | exact Hvk]. }
  exists v. eexists. split; [| split; [exact Hv | split; [exact Hfin | exact Hvk]]].
  destruct Hv; try reflexivity. discriminate.
Qed.

(** * The model against known values *)

(** The literals of the source are the doubles nearest to the decimal
    fractions. *)
Example f0_1_nearest : Float64.int_truediv 1 10 = Ok f0_1.
Proof. vm_compute. reflexivity. Qed.

Example f0_2_nearest : Float64.int_truediv 2 10 = Ok f0_2.
Proof. vm_compute. reflexivity. Qed.

Example f1_3_nearest : Float64.int_truediv 13 10 = Ok f1_3.
Proof. vm_compute. reflexivity. Qed.

Example f2_5_nearest : Float64.int_truediv 5 2 = Ok f2_5.
Proof. vm_compute. reflexivity. Qed.

Example f33_3_nearest : Float64.int_truediv 333 10 = Ok f33_3.
Proof. vm_compute. reflexivity. Qed.

Example round1_third :
  (do ratio <- Float64.int_truediv 1 3;
   do percent <- Float64.mul_int ratio 100;
   Float64.round1 percent) = Ok f33_3.
Proof. vm_compute. reflexivity. Qed.

(** [round(0.25, 1)] is [0.2] and [round(0.35, 1)] is [0.3]: the tie
    goes to the even digit, and the double nearest to 0.35 lies below
    it. *)
Example round1_ties :
  (do x <- Float64.int_truediv 1 4; Float64.round1 x) = Float64.int_truediv 2 10 /\
  (do x <- Float64.int_truediv 35 100; Float64.round1 x) = Float64.int_truediv 3 10.
Proof. split; vm_compute; reflexivity. Qed.

(** The calendar. *)
Example wednesday_2024_01_03 :
  strftime_ymd (make 2024 1 3 12 0 0) = "2024-01-03"%string /\
  weekday (make 2024 1 3 12 0 0) = 2.
Proof. split; vm_compute; reflexivity. Qed.

Example leap_day_2024 :
  strftime_ymd (make 2024 2 28 0 0 0 + us_per_day) = "2024-02-29"%string /\
  strftime_ymd (make 2024 2 28 0 0 0 + 2 * us_per_day) = "2024-03-01"%string /\
  strftime_ymd (make 2023 2 28 0 0 0 + us_per_day) = "2023-03-01"%string.
Proof. repeat split; vm_compute; reflexivity. Qed.

Example datetime_bounds :
  strftime_ymd 0 = "0001-01-01"%string /\ weekday 0 = 0 /\
  strftime_ymd datetime_max = "9999-12-31"%string.
Proof. repeat split; vm_compute; reflexivity. Qed.

(** ** The ease factor and the interval under one update *)

Lemma ease_in_range_inv (x : float) :
  ease_in_range x = true ->
  exists m e,
    x = S754_finite false m e /\ bounded 53 1024 m e = true /\
    sc (Zpos m1_3) (-52) <= sc (Zpos m) e <= sc (Zpos m2_5) (-51) /\
    ((e = -52 /\ Zpos m1_3 <= Zpos m) \/ (e = -51 /\ Zpos m <= Zpos m2_5)).
Proof.
  unfold ease_in_range. intros H.
  apply andb_true_iff in H. destruct H as [H Hhi].
  apply andb_true_iff in H. destruct H as [Hv Hlo].
  assert (B13 : bounded 53 1024 m1_3 (-52) = true) by reflexivity.
  assert (B25 : bounded 53 1024 m2_5 (-51) = true) by reflexivity.
  destruct x as [s | s | | s m e]; try (destruct s; discriminate); try discriminate.
  destruct s; [discriminate |].
  unfold Float64.valid in Hv. cbn [valid_binary] in Hv.
  change f1_3 with (S754_finite false m1_3 (-52)) in Hlo.
  change f2_5 with (S754_finite false m2_5 (-51)) in Hhi.
  rewrite (leb_pos_result _ _ _ _ (pos_result_of_bounded _ _ B13)
             (pos_result_of_bounded _ _ Hv)) in Hlo by reflexivity.
  rewrite (leb_pos_result _ _ _ _ (pos_result_of_bounded _ _ Hv)
             (pos_result_of_bounded _ _ B25)) in Hhi by reflexivity.
  apply Z.leb_le in Hlo. apply Z.leb_le in Hhi.
  exists m, e. repeat split; auto.
  assert (He : -52 <= e <= -51).
  { split.
    - destruct (Z.le_gt_cases (-52) e); auto.
      pose proof (sc_lt_exp m e m1_3 (-52) Hv B13 ltac:(lia)). lia.
    - destruct (Z.le_gt_cases e (-51)); auto.
      pose proof (sc_lt_exp m2_5 (-51) m e B25 Hv ltac:(lia)). lia. }
  destruct (Z.eq_dec e (-52)) as [-> | Hne].
  - left. split; [reflexivity |]. apply sc_le_inv with (e := -52); lia.
  - right. assert (e = -51) by lia. subst e.
    split; [reflexivity |]. apply sc_le_inv with (e := -51); lia.
Qed.

Lemma bounded_f0_1 : bounded 53 1024 m0_1 (-56) = true.
Proof. reflexivity. Qed.

Lemma bounded_f0_2 : bounded 53 1024 m0_1 (-55) = true.
Proof. reflexivity. Qed.

Lemma bounded_f1_3 : bounded 53 1024 m1_3 (-52) = true.
Proof. reflexivity. Qed.

Lemma bounded_f2_5 : bounded 53 1024 m2_5 (-51) = true.
Proof. reflexivity. Qed.

Lemma sum_below_four :
  sc (Zpos m2_5) (-51) + sc (Zpos m0_1) (-56) <= sc (2 ^ 53) (-51).
Proof. vm_compute. discriminate. Qed.

Lemma fifth_below_floor : sc (Zpos m0_1) (-55) < sc (Zpos m1_3) (-52).
Proof. vm_compute. reflexivity. Qed.

Lemma floor_below_ceiling : sc (Zpos m1_3) (-52) <= sc (Zpos m2_5) (-51).
Proof. vm_compute. discriminate. Qed.

Lemma ease_in_range_intro v x :
  pos_result v x -> is_finite x = true ->
  sc (Zpos m1_3) (-52) <= v <= sc (Zpos m2_5) (-51) ->
  ease_in_range x = true.
Proof.
  intros Hx Hf Hv. unfold ease_in_range.
  rewrite (pos_result_valid v x Hx).
  change f1_3 with (S754_finite false m1_3 (-52)).
  change f2_5 with (S754_finite false m2_5 (-51)).
  rewrite (leb_pos_result _ _ _ _ (pos_result_of_bounded _ _ bounded_f1_3) Hx)
    by auto.
  rewrite (leb_pos_result _ _ _ _ Hx (pos_result_of_bounded _ _ bounded_f2_5))
    by auto.
  apply andb_true_iff. split; [apply Z.leb_le; lia | apply Z.leb_le; lia].
Qed.

(** A correct answer: the ease moves up, and stays at or below 2.5. *)
Lemma correct_ease (x : float) :
  ease_in_range x = true ->
  let new_ease := Float64.py_min f2_5 (Float64.add x f0_1) in
  ease_in_range new_ease = true /\ Float64.leb x new_ease = true.
Proof.
  intros Hx. pose proof Hx as Hx'.
  apply ease_in_range_inv in Hx'.
  destruct Hx' as (m & e & -> & Hb & [Hlo Hhi] & Hcase).
  pose proof (bounded_inv m e Hb) as (He & Hm & _).
  assert (He' : -52 <= e <= -51) by lia.
  destruct (add_interval m e m0_1 (-56) Hb bounded_f0_1) as (v & Hv & Hge & Hle).
  fold f0_1 in Hv.
  assert (Hlow : sc (Zpos m) e <= v).
  { apply Hge; [split; lia |].
    pose proof (sc_pos (Zpos m0_1) (-56) ltac:(lia) ltac:(lia)). lia. }
  assert (Hup : v <= sc (2 ^ 53) (-51)).
  { apply Hle; [split; lia |]. pose proof sum_below_four. lia. }
  assert (Hfin : is_finite (Float64.add (S754_finite false m e) f0_1) = true).
  { apply pos_result_finite with (v := v) (my := 2 ^ 53) (ey := -51);
      [exact Hv | split; lia | lia | exact Hup]. }
  pose proof (pos_result_of_bounded _ _ Hb) as Px.
  pose proof (pos_result_of_bounded _ _ bounded_f2_5) as P25.
  cbn zeta. unfold Float64.py_min.
  change f2_5 with (S754_finite false m2_5 (-51)).
  rewrite (ltb_pos_result _ _ _ _ Hv P25) by auto.
  destruct (Z.ltb_spec v (sc (Zpos m2_5) (-51))) as [Hlt | Hge25].
  - split.
    + apply ease_in_range_intro with (v := v); auto. lia.
    + rewrite (leb_pos_result _ _ _ _ Px Hv) by auto. apply Z.leb_le. lia.
  - split.
    + exact (ease_in_range_intro _ _ P25 eq_refl
               (conj floor_below_ceiling (Z.le_refl _))).
    + rewrite (leb_pos_result _ _ _ _ Px P25) by auto. apply Z.leb_le. lia.
Qed.

(** A wrong answer: the ease moves down, and stays at or above 1.3. *)
Lemma incorrect_ease (x : float) :
  ease_in_range x = true ->
  let new_ease := Float64.py_max f1_3 (Float64.sub x f0_2) in
  ease_in_range new_ease = true /\ Float64.leb new_ease x = true.
Proof.
  intros Hx. pose proof Hx as Hx'.
  apply ease_in_range_inv in Hx'.
  destruct Hx' as (m & e & -> & Hb & [Hlo Hhi] & Hcase).
  pose proof (bounded_inv m e Hb) as (He & Hm & _).
  assert (He' : -52 <= e <= -51) by lia.
  pose proof fifth_below_floor as H02.
  destruct (sub_interval m e m0_1 (-55) Hb bounded_f0_2 ltac:(lia))
    as (v & Hv & Hge & Hle).
  fold f0_2 in Hv.
  assert (Hup : v <= sc (Zpos m) e).
  { apply Hle; [split; lia |].
    pose proof (sc_pos (Zpos m0_1) (-55) ltac:(lia) ltac:(lia)). lia. }
  assert (Hfin : is_finite (Float64.sub (S754_finite false m e) f0_2) = true).
  { apply pos_result_finite with (v := v) (my := Zpos m) (ey := e);
      [exact Hv | split; lia | lia | exact Hup]. }
  pose proof (pos_result_of_bounded _ _ Hb) as Px.
  pose proof (pos_result_of_bounded _ _ bounded_f1_3) as P13.
  cbn zeta. unfold Float64.py_max.
  change f1_3 with (S754_finite false m1_3 (-52)).
  rewrite (ltb_pos_result _ _ _ _ P13 Hv) by auto.
  destruct (Z.ltb_spec (sc (Zpos m1_3) (-52)) v) as [Hlt | Hge13].
  - split.
    + apply ease_in_range_intro with (v := v); auto. lia.
    + rewrite (leb_pos_result _ _ _ _ Hv Px) by auto. apply Z.leb_le. lia.
  - split.
    + exact (ease_in_range_intro _ _ P13 eq_refl
               (conj (Z.le_refl _) floor_below_ceiling)).
    + rewrite (leb_pos_result _ _ _ _ P13 Px) by auto. apply Z.leb_le. lia.
Qed.

Lemma sc_pow2 k e : 0 <= k -> -2148 <= e -> sc (2 ^ k) e = sc 1 (e + k).
Proof. intros Hk He. rewrite <- (Z.mul_1_l (2 ^ k)). now apply sc_shift. Qed.

(** [float(i)] for a positive [i]: a normal double at or above 1, at
    most one unit in the last place below [i]. *)
Lemma of_int_positive (i : Z) (f : float) :
  1 <= i -> Float64.of_int i = Ok f ->
  exists mf ef,
    f = S754_finite false mf ef /\ bounded 53 1024 mf ef = true /\
    2 ^ 52 <= Zpos mf /\ -52 <= ef /\
    sc i 0 <= sc (Zpos mf + 1) ef.
Proof.
  intros Hi Hf. unfold Float64.of_int, Float64.prec, Float64.emax in Hf.
  destruct (of_int_interval i ltac:(lia)) as (vf & Hvf & Hge & Hle).
  assert (H1 : sc 1 0 <= vf).
  { apply Hge; [split; lia |]. apply sc_le_mono_m; lia. }
  assert (H1pos : 0 < sc 1 0) by (apply sc_pos; lia).
  destruct Hvf as [Hz | mf ef Hb Hsc | Hinf]; [lia | | discriminate].
  injection Hf as <-.
  pose proof (bounded_inv mf ef Hb) as (He & Hm & Hn).
  assert (Hone : sc 1 0 = sc (2 ^ 1074) (-1074)).
  { rewrite sc_pow2 by lia. reflexivity. }
  assert (Hnorm : 2 ^ 52 <= Zpos mf).
  { destruct Hn as [-> | Hn]; [| exact Hn]. exfalso.
    assert (sc (Zpos mf) (-1074) < sc (2 ^ 1074) (-1074)); [| lia].
    assert (2 ^ 53 < 2 ^ 1074) by (apply Z.pow_lt_mono_r; lia).
    unfold sc. pose proof (pow2_pos (-1074 + 2148) ltac:(lia)). nia. }
  assert (Hef : -52 <= ef).
  { destruct (Z.le_gt_cases (-52) ef) as [H | H]; [exact H | exfalso].
    assert (sc (Zpos mf) ef < sc 1 0); [| lia].
    apply Z.lt_le_trans with (sc (2 ^ 53) ef).
    { unfold sc. pose proof (pow2_pos (ef + 2148) ltac:(lia)). nia. }
    apply Z.le_trans with (sc (2 ^ 53) (-53)); [apply sc_le_mono_e; lia |].
    rewrite sc_pow2 by lia. apply Z.le_refl. }
  exists mf, ef. repeat split; auto.
  destruct (Z.le_gt_cases (sc i 0) (sc (Zpos mf + 1) ef)) as [H | H]; [exact H |].
  exfalso.
  assert (sc (Zpos mf + 1) ef <= vf) by (apply Hge; [split; lia | lia]).
  assert (sc (Zpos mf) ef < sc (Zpos mf + 1) ef); [| lia].
  unfold sc. pose proof (pow2_pos (ef + 2148) ltac:(lia)). nia.
Qed.

(** A correct answer never shortens the interval: the floor of the
    rounded product is at least the old interval. *)
Lemma correct_interval (i : Z) (x p : float) (ni : Z) :
  1 <= i -> ease_in_range x = true ->
  Float64.int_mul i x = Ok p -> Float64.to_int p = Ok ni ->
  i <= ni /\ is_finite p = true /\ ni = scaled p / 2 ^ 2148.
Proof.
  intros Hi Hx Hp Hni.
  apply ease_in_range_inv in Hx.
  destruct Hx as (m & e & -> & Hb & _ & Hcase).
  pose proof (bounded_inv m e Hb) as (_ & Hm & Hn).
  unfold Float64.int_mul in Hp.
  destruct (Float64.of_int i) as [f | ex] eqn:Hf; [| discriminate].
  cbn [bind] in Hp. injection Hp as <-.
  destruct (of_int_positive i f Hi Hf) as (mf & ef & -> & Hbf & Hnf & Hef & Hulp).
  pose proof (bounded_inv mf ef Hbf) as (Hef' & Hmf & _).
  destruct (mul_interval mf ef m e Hbf Hb) as (vp & Hvp & Hge & _).
  assert (Hy : sc (Zpos mf + 1) ef <= vp).
  { apply Hge; [split; lia |].
    assert (Hm13 : Zpos m1_3 = 5854679515581645) by reflexivity.
    destruct Hcase as [[-> Hlo] | [-> _]].
    - replace (sc (Zpos mf + 1) ef) with (sc ((Zpos mf + 1) * 2 ^ 52) (ef + -52))
        by (rewrite sc_shift by lia; f_equal; lia).
      apply sc_le_mono_m; [lia |].
      assert (Zpos mf * Zpos m1_3 <= Zpos mf * Zpos m) by nia. lia.
    - replace (sc (Zpos mf + 1) ef) with (sc ((Zpos mf + 1) * 2 ^ 51) (ef + -51))
        by (rewrite sc_shift by lia; f_equal; lia).
      apply sc_le_mono_m; [lia |].
      assert (Hm52 : 2 ^ 52 <= Zpos m) by (destruct Hn; lia).
      assert (Zpos mf * 2 ^ 52 <= Zpos mf * Zpos m) by nia. lia. }
  assert (Hipos : 0 < sc i 0) by (apply sc_pos; lia).
  destruct Hvp as [Hz | mp ep Hbp Hsc | Hinf]; [lia | | discriminate].
  pose proof (bounded_inv mp ep Hbp) as (Hep & _ & _).
  rewrite to_int_finite in Hni by lia. injection Hni as <-.
  split; [| split; [reflexivity | reflexivity]].
  apply Z.div_le_lower_bound; [apply pow2_pos; lia |].
  rewrite Hsc. unfold sc in Hulp, Hy, Hipos |- *.
  change (0 + 2148) with 2148 in *. lia.
Qed.

(** ** [calculate_next_review], case by case *)

Lemma calculate_next_review_raise a wc w e :
  new_review_values a wc = Raise e ->
  calculate_next_review a wc w = (w, a, Raise e).
Proof.
  intros H. unfold calculate_next_review.
  change (if wc then _ else _) with (new_review_values a wc).
  now rewrite H.
Qed.

Lemma calculate_next_review_values a wc w ni ne :
  new_review_values a wc = Ok (ni, ne) ->
  let a1 := ProblemAttempt.set_ease_factor ne
              (ProblemAttempt.set_review_interval_days ni a) in
  let w1 := snd (datetime_now w) in
  calculate_next_review a wc w =
    match plus_days (clock w (ticks w)) ni with
    | Raise e => (w1, a1, Raise e)
    | Ok next => (w1, ProblemAttempt.set_next_review_at (Some next) a1, Ok next)
    end.
Proof.
  intros H. unfold calculate_next_review.
  change (if wc then _ else _) with (new_review_values a wc).
  rewrite H. reflexivity.
Qed.

Lemma new_review_values_correct a p ni :
  Float64.int_mul (ProblemAttempt.review_interval_days a)
                  (ProblemAttempt.ease_factor a) = Ok p ->
  Float64.to_int p = Ok ni ->
  new_review_values a true =
    Ok (ni, Float64.py_min f2_5 (Float64.add (ProblemAttempt.ease_factor a) f0_1)).
Proof. intros Hp Hni. unfold new_review_values. rewrite Hp. cbn [bind]. now rewrite Hni. Qed.

Lemma new_review_values_true_inv a ni ne :
  new_review_values a true = Ok (ni, ne) ->
  exists p,
    Float64.int_mul (ProblemAttempt.review_interval_days a)
                    (ProblemAttempt.ease_factor a) = Ok p /\
    Float64.to_int p = Ok ni /\
    ne = Float64.py_min f2_5 (Float64.add (ProblemAttempt.ease_factor a) f0_1).
Proof.
  unfold new_review_values. intros H.
  destruct (Float64.int_mul _ _) as [p | e] eqn:Hp; [| discriminate].
  cbn [bind] in H.
  destruct (Float64.to_int p) as [n | e] eqn:Hn; [| discriminate].
  cbn [bind] in H. injection H as <- <-. exists p. auto.
Qed.

Lemma leb_refl_in_range x : ease_in_range x = true -> Float64.leb x x = true.
Proof.
  intros H. apply ease_in_range_inv in H. destruct H as (m & e & -> & Hb & _).
  pose proof (pos_result_of_bounded m e Hb) as P.
  rewrite (leb_pos_result _ _ _ _ P P) by reflexivity. apply Z.leb_refl.
Qed.

Lemma ease_in_range_bounds x :
  ease_in_range x = true ->
  Float64.leb f1_3 x = true /\ Float64.leb x f2_5 = true.
Proof.
  unfold ease_in_range. intros H.
  apply andb_true_iff in H. destruct H as [H H2].
  apply andb_true_iff in H. destruct H as [_ H1]. auto.
Qed.

(** The review state of the attempt as the update leaves it. *)
Lemma review_values_ok a wc ni ne :
  review_state_ok a -> new_review_values a wc = Ok (ni, ne) ->
  ease_in_range ne = true /\
  (if wc
   then ProblemAttempt.review_interval_days a <= ni /\
        Float64.leb (ProblemAttempt.ease_factor a) ne = true
   else ni = 1 /\ Float64.leb ne (ProblemAttempt.ease_factor a) = true).
Proof.
  intros [Hi He] H. destruct wc.
  - apply new_review_values_true_inv in H. destruct H as (p & Hp & Hni & ->).
    destruct (correct_ease _ He) as [H1 H2].
    destruct (correct_interval _ _ _ _ Hi He Hp Hni) as (Hge & _).
    auto.
  - unfold new_review_values in H. injection H as <- <-.
    destruct (incorrect_ease _ He) as [H1 H2]. auto.
Qed.

Lemma attempt_after_cases a wc w :
  (wc = true /\ attempt_after (calculate_next_review a wc w) = a) \/
  exists ni ne,
    new_review_values a wc = Ok (ni, ne) /\
    ProblemAttempt.review_interval_days
      (attempt_after (calculate_next_review a wc w)) = ni /\
    ProblemAttempt.ease_factor
      (attempt_after (calculate_next_review a wc w)) = ne.
Proof.
  destruct (new_review_values a wc) as [[ni ne] | e] eqn:H.
  - right. exists ni, ne. split; [reflexivity |].
    rewrite (calculate_next_review_values a wc w ni ne H). cbn zeta.
    destruct (plus_days _ _); split; reflexivity.
  - left. split.
    + destruct wc; [reflexivity | discriminate].
    + now rewrite (calculate_next_review_raise a wc w e H).
Qed.

Lemma calculate_next_review_frame_db a wc w :
  db (world_after (calculate_next_review a wc w)) = db w.
Proof.
  destruct (new_review_values a wc) as [[ni ne] | e] eqn:Hv.
  - rewrite (calculate_next_review_values a wc w ni ne Hv). cbn zeta.
    destruct (plus_days _ _); reflexivity.
  - now rewrite (calculate_next_review_raise a wc w e Hv).
Qed.

(** ** The review scheduler *)

Example f2_0_is_two : Float64.of_int 2 = Ok f2_0.
Proof. vm_compute. reflexivity. Qed.

Example f1_8_nearest : Float64.int_truediv 18 10 = Ok f1_8.
Proof. vm_compute. reflexivity. Qed.

(** C1, as the claim states it, fails: an interval of ten million days
    is in the documented domain, and the date of the next review is
    past year 9999. The interval and the ease are assigned, the date is
    not, and [OverflowError] is raised. *)
Lemma calculate_next_review_overflow :
  review_state_ok (sample_attempt 1 tuesday None 10000000 f2_5) /\
  outcome (calculate_next_review (sample_attempt 1 tuesday None 10000000 f2_5)
             true (world_2024 empty_db))
  = Raise OverflowError /\
  attempt_after (calculate_next_review (sample_attempt 1 tuesday None 10000000 f2_5)
                   true (world_2024 empty_db))
  = sample_attempt 1 tuesday None 25000000 f2_5.
Proof.
  split; [split; [cbn; lia | reflexivity] |].
  split; vm_compute; reflexivity.
Qed.

Lemma in_range_spec t : in_range t = true <-> 0 <= t <= datetime_max.
Proof.
  unfold in_range. rewrite andb_true_iff, !Z.leb_le. reflexivity.
Qed.

Lemma datetime_max_value : datetime_max = 315537897599999999.
Proof. reflexivity. Qed.

Lemma us_per_day_value : us_per_day = 86400000000.
Proof. reflexivity. Qed.

Lemma plus_days_in_range now n :
  in_range now = true -> 0 <= n -> in_range (now + n * us_per_day) = true ->
  plus_days now n = Ok (now + n * us_per_day).
Proof.
  intros Hnow Hn Hr. unfold plus_days, timedelta_days.
  assert (Hsmall : Z.abs n <= 999999999).
  { apply in_range_spec in Hnow. apply in_range_spec in Hr.
    rewrite datetime_max_value in *. rewrite us_per_day_value in Hr. lia. }
  destruct (Z.gtb_spec (Z.abs n) 999999999) as [H | _]; [lia |].
  cbn [bind]. unfold datetime_add. now rewrite Hr.
Qed.

(** The call returns whenever the date of the next review is a
    datetime. *)
Lemma calculate_next_review_returns (a : ProblemAttempt.t) (was_correct : bool)
    (w : World) (ni : Z) (ne : float) :
  review_state_ok a ->
  in_range (clock w (ticks w)) = true ->
  new_review_values a was_correct = Ok (ni, ne) ->
  in_range (clock w (ticks w) + ni * us_per_day) = true ->
  calculate_next_review a was_correct w
  = (snd (datetime_now w),
     ProblemAttempt.set_next_review_at (Some (clock w (ticks w) + ni * us_per_day))
       (ProblemAttempt.set_ease_factor ne
          (ProblemAttempt.set_review_interval_days ni a)),
     Ok (clock w (ticks w) + ni * us_per_day)).
Proof.
  intros Hok Hnow Hv Hr.
  destruct (review_values_ok a was_correct ni ne Hok Hv) as [_ Hni].
  assert (H1 : 0 <= ni).
  { destruct Hok as [Hi _]. destruct was_correct; lia. }
  rewrite (calculate_next_review_values a was_correct w ni ne Hv). cbn zeta.
  rewrite (plus_days_in_range _ ni Hnow H1 Hr). reflexivity.
Qed.

(** C1 (amended). On the documented domain: a wrong answer assigns
    interval 1 and ease [max(1.3, ease - 0.2)]; a correct answer whose
    product [interval * ease] is a finite double assigns the floor of
    that product, which is at least 1, and ease [min(2.5, ease + 0.1)];
    and whenever [now + new_interval days] is a datetime, the call
    returns it and stores it in [next_review_at]. *)
Theorem calculate_next_review_spec (a : ProblemAttempt.t) (was_correct : bool)
    (w : World) :
  review_state_ok a ->
  in_range (clock w (ticks w)) = true ->
  let i := ProblemAttempt.review_interval_days a in
  let e := ProblemAttempt.ease_factor a in
  let now := clock w (ticks w) in
  (was_correct = false ->
     new_review_values a was_correct
     = Ok (1, Float64.py_max f1_3 (Float64.sub e f0_2))) /\
  (was_correct = true ->
     forall p, Float64.int_mul i e = Ok p -> is_finite p = true ->
       1 <= scaled p / 2 ^ 2148 /\
       new_review_values a was_correct
       = Ok (scaled p / 2 ^ 2148, Float64.py_min f2_5 (Float64.add e f0_1))) /\
  (forall ni ne,
     new_review_values a was_correct = Ok (ni, ne) ->
     in_range (now + ni * us_per_day) = true ->
     calculate_next_review a was_correct w
     = (snd (datetime_now w),
        ProblemAttempt.set_next_review_at (Some (now + ni * us_per_day))
          (ProblemAttempt.set_ease_factor ne
             (ProblemAttempt.set_review_interval_days ni a)),
        Ok (now + ni * us_per_day))).
Proof.
  intros Hok Hnow i e now. split; [| split].
  - intros ->. reflexivity.
  - intros -> p Hp Hfin.
    assert (Hto : exists ni, Float64.to_int p = Ok ni).
    { destruct p as [s | s | | s m ex]; try discriminate; eexists; reflexivity. }
    destruct Hto as [ni Hni]. destruct Hok as [Hi He].
    destruct (correct_interval _ _ _ _ Hi He Hp Hni) as (Hge & _ & Heq).
    rewrite <- Heq. split; [fold i in Hge; lia |].
    now apply new_review_values_correct with (p := p).
  - intros ni ne Hv Hr. now apply calculate_next_review_returns.
Qed.

(** The first example of C1: interval 1, ease 2.5, correct answer. *)
Lemma calculate_next_review_spec_witness :
  outcome (calculate_next_review (sample_attempt 1 tuesday None 1 f2_5) true
             (world_2024 empty_db))
  = Ok (make 2024 1 5 12 0 0) /\
  attempt_after (calculate_next_review (sample_attempt 1 tuesday None 1 f2_5) true
                   (world_2024 empty_db))
  = ProblemAttempt.set_next_review_at (Some (make 2024 1 5 12 0 0))
      (sample_attempt 1 tuesday None 2 f2_5).
Proof.
  assert (Hok : review_state_ok (sample_attempt 1 tuesday None 1 f2_5))
    by (split; [cbn; lia | reflexivity]).
  assert (Hnow : in_range (clock (world_2024 empty_db) (ticks (world_2024 empty_db)))
                 = true) by (vm_compute; reflexivity).
  destruct (calculate_next_review_spec (sample_attempt 1 tuesday None 1 f2_5) true
              (world_2024 empty_db) Hok Hnow) as (_ & _ & H).
  rewrite (H 2 f2_5); [split; vm_compute; reflexivity | |];
    vm_compute; reflexivity.
Defined.

(** The second example of C1: interval 10, ease 2.0, wrong answer. *)
Example calculate_next_review_wrong_answer :
  outcome (calculate_next_review (sample_attempt 1 tuesday None 10 f2_0) false
             (world_2024 empty_db))
  = Ok (make 2024 1 4 12 0 0) /\
  attempt_after (calculate_next_review (sample_attempt 1 tuesday None 10 f2_0) false
                   (world_2024 empty_db))
  = ProblemAttempt.set_next_review_at (Some (make 2024 1 4 12 0 0))
      (sample_attempt 1 tuesday None 1 f1_8).
Proof. split; vm_compute; reflexivity. Qed.

Lemma review_state_after a wc w :
  review_state_ok a -> review_state_ok (attempt_after (calculate_next_review a wc w)).
Proof.
  intros Hok.
  destruct (attempt_after_cases a wc w) as [[_ ->] | (ni & ne & Hv & Hi & He)];
    [exact Hok |].
  destruct (review_values_ok a wc ni ne Hok Hv) as [Hne Hni].
  split.
  - rewrite Hi. destruct Hok as [H1 _]. destruct wc; lia.
  - rewrite He. exact Hne.
Qed.

(** C5. From a review state with interval at least 1 and ease in
    [1.3, 2.5], any series of updates, right and wrong answers in any
    order and of any length, leaves the interval at least 1 and the
    ease in [1.3, 2.5]. *)
Theorem review_state_preserved (outcomes : list bool) (a : ProblemAttempt.t)
    (w : World) :
  review_state_ok a ->
  let a' := snd (run_reviews outcomes a w) in
  1 <= ProblemAttempt.review_interval_days a' /\
  Float64.leb f1_3 (ProblemAttempt.ease_factor a') = true /\
  Float64.leb (ProblemAttempt.ease_factor a') f2_5 = true.
Proof.
  intros Hok. cbn zeta.
  assert (H : review_state_ok (snd (run_reviews outcomes a w))).
  { revert a w Hok. induction outcomes as [| wc rest IH]; intros a w Hok.
    - exact Hok.
    - cbn [run_reviews].
      pose proof (review_state_after a wc w Hok) as Hnext.
      destruct (calculate_next_review a wc w) as [[w1 a1] r].
      apply IH. exact Hnext. }
  destruct H as [Hi He]. split; [exact Hi |].
  now apply ease_in_range_bounds.
Qed.

Lemma review_state_preserved_witness :
  let a' := snd (run_reviews [true; true; false; true; false; false]
                   (sample_attempt 1 tuesday None 1 f2_5) (world_2024 empty_db)) in
  1 <= ProblemAttempt.review_interval_days a' /\
  Float64.leb f1_3 (ProblemAttempt.ease_factor a') = true /\
  Float64.leb (ProblemAttempt.ease_factor a') f2_5 = true.
Proof.
  apply (review_state_preserved [true; true; false; true; false; false]
           (sample_attempt 1 tuesday None 1 f2_5) (world_2024 empty_db)).
  split; [cbn; lia | reflexivity].
Defined.

(** C6. One update from the documented domain: a correct answer
    leaves the ease between the old ease and 2.5 and does not shorten
    the interval; a wrong answer sets the interval to 1 and leaves the
    ease between 1.3 and the old ease. The attempt meant is the attempt
    as the call leaves it. *)
Theorem single_update_bounds (a : ProblemAttempt.t) (was_correct : bool)
    (w : World) :
  review_state_ok a ->
  let a' := attempt_after (calculate_next_review a was_correct w) in
  if was_correct then
    Float64.leb (ProblemAttempt.ease_factor a) (ProblemAttempt.ease_factor a') = true /\
    Float64.leb (ProblemAttempt.ease_factor a') f2_5 = true /\
    ProblemAttempt.review_interval_days a <= ProblemAttempt.review_interval_days a'
  else
    ProblemAttempt.review_interval_days a' = 1 /\
    Float64.leb f1_3 (ProblemAttempt.ease_factor a') = true /\
    Float64.leb (ProblemAttempt.ease_factor a') (ProblemAttempt.ease_factor a) = true.
Proof.
  intros Hok. cbn zeta.
  pose proof (review_state_after a was_correct w Hok) as [_ Hafter].
  apply ease_in_range_bounds in Hafter. destruct Hafter as [Hlo Hhi].
  destruct (attempt_after_cases a was_correct w)
    as [[-> Hsame] | (ni & ne & Hv & Hi & He)].
  - (* the conversion of the product raised: the attempt is untouched *)
    rewrite Hsame. destruct Hok as [_ Hr].
    repeat split; [now apply leb_refl_in_range | | lia].
    now apply ease_in_range_bounds in Hr.
  - destruct (review_values_ok a was_correct ni ne Hok Hv) as [_ Hvals].
    rewrite Hi, He in *. destruct was_correct.
    + destruct Hvals as [Hge Hle]. auto.
    + destruct Hvals as [-> Hle]. auto.
Qed.

Lemma single_update_bounds_witness :
  let a := sample_attempt 1 tuesday None 4 f2_0 in
  let a' := attempt_after (calculate_next_review a true (world_2024 empty_db)) in
  Float64.leb (ProblemAttempt.ease_factor a) (ProblemAttempt.ease_factor a') = true /\
  Float64.leb (ProblemAttempt.ease_factor a') f2_5 = true /\
  ProblemAttempt.review_interval_days a <= ProblemAttempt.review_interval_days a'.
Proof.
  apply (single_update_bounds (sample_attempt 1 tuesday None 4 f2_0) true
           (world_2024 empty_db)).
  split; [cbn; lia | reflexivity].
Defined.

(** C7, as the claim states it, fails: the scheduler has no [now]
    parameter and no result triple. It overwrites the attempt it is
    given, and what it returns depends on the clock it reads. *)
Lemma calculate_next_review_mutates_and_reads_clock :
  attempt_after (calculate_next_review (sample_attempt 1 tuesday None 10 f2_0)
                   false (world_2024 empty_db))
  <> sample_attempt 1 tuesday None 10 f2_0 /\
  outcome (calculate_next_review (sample_attempt 1 tuesday None 10 f2_0)
             false (world_2024 empty_db))
  <> outcome (calculate_next_review (sample_attempt 1 tuesday None 10 f2_0)
                false (world_2024_later empty_db)).
Proof.
  split; vm_compute; intros H; discriminate H.
Qed.

Lemma same_but_review_set a ni ne nr :
  same_but_review
    (ProblemAttempt.set_next_review_at nr
       (ProblemAttempt.set_ease_factor ne
          (ProblemAttempt.set_review_interval_days ni a))) a.
Proof. destruct a. reflexivity. Qed.

Lemma same_but_review_set2 a ni ne :
  same_but_review
    (ProblemAttempt.set_ease_factor ne
       (ProblemAttempt.set_review_interval_days ni a)) a.
Proof. destruct a. reflexivity. Qed.

Lemma same_but_review_refl a : same_but_review a a.
Proof. destruct a. reflexivity. Qed.

Lemma plus_days_raises now n e : plus_days now n = Raise e -> e = OverflowError.
Proof.
  unfold plus_days, timedelta_days, datetime_add.
  destruct (Z.abs n >? 999999999); cbn [bind]; [congruence |].
  destruct (in_range _); congruence.
Qed.

Lemma plus_days_value now n t : plus_days now n = Ok t -> t = now + n * us_per_day.
Proof.
  unfold plus_days, timedelta_days, datetime_add.
  destruct (Z.abs n >? 999999999); cbn [bind]; [congruence |].
  destruct (in_range _); congruence.
Qed.

Lemma new_review_values_raises a wc e :
  review_state_ok a -> new_review_values a wc = Raise e -> e = OverflowError.
Proof.
  intros [Hi He] H. destruct wc; [| discriminate].
  unfold new_review_values in H.
  destruct (Float64.int_mul _ _) as [p | e1] eqn:Hp.
  - cbn [bind] in H.
    apply ease_in_range_inv in He. destruct He as (m & ex & Hx & Hb & _).
    rewrite Hx in Hp. unfold Float64.int_mul in Hp.
    destruct (Float64.of_int _) as [f | e2] eqn:Hf; [| discriminate].
    cbn [bind] in Hp. injection Hp as <-.
    destruct (of_int_positive _ f Hi Hf) as (mf & ef & -> & Hbf & _).
    destruct (mul_interval mf ef m ex Hbf Hb) as (vp & Hvp & _).
    destruct Hvp; cbn in H; congruence.
  - cbn [bind] in H. unfold Float64.int_mul in Hp.
    injection H as <-.
    destruct (Float64.of_int _) as [f | e2] eqn:Hf; [discriminate |].
    cbn [bind] in Hp. injection Hp as <-.
    unfold Float64.of_int in Hf.
    destruct (binary_normalize _ _ _ _ _); congruence.
Qed.

(** C7 (amended). [calculate_next_review(attempt, was_correct)] takes
    no [now]: it reads the ambient clock, at most once, and overwrites
    [review_interval_days], [ease_factor] and [next_review_at] of the
    attempt in place. It changes no other field of the attempt and
    nothing in the database; making the new values persistent is left
    to the caller. On the documented domain it raises nothing but
    [OverflowError]. *)
Theorem calculate_next_review_frame (a : ProblemAttempt.t) (was_correct : bool)
    (w : World) :
  review_state_ok a ->
  let x := calculate_next_review a was_correct w in
  db (world_after x) = db w /\
  clock (world_after x) = clock w /\
  (ticks (world_after x) = ticks w \/ ticks (world_after x) = S (ticks w)) /\
  same_but_review (attempt_after x) a /\
  (forall t, outcome x = Ok t ->
     ticks (world_after x) = S (ticks w) /\
     ProblemAttempt.next_review_at (attempt_after x) = Some t /\
     t = clock w (ticks w)
         + ProblemAttempt.review_interval_days (attempt_after x) * us_per_day) /\
  (forall e, outcome x = Raise e -> e = OverflowError).
Proof.
  intros Hok. cbn zeta.
  destruct (new_review_values a was_correct) as [[ni ne] | e] eqn:Hv.
  - rewrite (calculate_next_review_values a was_correct w ni ne Hv). cbn zeta.
    destruct (plus_days (clock w (ticks w)) ni) as [t | e] eqn:Hp;
      unfold world_after, attempt_after, outcome;
      cbn [fst snd datetime_now db clock ticks].
    + split; [reflexivity |]. split; [reflexivity |]. split; [now right |].
      split; [apply same_but_review_set |]. split.
      * intros t0 H. injection H as <-.
        apply plus_days_value in Hp. destruct a. cbn. auto.
      * intros e H. discriminate H.
    + split; [reflexivity |]. split; [reflexivity |]. split; [now right |].
      split; [apply same_but_review_set2 |]. split.
      * intros t0 H. discriminate H.
      * intros e0 H. injection H as <-. now apply plus_days_raises in Hp.
  - rewrite (calculate_next_review_raise a was_correct w e Hv).
    unfold world_after, attempt_after, outcome; cbn [fst snd].
    split; [reflexivity |]. split; [reflexivity |]. split; [now left |].
    split; [apply same_but_review_refl |]. split.
    + intros t0 H. discriminate H.
    + intros e0 H. injection H as <-. now apply new_review_values_raises in Hv.
Qed.

Lemma calculate_next_review_frame_witness :
  let x := calculate_next_review (sample_attempt 1 tuesday None 10 f2_0) false
             (world_2024 sample_db) in
  db (world_after x) = sample_db /\
  same_but_review (attempt_after x) (sample_attempt 1 tuesday None 10 f2_0).
Proof.
  destruct (calculate_next_review_frame (sample_attempt 1 tuesday None 10 f2_0) false
              (world_2024 sample_db)) as (Hdb & _ & _ & Hsame & _).
  - split; [cbn; lia | reflexivity].
  - split; [exact Hdb | exact Hsame].
Defined.

(** ** Looking rows up by identifier *)

(** C9, as the claim states it, fails: deleting a bookmark that does
    not exist answers success. *)
Lemma delete_missing_bookmark_succeeds :
  find (fun b => Bookmark.id b =? 99) (bookmarks sample_db) = None /\
  delete_bookmark 99 sample_db = (sample_db, Ok true).
Proof. split; reflexivity. Qed.

(** C9 (amended). A lookup of an attempt or of a session by identifier
    that yields nothing is answered with a 404 and changes nothing;
    deleting a bookmark whose identifier does not exist is answered
    with success and changes nothing. The identifier of an attempt or
    of a bookmark is bound to the query, so this is for a signed 64-bit
    identifier: any other is not looked up at all, the driver raises
    [OverflowError] and nothing changes. *)
Theorem lookup_not_found (d : Db) (w : World) (attempt_id bookmark_id : Z)
    (session_id : string) (was_correct : bool) :
  (sqlite_integer attempt_id = true -> find_attempt attempt_id d = None ->
     get_attempt attempt_id d = Raise (HTTPException 404 "Attempt not found")) /\
  (sqlite_integer attempt_id = true -> find_attempt attempt_id (db w) = None ->
     complete_review attempt_id was_correct w
     = (w, Raise (HTTPException 404 "Attempt not found"))) /\
  (find_session session_id d = None ->
     get_mock_session session_id d = Raise (HTTPException 404 "Session not found")) /\
  (find_session session_id (db w) = None ->
     complete_mock_session session_id w
     = (w, Raise (HTTPException 404 "Session not found"))) /\
  (sqlite_integer bookmark_id = true ->
   find (fun b => Bookmark.id b =? bookmark_id) (bookmarks d) = None ->
     delete_bookmark bookmark_id d = (d, Ok true)) /\
  (sqlite_integer attempt_id = false ->
     get_attempt attempt_id d = Raise OverflowError /\
     complete_review attempt_id was_correct w = (w, Raise OverflowError)) /\
  (sqlite_integer bookmark_id = false ->
     delete_bookmark bookmark_id d = (d, Raise OverflowError)).
Proof.
  repeat split.
  - intros Hid H. unfold get_attempt. now rewrite Hid, H.
  - intros Hid H. unfold complete_review. now rewrite Hid, H.
  - intros H. unfold get_mock_session. now rewrite H.
  - intros H. unfold complete_mock_session. now rewrite H.
  - intros Hid H. unfold delete_bookmark. now rewrite Hid, H.
  - unfold get_attempt. now rewrite H.
  - unfold complete_review. now rewrite H.
  - intros Hid. unfold delete_bookmark. now rewrite Hid.
Qed.

Lemma lookup_not_found_witness :
  get_attempt 7 sample_db = Raise (HTTPException 404 "Attempt not found") /\
  get_mock_session "Z" sample_db = Raise (HTTPException 404 "Session not found") /\
  delete_bookmark 99 sample_db = (sample_db, Ok true).
Proof.
  destruct (lookup_not_found sample_db (world_2024 sample_db) 7 99 "Z" true)
    as (Ha & _ & Hs & _ & Hb & _).
  split; [apply Ha; reflexivity |].
  split; [apply Hs; reflexivity | apply Hb; reflexivity].
Defined.

(** ** The verdict read off the evaluation text *)

Lemma starts_with_spec (p s : string) :
  starts_with p s = true <-> exists rest, s = (p ++ rest)%string.
Proof.
  revert s. induction p as [| a p IH]; intros s.
  - split; [intros _; exists s; reflexivity | reflexivity].
  - destruct s as [| b s]; cbn [starts_with].
    + split; [discriminate | intros [rest H]; discriminate H].
    + rewrite andb_true_iff, Ascii.eqb_eq, IH. split.
      * intros [-> [rest ->]]. exists rest. reflexivity.
      * intros [rest H]. cbn in H. injection H as -> ->. split; [reflexivity |].
        exists rest. reflexivity.
Qed.

Lemma contains_spec (needle s : string) :
  contains needle s = true <-> occurs needle s.
Proof.
  unfold occurs. induction s as [| c s IH].
  - cbn [contains]. rewrite orb_false_r, starts_with_spec. split.
    + intros [rest H]. exists EmptyString, rest. exact H.
    + intros (before & after & H). destruct before as [| b before].
      * exists after. exact H.
      * discriminate H.
  - cbn [contains]. rewrite orb_true_iff, starts_with_spec, IH. split.
    + intros [[rest H] | (before & after & H)].
      * exists EmptyString, rest. exact H.
      * exists (String c before), after. cbn. now rewrite H.
    + intros (before & after & H). destruct before as [| b before].
      * left. exists after. exact H.
      * right. cbn in H. injection H as -> ->. exists before, after. reflexivity.
Qed.

Lemma contains_false (needle s : string) :
  contains needle s = false <-> ~ occurs needle s.
Proof.
  rewrite <- contains_spec. destruct (contains needle s); split; congruence.
Qed.

Lemma string_app_assoc (a b c : string) :
  ((a ++ b) ++ c)%string = (a ++ (b ++ c))%string.
Proof.
  induction a as [| x a IH]; [reflexivity |].
  change (String x ((a ++ b) ++ c) = String x (a ++ (b ++ c)))%string.
  now rewrite IH.
Qed.

Lemma incorrect_has_correct (s : string) :
  occurs "incorrect" s -> occurs "correct" s.
Proof.
  intros (before & after & ->). exists (before ++ "in")%string, after.
  rewrite string_app_assoc. reflexivity.
Qed.

(** C10. On the lowercased text: ["incorrect"] or ["wrong"] gives
    [incorrect], and does so although a text with ["incorrect"] always
    has ["correct"] in it; otherwise ["correct"] without ["partially"]
    gives [correct]; otherwise the verdict is [partially_correct]. *)
Theorem parse_verdict_priority (lower : string -> string) (evaluation_md : string) :
  let text := lower evaluation_md in
  (occurs "incorrect" text \/ occurs "wrong" text ->
     parse_verdict lower evaluation_md = "incorrect"%string) /\
  (occurs "incorrect" text -> occurs "correct" text) /\
  (~ occurs "incorrect" text -> ~ occurs "wrong" text ->
   occurs "correct" text -> ~ occurs "partially" text ->
     parse_verdict lower evaluation_md = "correct"%string) /\
  (~ occurs "incorrect" text -> ~ occurs "wrong" text ->
   ~ occurs "correct" text \/ occurs "partially" text ->
     parse_verdict lower evaluation_md = "partially_correct"%string).
Proof.
  cbn zeta. unfold parse_verdict.
  split; [| split; [apply incorrect_has_correct | split]].
  - intros [H | H]; apply contains_spec in H; rewrite H;
      [reflexivity | now rewrite orb_true_r].
  - intros H1 H2 H3 H4.
    apply contains_false in H1. apply contains_false in H2.
    apply contains_spec in H3. apply contains_false in H4.
    now rewrite H1, H2, H3, H4.
  - intros H1 H2 H3.
    apply contains_false in H1. apply contains_false in H2. rewrite H1, H2.
    destruct H3 as [H3 | H3].
    + apply contains_false in H3. now rewrite H3.
    + apply contains_spec in H3. rewrite H3. now rewrite andb_false_r.
Qed.

Lemma parse_verdict_priority_witness :
  parse_verdict ascii_lower "This solution is Incorrect: it fails on empty input."
  = "incorrect"%string.
Proof.
  apply (parse_verdict_priority ascii_lower
           "This solution is Incorrect: it fails on empty input.").
  left. exists "this solution is "%string, ": it fails on empty input."%string.
  reflexivity.
Defined.

(** ** Mock-session scoring *)

Lemma fold_left_points (problems : list ProblemAttempt.t) (acc : Z) :
  fold_left (fun total p => total + verdict_points (ProblemAttempt.verdict p))
            problems acc
  = acc + points_sum problems.
Proof.
  revert acc. induction problems as [| p rest IH]; intros acc.
  - cbn. lia.
  - cbn [fold_left]. rewrite IH. unfold points_sum. cbn [map fold_right]. lia.
Qed.

Lemma verdict_points_range (v : option string) : 0 <= verdict_points v <= 100.
Proof.
  unfold verdict_points.
  destruct (opt_str_eq v "correct"); [lia |].
  destruct (opt_str_eq v "partially_correct"); lia.
Qed.

Lemma points_sum_range (problems : list ProblemAttempt.t) :
  0 <= points_sum problems <= 100 * Z.of_nat (List.length problems).
Proof.
  induction problems as [| p rest IH].
  - cbn. lia.
  - unfold points_sum in *. cbn [map fold_right List.length].
    pose proof (verdict_points_range (ProblemAttempt.verdict p)).
    rewrite Nat2Z.inj_succ. lia.
Qed.



Lemma find_session_updated (session_id : string) (s s' : MockInterviewSession.t)
    (rows : list MockInterviewSession.t) :
  find (fun r => str_eq (MockInterviewSession.id r) session_id) rows = Some s ->
  MockInterviewSession.id s' = MockInterviewSession.id s ->
  find (fun r => str_eq (MockInterviewSession.id r) session_id)
       (map (fun r => if str_eq (MockInterviewSession.id r) (MockInterviewSession.id s')
                      then s' else r) rows)
  = Some s'.
Proof.
  intros Hfind Hid. rewrite Hid.
  induction rows as [| r rest IH]; [discriminate |].
  cbn [find map] in *.
  destruct (str_eq (MockInterviewSession.id r) session_id) eqn:E.
  - injection Hfind as ->. unfold str_eq in *. rewrite String.eqb_refl.
    rewrite Hid, E. reflexivity.
  - destruct (str_eq (MockInterviewSession.id r) (MockInterviewSession.id s)) eqn:E2.
    + (* a row with the key of [s] that the lookup skipped: impossible *)
      exfalso. apply find_some in Hfind. destruct Hfind as [_ Hs].
      unfold str_eq in *. apply String.eqb_eq in E2, Hs.
      rewrite E2, Hs, String.eqb_refl in E. discriminate.
    + rewrite E. now apply IH.
Qed.




(** ** Weekly activity *)

Lemma us_per_week_value : us_per_week = 604800000000.
Proof. reflexivity. Qed.

Lemma timedelta_one_week : timedelta_weeks 1 = Ok us_per_week.
Proof. reflexivity. Qed.

Lemma next_week current :
  (do delta <- timedelta_weeks 1; datetime_add current delta)
  = if in_range (current + us_per_week) then Ok (current + us_per_week)
    else Raise OverflowError.
Proof. rewrite timedelta_one_week. reflexivity. Qed.

Lemma weeks_between_step current end_date :
  current <= end_date ->
  weeks_between current end_date = S (weeks_between (current + us_per_week) end_date).
Proof.
  intros Hle. unfold weeks_between.
  pose proof us_per_week_value as HW.
  destruct (Z.leb_spec current end_date) as [_ | ?]; [| lia].
  destruct (Z.leb_spec (current + us_per_week) end_date) as [Hn | Hn].
  - replace (end_date - current) with (end_date - (current + us_per_week) + 1 * us_per_week)
      by lia.
    rewrite Z.div_add by lia.
    assert (0 <= (end_date - (current + us_per_week)) / us_per_week)
      by (apply Z.div_pos; lia).
    rewrite <- Z2Nat.inj_succ by lia. f_equal; lia.
  - rewrite Z.div_small by lia. reflexivity.
Qed.

(** The loop stops before the fuel is spent. *)
Lemma fill_weeks_terminates fuel weekly_data current end_date :
  (weeks_between current end_date < fuel)%nat ->
  fill_weeks fuel weekly_data current end_date <> None.
Proof.
  revert current. induction fuel as [| fuel IH]; intros current Hfuel; [lia |].
  cbn [fill_weeks].
  destruct (Z.leb_spec current end_date) as [Hle | Hgt]; [| discriminate].
  rewrite next_week.
  destruct (in_range (current + us_per_week)); [| discriminate].
  rewrite (weeks_between_step current end_date Hle) in Hfuel.
  specialize (IH (current + us_per_week) ltac:(lia)).
  destruct (fill_weeks fuel weekly_data (current + us_per_week) end_date)
    as [[rest | e] |]; congruence.
Qed.

(** Within the range of [datetime] the loop returns one bucket per
    week. *)
Lemma fill_weeks_buckets fuel weekly_data current end_date :
  (weeks_between current end_date < fuel)%nat ->
  0 <= current -> end_date + us_per_week <= datetime_max ->
  fill_weeks fuel weekly_data current end_date
  = Some (Ok (week_buckets (weeks_between current end_date) weekly_data current)).
Proof.
  revert current. induction fuel as [| fuel IH]; intros current Hfuel H0 Hmax; [lia |].
  cbn [fill_weeks].
  destruct (Z.leb_spec current end_date) as [Hle | Hgt].
  - rewrite next_week.
    pose proof us_per_week_value as HW.
    assert (Hr : in_range (current + us_per_week) = true)
      by (apply in_range_spec; lia).
    rewrite Hr, (weeks_between_step current end_date Hle) in *.
    rewrite (IH (current + us_per_week)) by lia. reflexivity.
  - unfold weeks_between. destruct (Z.leb_spec current end_date); [lia | reflexivity].
Qed.

Lemma week_buckets_length n weekly_data current :
  List.length (week_buckets n weekly_data current) = n.
Proof.
  revert current. induction n as [| n IH]; intros current; cbn; [reflexivity |].
  now rewrite IH.
Qed.

Lemma weekday_range t : 0 <= weekday t <= 6.
Proof. unfold weekday. pose proof (Z.mod_pos_bound (toordinal t + 6) 7). lia. Qed.

Lemma week_key_ok created :
  in_range created = true -> 6 * us_per_day <= created ->
  exists key, week_key created = Ok key.
Proof.
  intros Hr Hc. unfold week_key, timedelta_days.
  pose proof (weekday_range created) as Hw.
  destruct (Z.gtb_spec (Z.abs (weekday created)) 999999999) as [? | _]; [lia |].
  cbn [bind]. unfold datetime_sub.
  assert (Hin : in_range (created - weekday created * us_per_day) = true).
  { apply in_range_spec. apply in_range_spec in Hr.
    pose proof us_per_day_value as HD. rewrite HD in *. lia. }
  rewrite Hin. cbn [bind]. eexists. reflexivity.
Qed.

Lemma group_by_week_ok attempts weekly_data :
  Forall (fun a => in_range (ProblemAttempt.created_at a) = true
                   /\ 6 * us_per_day <= ProblemAttempt.created_at a) attempts ->
  exists grouped, group_by_week attempts weekly_data = Ok grouped.
Proof.
  revert weekly_data. induction attempts as [| a rest IH]; intros weekly_data Hall.
  - exists weekly_data. reflexivity.
  - inversion Hall as [| ? ? [Hr Hc] Hrest]; subst.
    destruct (week_key_ok _ Hr Hc) as [key Hkey].
    cbn [group_by_week]. rewrite Hkey. cbn [bind]. apply IH. exact Hrest.
Qed.

Lemma group_by_week_raises attempts weekly_data e :
  group_by_week attempts weekly_data = Raise e -> e = OverflowError.
Proof.
  revert weekly_data. induction attempts as [| a rest IH]; intros weekly_data H.
  - discriminate.
  - cbn [group_by_week] in H.
    destruct (week_key (ProblemAttempt.created_at a)) as [key | e1] eqn:Hk.
    + cbn [bind] in H. now apply IH in H.
    + cbn [bind] in H. injection H as <-.
      unfold week_key, timedelta_days, datetime_sub in Hk.
      destruct (Z.abs _ >? 999999999); cbn [bind] in Hk; [congruence |].
      destruct (in_range _); cbn [bind] in Hk; congruence.
Qed.

Lemma fill_weeks_raises fuel weekly_data current end_date e :
  fill_weeks fuel weekly_data current end_date = Some (Raise e) -> e = OverflowError.
Proof.
  revert current. induction fuel as [| fuel IH]; intros current H; [discriminate |].
  cbn [fill_weeks] in H.
  destruct (current <=? end_date); [| discriminate].
  rewrite next_week in H.
  destruct (in_range (current + us_per_week)); [| congruence].
  destruct (fill_weeks fuel weekly_data (current + us_per_week) end_date)
    as [[rest | e1] |] eqn:Hrec; try discriminate.
  injection H as <-. now apply IH in Hrec.
Qed.

Lemma weeks_fuel_enough start_date end_date :
  (weeks_between start_date end_date < weeks_fuel start_date end_date)%nat.
Proof.
  unfold weeks_between, weeks_fuel. fold us_per_week.
  pose proof us_per_week_value as HW.
  destruct (Z.leb_spec start_date end_date) as [Hle | Hgt]; [| lia].
  assert (0 <= (end_date - start_date) / us_per_week) by (apply Z.div_pos; lia).
  rewrite Z2Nat.inj_add by lia. cbn. lia.
Qed.

(** [get_weekly_activity] always comes to an end. *)
Lemma get_weekly_activity_terminates user_id weeks w :
  snd (get_weekly_activity user_id weeks w) <> None.
Proof.
  unfold get_weekly_activity. cbn [datetime_now].
  destruct (do delta <- timedelta_weeks weeks; datetime_sub (clock w (ticks w)) delta)
    as [start_date | e]; [| discriminate].
  destruct (group_by_week _ ∅) as [weekly_data | e]; [| discriminate].
  cbn [snd]. apply fill_weeks_terminates, weeks_fuel_enough.
Qed.

Lemma get_weekly_activity_raises user_id weeks w e :
  snd (get_weekly_activity user_id weeks w) = Some (Raise e) -> e = OverflowError.
Proof.
  unfold get_weekly_activity. cbn [datetime_now].
  destruct (do delta <- timedelta_weeks weeks; datetime_sub (clock w (ticks w)) delta)
    as [start_date | e1] eqn:Hs.
  - destruct (group_by_week _ ∅) as [weekly_data | e2] eqn:Hg; cbn [snd].
    + apply fill_weeks_raises.
    + intros H. injection H as <-. now apply group_by_week_raises in Hg.
  - cbn [snd]. intros H. injection H as <-.
    unfold timedelta_weeks, timedelta_days, datetime_sub in Hs.
    destruct (Z.abs _ >? 999999999); cbn [bind] in Hs; [congruence |].
    destruct (in_range _); congruence.
Qed.

Lemma get_weekly_activity_world user_id weeks w :
  db (fst (get_weekly_activity user_id weeks w)) = db w.
Proof.
  unfold get_weekly_activity. cbn [datetime_now].
  destruct (do delta <- timedelta_weeks weeks; datetime_sub (clock w (ticks w)) delta);
    [| reflexivity].
  destruct (group_by_week _ ∅); reflexivity.
Qed.

(** The part of C3 that holds: within the range of [datetime], a
    window of [weeks] weeks gives [weeks + 1] buckets, one every seven
    days from [now - weeks] weeks on, each with the count stored under
    its own date, zero when there is none. *)
Lemma get_weekly_activity_dense user_id weeks w :
  let now := clock w (ticks w) in
  let start_date := now - weeks * us_per_week in
  0 <= weeks -> created_in_range (db w) ->
  6 * us_per_day <= start_date -> now + us_per_week <= datetime_max ->
  exists weekly_data,
    group_by_week (in_window user_id start_date (db w)) ∅ = Ok weekly_data /\
    snd (get_weekly_activity user_id weeks w)
    = Some (Ok (week_buckets (Z.to_nat (weeks + 1)) weekly_data start_date)) /\
    List.length (week_buckets (Z.to_nat (weeks + 1)) weekly_data start_date)
    = Z.to_nat (weeks + 1).
Proof.
  intros now start_date Hw Hdb Hstart Hmax.
  pose proof us_per_week_value as HW. pose proof us_per_day_value as HD.
  pose proof datetime_max_value as HM.
  assert (Hdelta : timedelta_weeks weeks = Ok (weeks * us_per_week)).
  { unfold timedelta_weeks, timedelta_days.
    destruct (Z.gtb_spec (Z.abs (7 * weeks)) 999999999) as [H | _];
      [unfold start_date in Hstart; lia |].
    f_equal. unfold us_per_week. ring. }
  assert (Hsub : datetime_sub now (weeks * us_per_week) = Ok start_date).
  { unfold datetime_sub. fold start_date.
    assert (Hr : in_range start_date = true)
      by (apply in_range_spec; unfold start_date in *; lia).
    now rewrite Hr. }
  assert (Hall : Forall (fun a => in_range (ProblemAttempt.created_at a) = true
                                  /\ 6 * us_per_day <= ProblemAttempt.created_at a)
                   (in_window user_id start_date (db w))).
  { unfold in_window. apply Forall_forall. intros a Ha.
    apply filter_In in Ha. destruct Ha as [Hin Hf].
    apply andb_true_iff in Hf. destruct Hf as [_ Hge]. apply Z.leb_le in Hge.
    unfold created_in_range in Hdb. rewrite Forall_forall in Hdb.
    split; [now apply Hdb | lia]. }
  destruct (group_by_week_ok _ ∅ Hall) as [weekly_data Hg].
  exists weekly_data. split; [exact Hg |]. split; [| apply week_buckets_length].
  unfold get_weekly_activity. cbn [datetime_now]. fold now.
  rewrite Hdelta. cbn [bind]. rewrite Hsub. cbn [db].
  fold (in_window user_id start_date (db w)). rewrite Hg. cbn [snd].
  rewrite fill_weeks_buckets; [| apply weeks_fuel_enough | lia | lia].
  do 3 f_equal. unfold weeks_between.
  destruct (Z.leb_spec start_date now) as [_ | Hgt];
    [| unfold start_date in Hgt; lia].
  replace (now - start_date) with (0 + weeks * us_per_week)
    by (unfold start_date; lia).
  rewrite Z.div_add by lia. reflexivity.
Qed.

(** Why the counts are lost: the week an attempt is grouped under
    starts on a Monday, while every bucket has the weekday of the day
    the activity is asked for. *)
Lemma week_start_is_monday (created : datetime) :
  weekday (created - weekday created * us_per_day) = 0.
Proof.
  unfold weekday, toordinal. pose proof us_per_day_value as HD.
  set (w := (created / us_per_day + 1 + 6) mod 7).
  replace (created - w * us_per_day) with (created + (- w) * us_per_day) by lia.
  rewrite Z.div_add by lia.
  replace (created / us_per_day + - w + 1 + 6)
    with (created / us_per_day + 1 + 6 - w) by lia.
  unfold w. rewrite Zminus_mod_idemp_r, Z.sub_diag. reflexivity.
Qed.

Lemma next_week_same_weekday (current : datetime) :
  weekday (current + us_per_week) = weekday current.
Proof.
  unfold weekday, toordinal, us_per_week. pose proof us_per_day_value as HD.
  rewrite Z.div_add by lia.
  replace (current / us_per_day + 7 + 1 + 6)
    with (current / us_per_day + 1 + 6 + 1 * 7) by lia.
  apply Z.mod_add. lia.
Qed.

(** C3 on Wednesday 2024-01-03 with three attempts made the day
    before: the attempts are in the window and their week key is
    Monday 2024-01-01, the buckets are keyed by Wednesdays, and every
    count is 0. *)
Theorem weekly_activity_drops_attempts :
  List.length (in_window "ada" (make 2023 12 27 12 0 0) sample_db) = 3%nat /\
  week_key tuesday = Ok "2024-01-01"%string /\
  weekday (make 2024 1 3 12 0 0) = 2 /\
  snd (get_weekly_activity "ada" 1 (world_2024 sample_db))
  = Some (Ok [{| week := "2023-12-27"; count := 0 |};
              {| week := "2024-01-03"; count := 0 |}]).
Proof. repeat split; vm_compute; reflexivity. Qed.

(** ** The accuracy percentage *)

Lemma f100_is_hundred : Float64.of_int 100 = Ok f100.
Proof. vm_compute. reflexivity. Qed.

Lemma bounded_f100 : bounded 53 1024 m100 (-46) = true.
Proof. reflexivity. Qed.

Lemma sc_scale m e k : sc (m * k) e = k * sc m e.
Proof. unfold sc. ring. Qed.

Lemma sc_zero_le m e : 0 <= m -> -2148 <= e -> 0 <= sc m e.
Proof. intros Hm He. unfold sc. pose proof (pow2_pos (e + 2148) ltac:(lia)). nia. Qed.

Lemma mul_int_100 (ratio : float) (v : Z) :
  pos_result v ratio -> is_finite ratio = true -> v <= sc 1 0 ->
  exists percent vp,
    Float64.mul_int ratio 100 = Ok percent /\ pos_result vp percent /\
    is_finite percent = true /\ vp <= sc 100 0.
Proof.
  intros Hr Hf Hv. unfold Float64.mul_int. rewrite f100_is_hundred. cbn [bind].
  destruct Hr as [Hz | m e Hb Hsc | Hinf]; [| | discriminate].
  - exists (S754_zero false), 0. repeat split; [now apply pr_zero |].
    apply sc_zero_le; lia.
  - pose proof (bounded_inv m e Hb) as (He & _ & _).
    destruct (mul_interval m e m100 (-46) Hb bounded_f100) as (vp & Hvp & _ & Hle).
    assert (Hup : vp <= sc 100 0).
    { apply Hle; [split; lia |].
      change (Zpos m100) with (100 * 2 ^ 46).
      rewrite Z.mul_assoc, sc_shift by lia.
      replace (e + -46 + 46) with e by lia.
      rewrite sc_scale. change (sc 100 0) with (sc (1 * 100) 0).
      rewrite sc_scale. lia. }
    exists (Float64.mul (S754_finite false m e) f100), vp.
    repeat split; auto.
    apply pos_result_finite with (v := vp) (my := 100) (ey := 0); auto;
      [split; lia | lia].
Qed.

Lemma round_half_even_div_range num den k :
  0 <= num -> 0 < den -> num <= k * den ->
  0 <= Float64.round_half_even_div num den <= k.
Proof.
  intros Hn Hd Hk. unfold Float64.round_half_even_div.
  pose proof (Z.div_mod num den ltac:(lia)) as Hdm.
  pose proof (Z.mod_pos_bound num den Hd) as Hmod.
  assert (Hq0 : 0 <= num / den) by (apply Z.div_pos; lia).
  assert (Hqk : num / den <= k) by (apply Z.div_le_upper_bound; lia).
  destruct (Z.compare_spec (2 * (num mod den)) den) as [Heq | Hlt | Hgt].
  - destruct (Z.even (num / den)); [lia |].
    assert (num / den <> k) by nia. lia.
  - lia.
  - assert (num / den <> k) by nia. lia.
Qed.

Lemma round1_total (percent : float) (vp : Z) :
  pos_result vp percent -> is_finite percent = true -> vp <= sc 100 0 ->
  exists r, Float64.round1 percent = Ok r.
Proof.
  intros Hp Hf Hv.
  destruct Hp as [Hz | m e Hb Hsc | Hinf]; [eexists; reflexivity | | discriminate].
  pose proof (bounded_inv m e Hb) as (He & _ & _).
  unfold Float64.round1.
  set (t := match e with
            | Zneg k => Float64.round_half_even_div (10 * Zpos m) (2 ^ Zpos k)
            | _ => 10 * Zpos m * 2 ^ e
            end).
  assert (Ht : 0 <= t <= 1000).
  { subst vp. unfold t. destruct e as [| k | k].
    - apply sc_le_inv in Hv; lia.
    - replace (sc (Zpos m) (Zpos k)) with (sc (Zpos m * 2 ^ Zpos k) 0) in Hv
        by (rewrite sc_shift by lia; reflexivity).
      apply sc_le_inv in Hv; [| lia].
      assert (0 < 2 ^ Zpos k) by (apply pow2_pos; lia). lia.
    - assert (Hp2 : 0 < 2 ^ Zpos k) by (apply pow2_pos; lia).
      apply round_half_even_div_range; [lia | lia |].
      replace (sc 100 0) with (sc (100 * 2 ^ Zpos k) (Zneg k)) in Hv
        by (rewrite sc_shift by lia; f_equal; lia).
      apply sc_le_inv in Hv; lia. }
  destruct (Z.eqb_spec t 0) as [_ | Hne]; [eexists; reflexivity |].
  destruct (int_truediv_interval t 10 100) as (v & x & Hdiv & _ & Hfin & _);
    [lia | lia | lia | lia |].
  unfold Float64.int_truediv in Hdiv. cbn [Z.eqb] in Hdiv.
  destruct (Float64.div (exact_of_Z t) (exact_of_Z 10));
    try discriminate; eexists; reflexivity.
Qed.

(** The accuracy entry is computed without an exception. *)
Lemma accuracy_of_total (correct_attempts total_attempts : Z) :
  0 <= correct_attempts <= total_attempts ->
  exists acc,
    accuracy_of correct_attempts total_attempts = Ok acc /\
    (total_attempts = 0 -> acc = Int 0) /\
    (0 < total_attempts ->
       exists ratio percent rounded,
         Float64.int_truediv correct_attempts total_attempts = Ok ratio /\
         Float64.mul_int ratio 100 = Ok percent /\
         Float64.round1 percent = Ok rounded /\
         acc = Float rounded).
Proof.
  intros Hc. unfold accuracy_of.
  destruct (Z.gtb_spec total_attempts 0) as [Hpos | Hzero].
  - destruct (int_truediv_interval correct_attempts total_attempts 1)
      as (v & ratio & Hdiv & Hres & Hfin & Hv); [lia | lia | lia | lia |].
    destruct (mul_int_100 ratio v Hres Hfin Hv)
      as (percent & vp & Hmul & Hresp & Hfinp & Hvp).
    destruct (round1_total percent vp Hresp Hfinp Hvp) as (rounded & Hround).
    exists (Float rounded). rewrite Hdiv. cbn [bind]. rewrite Hmul. cbn [bind].
    rewrite Hround. cbn [bind]. split; [reflexivity |]. split; [lia |].
    intros _. exists ratio, percent, rounded. auto.
  - exists (Int 0). split; [reflexivity |]. split; [reflexivity | lia].
Qed.

Lemma filter_length_le {A : Type} (f : A -> bool) (l : list A) :
  (List.length (filter f l) <= List.length l)%nat.
Proof.
  induction l as [| x l IH]; cbn; [lia |]. destruct (f x); cbn; lia.
Qed.

(** C8. The accuracy of [get_analytics] is 0 for a user without
    attempts and otherwise [correct / total * 100] rounded to one
    decimal; computing it raises nothing. The handler as a whole always
    comes to an end, raises nothing but the [OverflowError] of a clock
    at the edge of the [datetime] range, hence no division error, and
    answers whenever the clock is at least twelve weeks and six days
    after the first and a week before the last datetime. *)
Theorem get_analytics_accuracy (user_id : string) (w : World) :
  let total := Z.of_nat (List.length (for_user user_id (db w))) in
  let correct :=
    Z.of_nat (List.length
                (filter (fun a => opt_str_eq (ProblemAttempt.verdict a) "correct")
                        (for_user user_id (db w)))) in
  let now := clock w (ticks w) in
  exists acc,
    accuracy_of correct total = Ok acc /\
    (total = 0 -> acc = Int 0) /\
    (0 < total ->
       exists ratio percent rounded,
         Float64.int_truediv correct total = Ok ratio /\
         Float64.mul_int ratio 100 = Ok percent /\
         Float64.round1 percent = Ok rounded /\
         acc = Float rounded) /\
    snd (get_analytics user_id w) <> None /\
    snd (get_analytics user_id w) <> Some (Raise ZeroDivisionError) /\
    (forall e, snd (get_analytics user_id w) = Some (Raise e) -> e = OverflowError) /\
    (forall response,
       snd (get_analytics user_id w) = Some (Ok response) ->
       totalAttempts response = total /\ correctAttempts response = correct /\
       accuracy response = acc) /\
    (created_in_range (db w) ->
     6 * us_per_day <= now - 12 * us_per_week -> now + us_per_week <= datetime_max ->
     exists response, snd (get_analytics user_id w) = Some (Ok response)).
Proof.
  cbn zeta.
  set (total := Z.of_nat (List.length (for_user user_id (db w)))).
  set (correct := Z.of_nat (List.length
                    (filter (fun a => opt_str_eq (ProblemAttempt.verdict a) "correct")
                            (for_user user_id (db w))))).
  assert (Hct : 0 <= correct <= total).
  { unfold correct, total.
    pose proof (filter_length_le
                  (fun a => opt_str_eq (ProblemAttempt.verdict a) "correct")
                  (for_user user_id (db w))). lia. }
  destruct (accuracy_of_total correct total Hct) as (acc & Hacc & Hzero & Hpos).
  exists acc. split; [exact Hacc |]. split; [exact Hzero |]. split; [exact Hpos |].
  pose proof (get_weekly_activity_terminates user_id 12 w) as Hterm.
  pose proof (get_weekly_activity_raises user_id 12 w) as Hraise.
  pose proof (get_weekly_activity_world user_id 12 w) as Hworld.
  assert (Hshape :
    snd (get_analytics user_id w)
    = match snd (get_weekly_activity user_id 12 w) with
      | None => None
      | Some (Raise e) => Some (Raise e)
      | Some (Ok weekly_activity) =>
          Some (Ok {| totalAttempts := total; correctAttempts := correct;
                      accuracy := acc;
                      patternStats := get_pattern_stats (db w) user_id;
                      difficultyStats := get_difficulty_stats (db w) user_id;
                      weeklyActivity := weekly_activity |})
      end).
  { unfold get_analytics.
    destruct (get_weekly_activity user_id 12 w) as [w1 weekly].
    cbn [fst snd] in *. destruct weekly as [[weekly_activity | e] |]; try reflexivity.
    rewrite Hworld. fold total. fold correct. rewrite Hacc. reflexivity. }
  rewrite Hshape.
  destruct (snd (get_weekly_activity user_id 12 w)) as [[weekly_activity | e] |] eqn:Hw.
  - split; [discriminate |]. split; [discriminate |]. split; [discriminate |].
    split.
    + intros response H. injection H as <-. auto.
    + intros _ _ _. eexists. reflexivity.
  - specialize (Hraise e eq_refl). subst e.
    split; [discriminate |]. split; [discriminate |].
    split; [intros e H; now injection H as <- |].
    split; [discriminate |].
    intros Hdb Hlo Hhi.
    destruct (get_weekly_activity_dense user_id 12 w ltac:(lia) Hdb Hlo Hhi)
      as (weekly_data & _ & Hres & _).
    rewrite Hres in Hw. discriminate.
  - congruence.
Qed.

(** Three attempts of which one is correct: 33.3 percent. *)
Lemma get_analytics_accuracy_witness :
  exists response,
    snd (get_analytics "ada" (world_2024 sample_db)) = Some (Ok response) /\
    totalAttempts response = 3 /\ accuracy response = Float f33_3.
Proof.
  destruct (get_analytics_accuracy "ada" (world_2024 sample_db))
    as (acc & Hacc & _ & _ & _ & _ & _ & Hresp & Hok).
  destruct Hok as [response Hr].
  - unfold created_in_range. cbn [world_2024 db sample_db problem_attempts].
    repeat constructor.
  - vm_compute. discriminate.
  - vm_compute. discriminate.
  - exists response. split; [exact Hr |].
    destruct (Hresp response Hr) as (Ht & _ & Ha).
    split; [rewrite Ht; reflexivity |].
    rewrite Ha. vm_compute in Hacc. injection Hacc as <-. reflexivity.
Defined.

(** ** Saving an attempt *)

Lemma update_attempt_last (a a' : ProblemAttempt.t) (rows : list ProblemAttempt.t) :
  ProblemAttempt.id a' = ProblemAttempt.id a ->
  In a' (update_attempt a' (rows ++ [a])).
Proof.
  intros Hid. unfold update_attempt. rewrite map_app. apply in_or_app. right.
  cbn [map]. rewrite Hid, Z.eqb_refl. now left.
Qed.

(** What [save_attempt] leaves in the table for a request that SQLite
    can store: the first review is scheduled one day after the save,
    two days when the verdict is [correct]. *)
Lemma save_attempt_next_review (req : SaveAttemptRequest.t) (w : World) :
  let scheduled_at := clock w (S (S (ticks w))) in
  let days := if str_eq (SaveAttemptRequest.verdict req) "correct" then 2 else 1 in
  sqlite_integer (SaveAttemptRequest.hintsUsed req) = true ->
  in_range scheduled_at = true ->
  in_range (scheduled_at + days * us_per_day) = true ->
  exists a,
    snd (save_attempt req w) = Ok (ProblemAttempt.id a) /\
    In a (problem_attempts (db (fst (save_attempt req w)))) /\
    ProblemAttempt.next_review_at a = Some (scheduled_at + days * us_per_day).
Proof.
  intros scheduled_at days Hint Hnow Hnext.
  unfold save_attempt. rewrite Hint. cbn [negb datetime_now clock ticks db].
  set (rows := problem_attempts (db w)).
  set (a0 := ProblemAttempt.mk _ _ _ _ _ _ _ _ _ _ _ _ _ _ _ _ _ _ _).
  set (w2 := commit _ _).
  assert (Hok : review_state_ok a0) by (split; [cbn; lia | reflexivity]).
  assert (Hvals : exists ne, new_review_values a0 (str_eq (SaveAttemptRequest.verdict req) "correct")
                             = Ok (days, ne)).
  { unfold days. destruct (str_eq (SaveAttemptRequest.verdict req) "correct");
      eexists; vm_compute; reflexivity. }
  destruct Hvals as [ne Hvals].
  rewrite (calculate_next_review_returns a0 _ w2 days ne Hok Hnow Hvals Hnext).
  cbn [fst snd].
  eexists. split; [reflexivity |]. split.
  - cbn [commit db set_problem_attempts problem_attempts datetime_now w2].
    apply update_attempt_last. reflexivity.
  - reflexivity.
Qed.

(** C2 on Wednesday 2024-01-03: an attempt saved with verdict
    [correct] is stored with its first review two days ahead, and the
    due-review selection made right after the save is empty. *)
Theorem save_attempt_schedules_later :
  snd (save_attempt (sample_request "correct") (world_2024 empty_db)) = Ok 1 /\
  map ProblemAttempt.next_review_at
    (problem_attempts
       (db (fst (save_attempt (sample_request "correct") (world_2024 empty_db)))))
  = [Some (make 2024 1 5 12 0 2)] /\
  snd (get_due_problems "ada" 10
         (fst (save_attempt (sample_request "correct") (world_2024 empty_db))))
  = [].
Proof. repeat split; vm_compute; reflexivity. Qed.

(** ** The review state of the stored attempts *)

Lemma update_attempt_ok (a : ProblemAttempt.t) (rows : list ProblemAttempt.t) :
  review_state_ok a -> Forall review_state_ok rows ->
  Forall review_state_ok (update_attempt a rows).
Proof.
  intros Ha Hrows. unfold update_attempt. apply Forall_forall. intros r Hr.
  apply in_map_iff in Hr. destruct Hr as (r0 & <- & Hin).
  destruct (ProblemAttempt.id r0 =? ProblemAttempt.id a); [exact Ha |].
  rewrite Forall_forall in Hrows. now apply Hrows.
Qed.

(** A completed review, whether it succeeds or raises, leaves every
    stored attempt with an interval of at least 1 and an ease in
    [1.3, 2.5]. *)
Lemma complete_review_keeps_review_state (attempt_id : Z) (was_correct : bool)
    (w : World) :
  stored_review_state_ok (db w) ->
  stored_review_state_ok (db (fst (complete_review attempt_id was_correct w))).
Proof.
  intros Hdb. unfold complete_review.
  destruct (sqlite_integer attempt_id); cbn [negb]; [| exact Hdb].
  destruct (find_attempt attempt_id (db w)) as [attempt |] eqn:Hfind; [| exact Hdb].
  assert (Ha : review_state_ok attempt).
  { unfold find_attempt in Hfind. apply find_some in Hfind.
    unfold stored_review_state_ok in Hdb. rewrite Forall_forall in Hdb.
    apply Hdb, Hfind. }
  pose proof (review_state_after attempt was_correct w Ha) as Hafter.
  pose proof (calculate_next_review_frame_db attempt was_correct w) as Hframe.
  destruct (calculate_next_review attempt was_correct w) as [[w1 a1] r].
  unfold attempt_after, world_after in *. cbn [fst snd] in *.
  destruct r as [next | e]; cbn [fst].
  - cbn [commit db set_problem_attempts problem_attempts].
    unfold stored_review_state_ok. rewrite Hframe.
    now apply update_attempt_ok.
  - unfold stored_review_state_ok. now rewrite Hframe.
Qed.

(** So does saving an attempt. *)
Lemma save_attempt_keeps_review_state (req : SaveAttemptRequest.t) (w : World) :
  stored_review_state_ok (db w) ->
  stored_review_state_ok (db (fst (save_attempt req w))).
Proof.
  intros Hdb. unfold save_attempt.
  destruct (sqlite_integer (SaveAttemptRequest.hintsUsed req));
    cbn [negb datetime_now clock ticks db]; [| exact Hdb].
  set (a0 := ProblemAttempt.mk _ _ _ _ _ _ _ _ _ _ _ _ _ _ _ _ _ _ _).
  set (w2 := commit _ _).
  assert (Hok : review_state_ok a0) by (split; [cbn; lia | reflexivity]).
  assert (Hrows : Forall review_state_ok (problem_attempts (db w2))).
  { unfold w2. cbn [commit db set_problem_attempts problem_attempts].
    apply Forall_app. split; [exact Hdb | now constructor]. }
  pose proof (review_state_after a0 (str_eq (SaveAttemptRequest.verdict req) "correct") w2 Hok)
    as Hafter.
  pose proof (calculate_next_review_frame_db a0 (str_eq (SaveAttemptRequest.verdict req) "correct") w2)
    as Hframe.
  destruct (calculate_next_review a0 (str_eq (SaveAttemptRequest.verdict req) "correct") w2)
    as [[w3 a1] r].
  unfold attempt_after, world_after in *. cbn [fst snd] in *.
  destruct r as [next | e]; cbn [fst].
  - cbn [commit db set_problem_attempts problem_attempts].
    unfold stored_review_state_ok. rewrite Hframe.
    now apply update_attempt_ok.
  - unfold stored_review_state_ok. now rewrite Hframe.
Qed.

(** * Further properties of the code *)

(** ** The review queue *)

Lemma str_eq_spec (a b : string) : str_eq a b = true <-> a = b.
Proof. unfold str_eq. apply String.eqb_eq. Qed.

Lemma is_due_spec user_id now a :
  is_due user_id now a = true <-> due_at user_id now a.
Proof.
  unfold is_due, due_at. rewrite andb_true_iff, str_eq_spec.
  destruct (ProblemAttempt.next_review_at a) as [t |].
  - rewrite Z.leb_le. split.
    + intros [H1 H2]. split; [exact H1 |]. now exists t.
    + intros [H1 (t' & Ht & Hle)]. injection Ht as <-. now split.
  - split; [intros [_ H]; discriminate |].
    intros [_ (t & Ht & _)]. discriminate.
Qed.

Lemma insert_by_review_perm a l :
  Permutation (insert_by_review a l) (a :: l).
Proof.
  induction l as [| b l IH]; cbn; [reflexivity |].
  destruct (review_key a <? review_key b); [reflexivity |].
  rewrite IH. apply perm_swap.
Qed.

Lemma order_by_next_review_perm l :
  Permutation (order_by_next_review l) l.
Proof.
  unfold order_by_next_review. rewrite (Permutation_rev l) at 2.
  induction (rev l) as [| a r IH]; cbn; [reflexivity |].
  rewrite insert_by_review_perm. now constructor.
Qed.

Lemma insert_by_review_sorted a l :
  StronglySorted (fun x y => review_key x <= review_key y) l ->
  StronglySorted (fun x y => review_key x <= review_key y) (insert_by_review a l).
Proof.
  induction l as [| b l IH]; intros Hs; cbn.
  - constructor; constructor.
  - inversion Hs as [| ? ? Hl Hb]; subst.
    destruct (review_key a <? review_key b) eqn:Hlt.
    + apply Z.ltb_lt in Hlt. constructor; [exact Hs |].
      constructor; [lia |].
      eapply Forall_impl; [| exact Hb]. cbn. intros; lia.
    + apply Z.ltb_ge in Hlt. constructor; [now apply IH |].
      eapply Permutation_Forall; [symmetry; apply insert_by_review_perm |].
      now constructor.
Qed.

Lemma order_by_next_review_sorted l :
  StronglySorted (fun x y => review_key x <= review_key y) (order_by_next_review l).
Proof.
  unfold order_by_next_review.
  induction (rev l) as [| a r IH]; cbn; [constructor |].
  now apply insert_by_review_sorted.
Qed.

Lemma StronglySorted_firstn {A} (R : A -> A -> Prop) n l :
  StronglySorted R l -> StronglySorted R (firstn n l).
Proof.
  revert l. induction n as [| n IH]; intros l Hs; [constructor |].
  destruct l as [| a l]; [constructor |]. cbn.
  inversion Hs; subst. constructor; [now apply IH |].
  now apply Forall_take.
Qed.

Lemma StronglySorted_app_le {A} (R : A -> A -> Prop) l1 l2 x y :
  StronglySorted R (l1 ++ l2) -> In x l1 -> In y l2 -> R x y.
Proof.
  induction l1 as [| a l1 IH]; cbn; intros Hs Hx Hy; [contradiction |].
  inversion Hs as [| ? ? Hl Ha]; subst. destruct Hx as [-> | Hx].
  - rewrite Forall_forall in Ha. apply Ha, in_or_app. now right.
  - now apply IH.
Qed.

Lemma sql_limit_split {A} (n : Z) (l : list A) :
  exists rest, l = sql_limit n l ++ rest.
Proof.
  unfold sql_limit. destruct (n <? 0).
  - exists []. now rewrite app_nil_r.
  - exists (skipn (Z.to_nat n) l). symmetry. apply firstn_skipn.
Qed.

Lemma sql_limit_length {A} (n : Z) (l : list A) :
  n < 0 \/ Z.of_nat (List.length (sql_limit n l)) <= n.
Proof.
  unfold sql_limit. destruct (n <? 0) eqn:Hn.
  - left. now apply Z.ltb_lt.
  - right. apply Z.ltb_ge in Hn. rewrite length_firstn. lia.
Qed.

Lemma review_key_due user_id now a b :
  due_at user_id now a -> due_at user_id now b ->
  review_key a <= review_key b -> review_before a b.
Proof.
  intros [_ (ta & Ha & _)] [_ (tb & Hb & _)]. unfold review_key, review_before.
  now rewrite Ha, Hb.
Qed.

Lemma get_due_problems_sorted_filter user_id limit w :
  exists rest,
    snd (get_due_problems user_id limit w) ++ rest
    = order_by_next_review
        (filter (is_due user_id (clock w (ticks w))) (problem_attempts (db w))).
Proof.
  unfold get_due_problems. cbn [datetime_now snd db].
  destruct (sql_limit_split limit
              (order_by_next_review
                 (filter (is_due user_id (clock w (ticks w)))
                         (problem_attempts (db w))))) as [rest Hrest].
  exists rest. now rewrite <- Hrest.
Qed.

Lemma in_due_queue user_id w a :
  In a (order_by_next_review
          (filter (is_due user_id (clock w (ticks w))) (problem_attempts (db w))))
  <-> In a (problem_attempts (db w)) /\ due_at user_id (clock w (ticks w)) a.
Proof.
  rewrite <- is_due_spec, <- filter_In.
  split; apply Permutation_in;
    [apply order_by_next_review_perm | symmetry; apply order_by_next_review_perm].
Qed.

(** X1. [get_due_problems] only reads the tables; every attempt it
    returns is a stored attempt of the user whose review time has
    come, the attempts come earliest review first, and there are at
    most [limit] of them unless [limit] is negative. *)
Theorem get_due_problems_sound (user_id : string) (limit : Z) (w : World) :
  let due := snd (get_due_problems user_id limit w) in
  Forall (fun a => In a (problem_attempts (db w))
                   /\ due_at user_id (clock w (ticks w)) a) due
  /\ StronglySorted review_before due
  /\ (limit < 0 \/ Z.of_nat (List.length due) <= limit)
  /\ db (fst (get_due_problems user_id limit w)) = db w.
Proof.
  intros due.
  destruct (get_due_problems_sorted_filter user_id limit w) as [rest Hrest].
  fold due in Hrest.
  assert (Hall : Forall (fun a => In a (problem_attempts (db w))
                   /\ due_at user_id (clock w (ticks w)) a) due).
  { apply Forall_forall. intros a Ha. apply in_due_queue.
    rewrite <- Hrest. apply in_or_app. now left. }
  split; [exact Hall |]. split; [| split].
  - pose proof (order_by_next_review_sorted
                  (filter (is_due user_id (clock w (ticks w)))
                          (problem_attempts (db w)))) as Hs.
    rewrite <- Hrest in Hs. clear Hrest.
    induction due as [| a due IH]; [constructor |].
    inversion Hall as [| ? ? Ha Hdue]; subst.
    cbn in Hs. inversion Hs as [| ? ? Hs' Hle]; subst.
    constructor; [now apply IH |].
    rewrite Forall_forall in Hdue, Hle. apply Forall_forall. intros b Hb.
    apply (review_key_due user_id (clock w (ticks w))); [apply Ha | now apply Hdue |].
    apply Hle, in_or_app. now left.
  - unfold due, get_due_problems. cbn [datetime_now snd]. apply sql_limit_length.
  - reflexivity.
Qed.

(** X2. [get_due_problems] leaves out no more urgent attempt: a stored
    attempt of the user that is due is either returned or scheduled no
    earlier than every attempt that is returned. *)
Theorem get_due_problems_most_overdue (user_id : string) (limit : Z) (w : World)
    (a : ProblemAttempt.t) :
  In a (problem_attempts (db w)) ->
  is_due user_id (clock w (ticks w)) a = true ->
  In a (snd (get_due_problems user_id limit w))
  \/ Forall (fun b => review_before b a) (snd (get_due_problems user_id limit w)).
Proof.
  intros Hin Hdue. apply is_due_spec in Hdue.
  destruct (get_due_problems_sorted_filter user_id limit w) as [rest Hrest].
  assert (Ha : In a (snd (get_due_problems user_id limit w) ++ rest))
    by (rewrite Hrest; now apply in_due_queue).
  apply in_app_or in Ha. destruct Ha as [Ha | Ha]; [now left | right].
  apply Forall_forall. intros b Hb.
  assert (Hbdue : due_at user_id (clock w (ticks w)) b).
  { apply (in_due_queue user_id w b). rewrite <- Hrest. apply in_or_app. now left. }
  apply (review_key_due user_id (clock w (ticks w))); [exact Hbdue | exact Hdue |].
  apply (StronglySorted_app_le (fun x y => review_key x <= review_key y)
           (snd (get_due_problems user_id limit w)) rest b a); [| exact Hb | exact Ha].
  rewrite Hrest. apply order_by_next_review_sorted.
Qed.

Lemma get_due_problems_most_overdue_witness :
  In (scheduled_attempt 1 tuesday)
     (snd (get_due_problems "ada" 1 (world_2024 review_db)))
  \/ Forall (fun b => review_before b (scheduled_attempt 1 tuesday))
            (snd (get_due_problems "ada" 1 (world_2024 review_db))).
Proof.
  apply get_due_problems_most_overdue.
  - simpl. left. reflexivity.
  - vm_compute. reflexivity.
Defined.

(** ** The analytics counters *)

Lemma pattern_uses_app pattern sel l1 l2 :
  pattern_uses pattern sel (l1 ++ l2)
  = pattern_uses pattern sel l1 + pattern_uses pattern sel l2.
Proof. induction l1 as [| a l1 IH]; cbn; [reflexivity | rewrite IH; lia]. Qed.

Lemma pattern_uses_nonneg pattern sel l : 0 <= pattern_uses pattern sel l.
Proof. induction l as [| a l IH]; cbn; [lia |]. destruct (sel a); lia. Qed.

Lemma add_uses_add n m v o :
  0 <= n -> 0 <= m -> add_uses n v (add_uses m v o) = add_uses (m + n) v o.
Proof.
  intros Hn Hm. unfold add_uses.
  destruct (Z.eqb_spec m 0) as [-> | Hm0].
  - reflexivity.
  - destruct (Z.eqb_spec n 0) as [-> | Hn0].
    + rewrite Z.add_0_r. destruct (Z.eqb_spec m 0); [contradiction | reflexivity].
    + destruct (Z.eqb_spec (m + n) 0); [lia |]. f_equal.
      destruct (opt_str_eq v "correct"), (opt_str_eq v "incorrect"); simpl;
        f_equal; lia.
Qed.

Lemma add_uses_one v o :
  add_uses 1 v o = Some (count_pattern v (default (PatternStat.mk 0 0 0 0) o)).
Proof.
  unfold add_uses, count_pattern. cbn [Z.eqb].
  destruct (opt_str_eq v "correct"), (opt_str_eq v "incorrect"); cbn [negb andb];
    f_equal; f_equal; lia.
Qed.

(** The inner loop, over the patterns of one attempt. *)
Lemma count_patterns_lookup v (ps : list string) (stats : gmap string PatternStat.t)
    (pattern : string) :
  fold_left
    (fun stats pattern =>
       let s := default (PatternStat.mk 0 0 0 0) (stats !! pattern) in
       <[pattern := count_pattern v s]> stats) ps stats !! pattern
  = add_uses (Z.of_nat (count_occ string_dec ps pattern)) v (stats !! pattern).
Proof.
  revert stats. induction ps as [| q ps IH]; intros stats; [reflexivity |].
  cbn [fold_left]. rewrite IH. cbn zeta. rewrite lookup_insert.
  destruct (decide (q = pattern)) as [-> | Hne].
  - rewrite count_occ_cons_eq by reflexivity.
    rewrite <- add_uses_one, add_uses_add by lia. f_equal. lia.
  - now rewrite count_occ_cons_neq by exact Hne.
Qed.

Lemma pattern_uses_le pattern sel l :
  pattern_uses pattern sel l <= pattern_uses pattern (fun _ => true) l.
Proof. induction l as [| b l IH]; cbn; [lia |]. destruct (sel b); lia. Qed.

Lemma correct_not_incorrect a : is_correct a = true -> is_incorrect a = false.
Proof.
  unfold is_correct, is_incorrect, opt_str_eq.
  destruct (ProblemAttempt.verdict a) as [v |]; [| reflexivity].
  intros H. apply String.eqb_eq in H. now subst v.
Qed.

Lemma add_uses_stat pattern l a o :
  pattern_stat_of pattern l o ->
  pattern_stat_of pattern (l ++ [a])
    (add_uses (Z.of_nat (count_occ string_dec (ProblemAttempt.patterns a) pattern))
       (ProblemAttempt.verdict a) o).
Proof.
  intros Ho. unfold pattern_stat_of, add_uses in *.
  rewrite !pattern_uses_app. cbn [pattern_uses].
  change (opt_str_eq (ProblemAttempt.verdict a) "correct") with (is_correct a).
  change (opt_str_eq (ProblemAttempt.verdict a) "incorrect") with (is_incorrect a).
  pose proof (pattern_uses_nonneg pattern is_correct l).
  pose proof (pattern_uses_nonneg pattern is_incorrect l).
  pose proof (pattern_uses_nonneg pattern
                (fun a => negb (is_correct a) && negb (is_incorrect a)) l).
  pose proof (pattern_uses_le pattern is_correct l).
  pose proof (pattern_uses_le pattern is_incorrect l).
  pose proof (pattern_uses_le pattern
                (fun a => negb (is_correct a) && negb (is_incorrect a)) l).
  assert (Hn : 0 <= Z.of_nat (count_occ string_dec (ProblemAttempt.patterns a) pattern))
    by lia.
  revert Hn.
  generalize (Z.of_nat (count_occ string_dec (ProblemAttempt.patterns a) pattern)).
  intros n Hn. pose proof (correct_not_incorrect a) as Hex.
  destruct (Z.eqb_spec n 0) as [Hn0 | Hn0].
  - subst n. destruct o as [s |];
      destruct (is_correct a), (is_incorrect a); cbn [negb andb];
      try (specialize (Hex eq_refl); discriminate); lia.
  - destruct o as [s |]; simpl;
      destruct (is_correct a), (is_incorrect a); cbn [negb andb];
      try (specialize (Hex eq_refl); discriminate); lia.
Qed.

(** X3. [get_pattern_stats] counts uses: the entry of a pattern exists
    exactly when some attempt of the user lists the pattern, its
    [total] is the number of times the user's attempts list it (an
    attempt with several patterns counts once for each), and [correct],
    [incorrect] and [partial] split that total by verdict, every
    verdict other than ["correct"] and ["incorrect"] counting as
    partial. *)
Theorem get_pattern_stats_counts (d : Db) (user_id pattern : string) :
  pattern_stat_of pattern (for_user user_id d)
    (get_pattern_stats d user_id !! pattern).
Proof.
  unfold get_pattern_stats.
  induction (for_user user_id d) as [| a l IH] using rev_ind.
  - cbn. now rewrite lookup_empty.
  - rewrite fold_left_app. cbn [fold_left].
    rewrite count_patterns_lookup. now apply add_uses_stat.
Qed.

Lemma difficulty_uses_cons label sel a l :
  difficulty_uses label sel (a :: l)
  = (if str_eq (ProblemAttempt.difficulty a) label && sel a then 1 else 0)
    + difficulty_uses label sel l.
Proof.
  unfold difficulty_uses. cbn [filter].
  destruct (str_eq (ProblemAttempt.difficulty a) label && sel a);
    cbn [List.length]; lia.
Qed.

(** The loop of [get_difficulty_stats], from any table of counters. *)
Lemma count_difficulties_lookup (l : list ProblemAttempt.t)
    (stats : gmap string DifficultyStat.t) (label : string) :
  fold_left
    (fun stats attempt =>
       match stats !! ProblemAttempt.difficulty attempt with
       | Some s =>
           <[ProblemAttempt.difficulty attempt :=
               DifficultyStat.mk
                 (DifficultyStat.total s + 1)
                 (if opt_str_eq (ProblemAttempt.verdict attempt) "correct"
                  then DifficultyStat.correct s + 1
                  else DifficultyStat.correct s)]> stats
       | None => stats
       end) l stats !! label
  = match stats !! label with
    | Some s =>
        Some (DifficultyStat.mk
                (DifficultyStat.total s + difficulty_uses label (fun _ => true) l)
                (DifficultyStat.correct s + difficulty_uses label is_correct l))
    | None => None
    end.
Proof.
  revert stats. induction l as [| a l IH]; intros stats.
  - unfold difficulty_uses. cbn.
    destruct (stats !! label) as [[t c] |]; [| reflexivity].
    cbn. now rewrite !Z.add_0_r.
  - cbn [fold_left]. rewrite IH. clear IH. rewrite !difficulty_uses_cons.
    destruct (str_eq (ProblemAttempt.difficulty a) label) eqn:Heq.
    + apply str_eq_spec in Heq. rewrite Heq.
      destruct (stats !! label) as [[t c] |] eqn:Hs; [| now rewrite Hs].
      rewrite lookup_insert_eq. cbn [andb DifficultyStat.total DifficultyStat.correct].
      unfold is_correct.
      destruct (opt_str_eq (ProblemAttempt.verdict a) "correct");
        apply f_equal; apply f_equal2; lia.
    + assert (Hne : ProblemAttempt.difficulty a <> label).
      { intros H. apply str_eq_spec in H. congruence. }
      cbn [andb]. rewrite !Z.add_0_l.
      destruct (stats !! ProblemAttempt.difficulty a) as [s |]; [| reflexivity].
      now rewrite lookup_insert_ne by exact Hne.
Qed.

(** X4. [get_difficulty_stats] has exactly the entries ["Easy"],
    ["Medium"] and ["Hard"]; each holds the number of the user's
    attempts with that difficulty label and how many of them have the
    verdict ["correct"]. Attempts with any other label are counted
    nowhere. *)
Theorem get_difficulty_stats_counts (d : Db) (user_id label : string) :
  get_difficulty_stats d user_id !! label
  = if str_eq label "Easy" || str_eq label "Medium" || str_eq label "Hard"
    then Some (DifficultyStat.mk
                 (difficulty_uses label (fun _ => true) (for_user user_id d))
                 (difficulty_uses label is_correct (for_user user_id d)))
    else None.
Proof.
  unfold get_difficulty_stats. cbn zeta. rewrite count_difficulties_lookup.
  rewrite !lookup_insert, lookup_empty. unfold str_eq.
  destruct (String.eqb_spec label "Easy") as [-> | H1]; [reflexivity |].
  destruct (decide ("Easy"%string = label)) as [<- | _]; [contradiction |].
  destruct (String.eqb_spec label "Medium") as [-> | H2]; [reflexivity |].
  destruct (decide ("Medium"%string = label)) as [<- | _]; [contradiction |].
  destruct (String.eqb_spec label "Hard") as [-> | H3]; [reflexivity |].
  destruct (decide ("Hard"%string = label)) as [<- | _]; [contradiction |].
  reflexivity.
Qed.

(** ** The stored attempts *)

Lemma new_review_values_wrong a e : new_review_values a false <> Raise e.
Proof. discriminate. Qed.

(** The three ways [calculate_next_review] ends: before any
    assignment, after the interval and the ease were assigned, or with
    all three fields assigned. *)
Lemma calculate_next_review_cases a wc w :
  (exists e, calculate_next_review a wc w = (w, a, Raise e))
  \/ (exists ni ne e,
        calculate_next_review a wc w
        = (snd (datetime_now w),
           ProblemAttempt.set_ease_factor ne
             (ProblemAttempt.set_review_interval_days ni a),
           Raise e))
  \/ (exists ni ne next,
        calculate_next_review a wc w
        = (snd (datetime_now w),
           ProblemAttempt.set_next_review_at (Some next)
             (ProblemAttempt.set_ease_factor ne
                (ProblemAttempt.set_review_interval_days ni a)),
           Ok next)).
Proof.
  destruct (new_review_values a wc) as [[ni ne] | e] eqn:Hv.
  - rewrite (calculate_next_review_values a wc w ni ne Hv). cbn zeta.
    destruct (plus_days (clock w (ticks w)) ni) as [next | e].
    + right. right. now exists ni, ne, next.
    + right. left. now exists ni, ne, e.
  - left. exists e. now apply calculate_next_review_raise.
Qed.

Lemma find_attempt_update (a : ProblemAttempt.t) (rows : list ProblemAttempt.t)
    (k : Z) :
  find (fun r => ProblemAttempt.id r =? k) (update_attempt a rows)
  = if ProblemAttempt.id a =? k
    then match find (fun r => ProblemAttempt.id r =? k) rows with
         | Some _ => Some a
         | None => None
         end
    else find (fun r => ProblemAttempt.id r =? k) rows.
Proof.
  unfold update_attempt. induction rows as [| r rows IH]; cbn [map find].
  - now destruct (ProblemAttempt.id a =? k).
  - destruct (Z.eqb_spec (ProblemAttempt.id r) (ProblemAttempt.id a)) as [Hra | Hra].
    + rewrite Hra. destruct (ProblemAttempt.id a =? k) eqn:Hak; [reflexivity |].
      exact IH.
    + destruct (Z.eqb_spec (ProblemAttempt.id a) k) as [Hak | Hak].
      * destruct (Z.eqb_spec (ProblemAttempt.id r) k) as [Hrk | Hrk]; [lia |].
        exact IH.
      * destruct (ProblemAttempt.id r =? k); [reflexivity | exact IH].
Qed.

Lemma update_attempt_length a rows :
  List.length (update_attempt a rows) = List.length rows.
Proof. unfold update_attempt. apply length_map. Qed.

Lemma find_attempt_id k d a :
  find_attempt k d = Some a -> ProblemAttempt.id a = k.
Proof.
  unfold find_attempt. intros H. apply find_some in H. destruct H as [_ H].
  now apply Z.eqb_eq in H.
Qed.

Lemma new_review_values_ease a wc ni ne :
  new_review_values a wc = Ok (ni, ne) ->
  ne = if wc then ease_after_correct (ProblemAttempt.ease_factor a)
       else ease_after_wrong (ProblemAttempt.ease_factor a).
Proof.
  destruct wc; intros H.
  - apply new_review_values_true_inv in H. destruct H as (p & _ & _ & ->).
    reflexivity.
  - unfold new_review_values in H. injection H as _ <-. reflexivity.
Qed.

(** X5. [complete_review] rewrites one row. When it answers, the
    attempt stored under [attempt_id] carries the announced review
    time and interval and the new ease factor, and is otherwise the
    attempt it was; when it raises, the tables are as before, and the
    error is [OverflowError] for an id that is no signed 64-bit
    integer and the 404 for any other id that is not stored. In all
    cases every other attempt, the number of attempts, the bookmarks
    and the sessions are untouched. *)
Theorem complete_review_updates_one_row (attempt_id : Z) (was_correct : bool)
    (w : World) :
  let w' := fst (complete_review attempt_id was_correct w) in
  match snd (complete_review attempt_id was_correct w) with
  | Ok resp =>
      exists a a',
        sqlite_integer attempt_id = true /\
        find_attempt attempt_id (db w) = Some a /\
        get_attempt attempt_id (db w') = Ok a' /\
        same_but_review a' a /\
        ProblemAttempt.next_review_at a' = Some (nextReviewAt resp) /\
        ProblemAttempt.review_interval_days a' = intervalDays resp /\
        ProblemAttempt.ease_factor a'
        = (if was_correct
           then ease_after_correct (ProblemAttempt.ease_factor a)
           else ease_after_wrong (ProblemAttempt.ease_factor a))
  | Raise e =>
      db w' = db w /\
      (sqlite_integer attempt_id = false -> e = OverflowError /\ w' = w) /\
      (sqlite_integer attempt_id = true ->
       find_attempt attempt_id (db w) = None ->
       e = not_found "Attempt not found" /\ w' = w)
  end
  /\ (forall k, k <> attempt_id -> find_attempt k (db w') = find_attempt k (db w))
  /\ List.length (problem_attempts (db w')) = List.length (problem_attempts (db w))
  /\ bookmarks (db w') = bookmarks (db w)
  /\ mock_interview_sessions (db w') = mock_interview_sessions (db w).
Proof.
  unfold complete_review.
  destruct (sqlite_integer attempt_id) eqn:Hint; cbn [negb].
  2:{ cbn [fst snd]. repeat split; try reflexivity. discriminate. }
  destruct (find_attempt attempt_id (db w)) as [a |] eqn:Hfind.
  2:{ cbn [fst snd]. repeat split; try reflexivity. discriminate. }
  pose proof (find_attempt_id _ _ _ Hfind) as Hid.
  destruct (new_review_values a was_correct) as [[ni ne] | e] eqn:Hv.
  2:{ rewrite (calculate_next_review_raise a was_correct w e Hv). cbn [fst snd].
      repeat split; try reflexivity; discriminate. }
  rewrite (calculate_next_review_values a was_correct w ni ne Hv). cbn zeta.
  destruct (plus_days (clock w (ticks w)) ni) as [next | e];
    cbn [fst snd datetime_now commit db set_problem_attempts problem_attempts
         bookmarks mock_interview_sessions].
  2:{ repeat split; try reflexivity; discriminate. }
  split; [| split; [| split; [| split]]]; try reflexivity.
  - eexists a, _. split; [reflexivity |]. split; [reflexivity |].
    unfold get_attempt, find_attempt. rewrite Hint. cbn [negb].
    cbn [problem_attempts set_problem_attempts]. rewrite find_attempt_update.
    replace (ProblemAttempt.id _ =? attempt_id) with true
      by (symmetry; apply Z.eqb_eq; destruct a; exact Hid).
    unfold find_attempt in Hfind. rewrite Hfind.
    split; [reflexivity |]. split; [apply same_but_review_set |].
    split; [destruct a; reflexivity |]. split; [destruct a; reflexivity |].
    rewrite <- (new_review_values_ease a was_correct ni ne Hv).
    destruct a; reflexivity.
  - intros k Hk. unfold find_attempt. cbn [problem_attempts set_problem_attempts].
    rewrite find_attempt_update.
    replace (ProblemAttempt.id _ =? k) with false; [reflexivity |].
    symmetry. apply Z.eqb_neq. destruct a; cbn in *. lia.
  - apply update_attempt_length.
Qed.

Lemma fold_max_bounds (k : Z) (l : list Z) :
  k <= fold_right Z.max k l /\ Forall (fun x => x <= fold_right Z.max k l) l.
Proof.
  induction l as [| x l [IHk IHl]]; cbn [fold_right].
  - split; [lia | constructor].
  - split; [lia |]. constructor; [lia |].
    eapply Forall_impl; [| exact IHl]. cbn. intros; lia.
Qed.

Lemma next_id_fresh (ids : list Z) : Forall (fun k => k < next_id ids) ids.
Proof.
  unfold next_id. destruct ids as [| k rest]; [constructor |].
  destruct (fold_max_bounds k rest) as [Hk Hrest].
  constructor; [lia |].
  eapply Forall_impl; [| exact Hrest]. cbn. intros; lia.
Qed.

Lemma update_attempt_new (a0 a1 : ProblemAttempt.t) (rows : list ProblemAttempt.t) :
  ProblemAttempt.id a1 = ProblemAttempt.id a0 ->
  Forall (fun r => ProblemAttempt.id r < ProblemAttempt.id a0) rows ->
  update_attempt a1 (rows ++ [a0]) = rows ++ [a1].
Proof.
  intros Hid Hrows. unfold update_attempt. rewrite map_app. cbn [map].
  rewrite Hid, Z.eqb_refl. f_equal.
  induction Hrows as [| r rows Hr _ IH]; [reflexivity |]. cbn [map].
  rewrite IH. destruct (Z.eqb_spec (ProblemAttempt.id r) (ProblemAttempt.id a0)); [lia |].
  reflexivity.
Qed.

(** X6. [save_attempt] with a [hintsUsed] that is a signed 64-bit
    integer appends exactly one row, under a key larger than every key
    in use, and leaves every other row and table alone. The row holds
    every field of the request, and the time of the insert as
    [created_at]. When the handler answers, the answer is the key of
    the row, the first review is scheduled two days after the
    scheduling clock reading and the ease is 2.5 for the verdict
    ["correct"], one day after it and 2.3 for any other. When it
    raises, the error is [OverflowError] and the row stays stored as
    first committed: interval 1, ease 2.5, due at the first clock
    reading. With any other [hintsUsed] the insert raises
    [OverflowError] and nothing is stored. *)
Theorem save_attempt_appends_row (req : SaveAttemptRequest.t) (w : World) :
  let w' := fst (save_attempt req w) in
  let correct := str_eq (SaveAttemptRequest.verdict req) "correct" in
  let days := if correct then 2 else 1 in
  (sqlite_integer (SaveAttemptRequest.hintsUsed req) = true ->
   exists a,
     problem_attempts (db w') = problem_attempts (db w) ++ [a]
     /\ Forall (fun r => ProblemAttempt.id r < ProblemAttempt.id a)
               (problem_attempts (db w))
     /\ ProblemAttempt.user_id a = SaveAttemptRequest.userId req
     /\ ProblemAttempt.created_at a = clock w (S (ticks w))
     /\ ProblemAttempt.title a = ProblemMetadata.title (SaveAttemptRequest.problem req)
     /\ ProblemAttempt.difficulty a
        = ProblemMetadata.difficulty (SaveAttemptRequest.problem req)
     /\ ProblemAttempt.patterns a
        = ProblemMetadata.patterns (SaveAttemptRequest.problem req)
     /\ ProblemAttempt.statement a
        = ProblemMetadata.statement (SaveAttemptRequest.problem req)
     /\ ProblemAttempt.language a = SaveAttemptRequest.language req
     /\ ProblemAttempt.code a = SaveAttemptRequest.code req
     /\ ProblemAttempt.hints_used a = SaveAttemptRequest.hintsUsed req
     /\ ProblemAttempt.verdict a = Some (SaveAttemptRequest.verdict req)
     /\ ProblemAttempt.time_complexity a = SaveAttemptRequest.timeComplexity req
     /\ ProblemAttempt.space_complexity a = SaveAttemptRequest.spaceComplexity req
     /\ ProblemAttempt.evaluation_markdown a
        = SaveAttemptRequest.evaluationMarkdown req
     /\ ProblemAttempt.company_style a = SaveAttemptRequest.companyStyle req
     /\ ProblemAttempt.mock_session_id a = SaveAttemptRequest.mockSessionId req
     /\ match snd (save_attempt req w) with
        | Ok key =>
            key = ProblemAttempt.id a /\
            ProblemAttempt.review_interval_days a = days /\
            ProblemAttempt.ease_factor a = (if correct then f2_5 else f2_3) /\
            ProblemAttempt.next_review_at a
            = Some (clock w (S (S (ticks w))) + days * us_per_day)
        | Raise e =>
            e = OverflowError /\
            ProblemAttempt.review_interval_days a = 1 /\
            ProblemAttempt.ease_factor a = f2_5 /\
            ProblemAttempt.next_review_at a = Some (clock w (ticks w))
        end)
  /\ (sqlite_integer (SaveAttemptRequest.hintsUsed req) = false ->
      snd (save_attempt req w) = Raise OverflowError /\ db w' = db w)
  /\ bookmarks (db w') = bookmarks (db w)
  /\ mock_interview_sessions (db w') = mock_interview_sessions (db w).
Proof.
  intros w' correct days. subst w' correct. unfold save_attempt.
  destruct (sqlite_integer (SaveAttemptRequest.hintsUsed req)) eqn:Hint;
    cbn [negb datetime_now clock ticks db].
  2:{ cbn [fst snd db]. split; [discriminate |]. repeat split; reflexivity. }
  set (rows := problem_attempts (db w)).
  set (a0 := ProblemAttempt.mk _ _ _ _ _ _ _ _ _ _ _ _ _ _ _ _ _ _ _).
  set (w2 := commit _ _).
  assert (Hfresh : Forall (fun r => ProblemAttempt.id r < ProblemAttempt.id a0) rows).
  { pose proof (next_id_fresh (map ProblemAttempt.id rows)) as H.
    rewrite Forall_map in H. exact H. }
  assert (Hvals : new_review_values a0 (str_eq (SaveAttemptRequest.verdict req) "correct")
                  = Ok (days, if str_eq (SaveAttemptRequest.verdict req) "correct"
                              then f2_5 else f2_3)).
  { unfold days. destruct (str_eq (SaveAttemptRequest.verdict req) "correct");
      vm_compute; reflexivity. }
  rewrite (calculate_next_review_values a0 _ w2 days _ Hvals). cbn zeta.
  destruct (plus_days (clock w2 (ticks w2)) days) as [next | e] eqn:Hplus.
  - apply plus_days_value in Hplus. subst next.
    cbn [fst snd commit db set_problem_attempts problem_attempts bookmarks
         mock_interview_sessions datetime_now w2].
    rewrite update_attempt_new by (reflexivity || exact Hfresh).
    split; [| split; [discriminate | split; reflexivity]].
    intros _. eexists. split; [reflexivity |]. split; [exact Hfresh |].
    repeat (split; [reflexivity |]). repeat split; reflexivity.
  - apply plus_days_raises in Hplus. subst e.
    cbn [fst snd commit db set_problem_attempts problem_attempts bookmarks
         mock_interview_sessions datetime_now w2].
    split; [| split; [discriminate | split; reflexivity]].
    intros _. exists a0. split; [reflexivity |]. split; [exact Hfresh |].
    repeat (split; [reflexivity |]). repeat split; reflexivity.
Qed.

Lemma save_attempt_appends_row_witness :
  exists a,
    problem_attempts
      (db (fst (save_attempt (sample_request "correct") (world_2024 empty_db))))
    = [a]
    /\ ProblemAttempt.user_id a = "ada"%string
    /\ ProblemAttempt.hints_used a = 0
    /\ ProblemAttempt.code a = "pass"%string.
Proof.
  destruct (save_attempt_appends_row (sample_request "correct") (world_2024 empty_db))
    as [H _].
  destruct (H eq_refl)
    as (a & Hrows & _ & Huser & _ & _ & _ & _ & _ & _ & Hcode & Hhints & _).
  exists a. split; [exact Hrows |]. split; [exact Huser |].
  split; [exact Hhints | exact Hcode].
Defined.

(** ** Bookmarks *)

Lemma insert_desc_perm {A} (key : A -> Z) a l :
  Permutation (insert_desc key a l) (a :: l).
Proof.
  induction l as [| b l IH]; cbn; [reflexivity |].
  destruct (key b <? key a); [reflexivity |].
  rewrite IH. apply perm_swap.
Qed.

Lemma order_by_desc_perm {A} (key : A -> Z) l :
  Permutation (order_by_desc key l) l.
Proof.
  unfold order_by_desc. rewrite (Permutation_rev l) at 2.
  induction (rev l) as [| a r IH]; cbn; [reflexivity |].
  rewrite insert_desc_perm. now constructor.
Qed.

Lemma insert_desc_sorted {A} (key : A -> Z) a l :
  StronglySorted (fun x y => key y <= key x) l ->
  StronglySorted (fun x y => key y <= key x) (insert_desc key a l).
Proof.
  induction l as [| b l IH]; intros Hs; cbn.
  - constructor; constructor.
  - inversion Hs as [| ? ? Hl Hb]; subst.
    destruct (key b <? key a) eqn:Hlt.
    + apply Z.ltb_lt in Hlt. constructor; [exact Hs |].
      constructor; [lia |].
      eapply Forall_impl; [| exact Hb]. cbn. intros; lia.
    + apply Z.ltb_ge in Hlt. constructor; [now apply IH |].
      eapply Permutation_Forall; [symmetry; apply insert_desc_perm |].
      now constructor.
Qed.

Lemma order_by_desc_sorted {A} (key : A -> Z) l :
  StronglySorted (fun x y => key y <= key x) (order_by_desc key l).
Proof.
  unfold order_by_desc.
  induction (rev l) as [| a r IH]; cbn; [constructor |].
  now apply insert_desc_sorted.
Qed.

Lemma in_order_by_desc {A} (key : A -> Z) l x :
  In x (order_by_desc key l) <-> In x l.
Proof.
  split; apply Permutation_in;
    [apply order_by_desc_perm | symmetry; apply order_by_desc_perm].
Qed.

Lemma in_distinct (l : list string) (x : string) : In x (distinct l) <-> In x l.
Proof.
  induction l as [| y l IH]; cbn [distinct In]; [reflexivity |].
  rewrite filter_In, IH, negb_true_iff. split.
  - intros [H | [H _]]; auto.
  - intros [H | H]; [now left |].
    destruct (String.eqb_spec x y) as [-> | Hne]; [now left |].
    right. split; [exact H |]. unfold str_eq. now apply String.eqb_neq.
Qed.

Lemma NoDup_filter_list {A} (f : A -> bool) (l : list A) :
  NoDup l -> NoDup (filter f l).
Proof.
  induction 1 as [| x l Hx Hl IH]; cbn; [constructor |].
  destruct (f x); [| exact IH]. constructor; [| exact IH].
  rewrite filter_In. tauto.
Qed.

Lemma distinct_NoDup (l : list string) : NoDup (distinct l).
Proof.
  induction l as [| y l IH]; cbn [distinct]; constructor.
  - rewrite filter_In. intros [_ H]. unfold str_eq in H.
    now rewrite String.eqb_refl in H.
  - now apply NoDup_filter_list.
Qed.

(** X7. [get_bookmarks] answers with the stored bookmarks of the user,
    newest first; with a collection name that is given and not empty,
    with those of that collection only. The collection list names each
    collection of the user once, whatever the filter, so it names the
    collection of every bookmark in the answer. *)
Theorem get_bookmarks_spec (user_id : string) (collection : option string) (d : Db) :
  let answer := get_bookmarks user_id collection d in
  (forall b, In b (fst answer)
             <-> In b (bookmarks d) /\ Bookmark.user_id b = user_id
                 /\ in_collection collection b)
  /\ StronglySorted
       (fun a b => Bookmark.created_at b <= Bookmark.created_at a) (fst answer)
  /\ NoDup (snd answer)
  /\ (forall name, In name (snd answer)
                   <-> exists b, In b (bookmarks d) /\ Bookmark.user_id b = user_id
                                 /\ Bookmark.collection_name b = name)
  /\ Forall (fun b => In (Bookmark.collection_name b) (snd answer)) (fst answer).
Proof.
  intros answer.
  assert (Hin : forall b, In b (fst answer)
             <-> In b (bookmarks d) /\ Bookmark.user_id b = user_id
                 /\ in_collection collection b).
  { intros b. unfold answer, get_bookmarks. cbn [fst].
    rewrite in_order_by_desc.
    destruct collection as [[| c cs] |]; cbn [in_collection];
      rewrite ?filter_In, ?str_eq_spec; tauto. }
  assert (Hnames : forall name, In name (snd answer)
                   <-> exists b, In b (bookmarks d) /\ Bookmark.user_id b = user_id
                                 /\ Bookmark.collection_name b = name).
  { intros name. unfold answer, get_bookmarks. cbn [snd].
    rewrite in_distinct, in_map_iff. split.
    - intros (b & Hn & Hb). apply filter_In in Hb. rewrite str_eq_spec in Hb.
      exists b. tauto.
    - intros (b & Hb & Hu & Hn). exists b. split; [exact Hn |].
      apply filter_In. rewrite str_eq_spec. tauto. }
  split; [exact Hin |]. split; [| split; [| split; [exact Hnames |]]].
  - unfold answer, get_bookmarks. cbn [fst]. apply order_by_desc_sorted.
  - unfold answer, get_bookmarks. cbn [snd]. apply distinct_NoDup.
  - apply Forall_forall. intros b Hb. apply Hin in Hb. apply Hnames.
    exists b. tauto.
Qed.

Lemma same_bookmark_spec (req : BookmarkRequest.t) (b : Bookmark.t) :
  same_bookmark req b = true
  <-> bookmark_key b
      = (BookmarkRequest.userId req, BookmarkRequest.attemptId req,
         BookmarkRequest.collectionName req).
Proof.
  unfold same_bookmark, bookmark_key.
  rewrite !andb_true_iff, !str_eq_spec, Z.eqb_eq. split.
  - intros [[-> ->] ->]. reflexivity.
  - intros H. injection H as -> -> ->. auto.
Qed.

Lemma find_app_none {A} (f : A -> bool) (l l' : list A) :
  find f l = None -> find f (l ++ l') = find f l'.
Proof.
  induction l as [| x l IH]; cbn; [reflexivity |].
  destruct (f x); [discriminate | exact IH].
Qed.

Lemma find_app_some {A} (f : A -> bool) (l l' : list A) x :
  find f l = Some x -> find f (l ++ l') = Some x.
Proof.
  induction l as [| y l IH]; cbn; [discriminate |].
  destruct (f y); [trivial | exact IH].
Qed.

Lemma find_none_forall {A} (f : A -> bool) (l : list A) :
  find f l = None -> Forall (fun x => f x = false) l.
Proof.
  intros H. apply Forall_forall. intros x Hx. now apply (find_none f l H).
Qed.

(** The row [add_bookmark] stores for a request that is new. *)
Lemma add_bookmark_new (req : BookmarkRequest.t) (w : World) :
  find (same_bookmark req) (bookmarks (db w)) = None ->
  exists b,
    add_bookmark req w
    = (commit (set_bookmarks (bookmarks (db w) ++ [b]) (db w)) (snd (datetime_now w)),
       {| bookmarkId := Bookmark.id b; message := None |})
    /\ same_bookmark req b = true
    /\ Bookmark.notes b = BookmarkRequest.notes req
    /\ Forall (fun r => Bookmark.id r < Bookmark.id b) (bookmarks (db w)).
Proof.
  intros Hfind. unfold add_bookmark. rewrite Hfind.
  cbn [datetime_now db clock ticks].
  eexists. split; [reflexivity |]. split; [| split; [reflexivity |]].
  - unfold same_bookmark, str_eq. cbn.
    now rewrite !String.eqb_refl, Z.eqb_refl.
  - cbn [Bookmark.id].
    pose proof (next_id_fresh (map Bookmark.id (bookmarks (db w)))) as H.
    now rewrite Forall_map in H.
Qed.

(** X8. [add_bookmark] never changes or removes a stored bookmark, and
    its answer names a stored bookmark of the requested user, attempt
    and collection. Asking again for the same three, with whatever
    notes, stores nothing, reads no clock and answers with the same
    key and the message ["Already bookmarked"]: the notes of the
    second request are dropped. *)
Theorem add_bookmark_idempotent (req : BookmarkRequest.t) (notes : option string)
    (w : World) :
  let first := add_bookmark req w in
  let second := add_bookmark (with_notes notes req) (fst first) in
  (exists rest, bookmarks (db (fst first)) = bookmarks (db w) ++ rest)
  /\ (exists b, In b (bookmarks (db (fst first)))
                /\ Bookmark.id b = bookmarkId (snd first)
                /\ same_bookmark req b = true)
  /\ fst second = fst first
  /\ bookmarkId (snd second) = bookmarkId (snd first)
  /\ message (snd second) = Some "Already bookmarked"%string.
Proof.
  intros first second. subst first second.
  destruct (find (same_bookmark req) (bookmarks (db w))) as [existing |] eqn:Hfind.
  - assert (Hfirst : add_bookmark req w
                     = (w, {| bookmarkId := Bookmark.id existing;
                              message := Some "Already bookmarked"%string |}))
      by (unfold add_bookmark; now rewrite Hfind).
    rewrite Hfirst. cbn [fst snd bookmarkId].
    split; [exists []; now rewrite app_nil_r |]. split.
    + exists existing. apply find_some in Hfind. tauto.
    + unfold add_bookmark.
      change (same_bookmark (with_notes notes req)) with (same_bookmark req).
      rewrite Hfind. auto.
  - destruct (add_bookmark_new req w Hfind) as (b & -> & Hsame & _ & _).
    cbn [fst snd bookmarkId commit db set_bookmarks bookmarks].
    split; [now exists [b] |]. split.
    + exists b. split; [apply in_or_app; right; now left | auto].
    + unfold add_bookmark.
      change (same_bookmark (with_notes notes req)) with (same_bookmark req).
      cbn [commit db set_bookmarks bookmarks].
      rewrite (find_app_none _ _ _ Hfind). cbn [find]. rewrite Hsame. auto.
Qed.

Lemma delete_bookmark_filter (bookmark_id : Z) (d : Db) :
  sqlite_integer bookmark_id = true ->
  bookmarks (fst (delete_bookmark bookmark_id d))
  = filter (fun b => negb (Bookmark.id b =? bookmark_id)) (bookmarks d).
Proof.
  intros Hint. unfold delete_bookmark. rewrite Hint. cbn [negb].
  destruct (find (fun b => Bookmark.id b =? bookmark_id) (bookmarks d))
    as [b |] eqn:Hfind; cbn [fst set_bookmarks bookmarks].
  - apply find_some in Hfind. destruct Hfind as [_ Hid]. apply Z.eqb_eq in Hid.
    now rewrite Hid.
  - apply find_none_forall in Hfind.
    induction Hfind as [| b l Hb _ IH]; [reflexivity |]. cbn [filter].
    rewrite Hb. cbn [negb]. now f_equal.
Qed.

Lemma delete_bookmark_overflow (bookmark_id : Z) (d : Db) :
  sqlite_integer bookmark_id = false ->
  delete_bookmark bookmark_id d = (d, Raise OverflowError).
Proof. intros Hint. unfold delete_bookmark. now rewrite Hint. Qed.

Lemma delete_bookmark_frame (bookmark_id : Z) (d : Db) :
  problem_attempts (fst (delete_bookmark bookmark_id d)) = problem_attempts d
  /\ mock_interview_sessions (fst (delete_bookmark bookmark_id d))
     = mock_interview_sessions d.
Proof.
  unfold delete_bookmark.
  destruct (sqlite_integer bookmark_id); cbn [negb]; [| split; reflexivity].
  destruct (find (fun b => Bookmark.id b =? bookmark_id) (bookmarks d));
    split; reflexivity.
Qed.

(** X9. [delete_bookmark] with a key that is a signed 64-bit integer
    always answers success, also when no bookmark has the key.
    Afterwards no bookmark has the key, every other bookmark is stored
    as before and in the same order, and deleting the same key again
    answers success and changes nothing. With any other key it raises
    [OverflowError] and changes nothing. The attempts and the sessions
    are untouched in all cases. *)
Theorem delete_bookmark_removes (bookmark_id : Z) (d : Db) :
  let d' := fst (delete_bookmark bookmark_id d) in
  (sqlite_integer bookmark_id = true ->
   snd (delete_bookmark bookmark_id d) = Ok true
   /\ bookmarks d'
      = filter (fun b => negb (Bookmark.id b =? bookmark_id)) (bookmarks d)
   /\ find (fun b => Bookmark.id b =? bookmark_id) (bookmarks d') = None
   /\ delete_bookmark bookmark_id d' = (d', Ok true))
  /\ (sqlite_integer bookmark_id = false ->
      snd (delete_bookmark bookmark_id d) = Raise OverflowError /\ d' = d)
  /\ problem_attempts d' = problem_attempts d
  /\ mock_interview_sessions d' = mock_interview_sessions d.
Proof.
  intros d'.
  split; [| split; [| exact (delete_bookmark_frame bookmark_id d)]].
  - intros Hint.
    assert (Hgone : find (fun b => Bookmark.id b =? bookmark_id) (bookmarks d') = None).
    { unfold d'. rewrite delete_bookmark_filter by exact Hint.
      induction (bookmarks d) as [| b l IH]; [reflexivity |]. cbn [filter].
      destruct (Bookmark.id b =? bookmark_id) eqn:Hb; cbn [negb]; [exact IH |].
      cbn [find]. now rewrite Hb. }
    split; [| split; [now apply delete_bookmark_filter | split; [exact Hgone |]]].
    + unfold delete_bookmark. rewrite Hint. cbn [negb].
      now destruct (find (fun b => Bookmark.id b =? bookmark_id) (bookmarks d)).
    + unfold delete_bookmark at 1. rewrite Hint. cbn [negb]. now rewrite Hgone.
  - intros Hint. unfold d'. now rewrite (delete_bookmark_overflow _ _ Hint).
Qed.

Lemma delete_bookmark_removes_witness :
  snd (delete_bookmark 1 sample_db) = Ok true
  /\ bookmarks (fst (delete_bookmark 1 sample_db)) = []
  /\ snd (delete_bookmark (2 ^ 63) sample_db) = Raise OverflowError.
Proof.
  destruct (delete_bookmark_removes 1 sample_db) as [H _].
  destruct (H eq_refl) as (Hanswer & Hrows & _).
  destruct (delete_bookmark_removes (2 ^ 63) sample_db) as (_ & H2 & _).
  destruct (H2 eq_refl) as [Hraise _].
  split; [exact Hanswer |]. split; [exact Hrows | exact Hraise].
Defined.

Lemma NoDup_map_filter {A B} (g : A -> B) (f : A -> bool) (l : list A) :
  NoDup (map g l) -> NoDup (map g (filter f l)).
Proof.
  induction l as [| x l IH]; cbn [map filter]; intros H; [constructor |].
  inversion H as [| ? ? Hx Hl]; subst.
  destruct (f x); [| now apply IH]. cbn [map]. constructor; [| now apply IH].
  intros Hin. apply Hx. apply in_map_iff in Hin. destruct Hin as (y & Hy & Hin).
  apply filter_In in Hin. apply in_map_iff. exists y. tauto.
Qed.

Lemma NoDup_snoc {A} (l : list A) (x : A) :
  NoDup l -> ~ In x l -> NoDup (l ++ [x]).
Proof.
  intros Hl Hx. induction Hl as [| y l Hy Hl IH]; cbn.
  - constructor; [intros [] | constructor].
  - constructor.
    + intros Hin. apply in_app_or in Hin. destruct Hin as [Hin | [-> | []]].
      * contradiction.
      * apply Hx. now left.
    + apply IH. intros Hin. apply Hx. now right.
Qed.

Lemma add_bookmark_keeps_ok (req : BookmarkRequest.t) (w : World) :
  bookmarks_ok (db w) -> bookmarks_ok (db (fst (add_bookmark req w))).
Proof.
  intros [Hids Hkeys].
  destruct (find (same_bookmark req) (bookmarks (db w))) as [existing |] eqn:Hfind.
  - unfold add_bookmark. rewrite Hfind. now split.
  - destruct (add_bookmark_new req w Hfind) as (b & -> & Hsame & _ & Hfresh).
    unfold bookmarks_ok. cbn [fst commit db set_bookmarks bookmarks].
    rewrite !map_app. cbn [map]. split; apply NoDup_snoc; trivial.
    + intros Hin. apply in_map_iff in Hin. destruct Hin as (r & Hr & Hin).
      rewrite Forall_forall in Hfresh. specialize (Hfresh r Hin). lia.
    + intros Hin. apply in_map_iff in Hin. destruct Hin as (r & Hr & Hin).
      apply find_none_forall in Hfind. rewrite Forall_forall in Hfind.
      specialize (Hfind r Hin).
      assert (same_bookmark req r = true); [| congruence].
      apply same_bookmark_spec. rewrite Hr. now apply same_bookmark_spec.
Qed.

Lemma delete_bookmark_keeps_ok (bookmark_id : Z) (d : Db) :
  bookmarks_ok d -> bookmarks_ok (fst (delete_bookmark bookmark_id d)).
Proof.
  intros [Hids Hkeys].
  destruct (sqlite_integer bookmark_id) eqn:Hint.
  - unfold bookmarks_ok. rewrite delete_bookmark_filter by exact Hint.
    split; now apply NoDup_map_filter.
  - rewrite (delete_bookmark_overflow _ _ Hint). now split.
Qed.

(** X10. The bookmark handlers keep the table sound: if no key and no
    (user, attempt, collection) occurs twice, the same holds after
    [add_bookmark] and after [delete_bookmark]. *)
Theorem bookmark_handlers_keep_table_sound (req : BookmarkRequest.t)
    (bookmark_id : Z) (w : World) :
  bookmarks_ok (db w) ->
  bookmarks_ok (db (fst (add_bookmark req w)))
  /\ bookmarks_ok (fst (delete_bookmark bookmark_id (db w))).
Proof.
  intros Hok. split.
  - now apply add_bookmark_keeps_ok.
  - now apply delete_bookmark_keeps_ok.
Qed.

Lemma bookmark_handlers_keep_table_sound_witness :
  bookmarks_ok (db (fst (add_bookmark sample_bookmark_request (world_2024 sample_db))))
  /\ bookmarks_ok (fst (delete_bookmark 1 (db (world_2024 sample_db)))).
Proof.
  apply bookmark_handlers_keep_table_sound.
  split; simpl; (constructor; [intros [] | constructor]).
Defined.

(** X11. Adding a bookmark that is new and deleting the key the answer
    names is answered with success and gives back the tables as they
    were. The key is one SQLite issued, a signed 64-bit integer. *)
Theorem add_then_delete_bookmark (req : BookmarkRequest.t) (w : World) :
  find (same_bookmark req) (bookmarks (db w)) = None ->
  sqlite_integer (bookmarkId (snd (add_bookmark req w))) = true ->
  delete_bookmark (bookmarkId (snd (add_bookmark req w)))
    (db (fst (add_bookmark req w)))
  = (db w, Ok true).
Proof.
  intros Hfind.
  destruct (add_bookmark_new req w Hfind) as (b & -> & _ & _ & Hfresh).
  cbn [fst snd bookmarkId commit db]. intros Hint.
  unfold delete_bookmark. rewrite Hint. cbn [negb set_bookmarks bookmarks].
  assert (Hold : find (fun r => Bookmark.id r =? Bookmark.id b) (bookmarks (db w)) = None).
  { clear Hfind. induction Hfresh as [| r l Hr _ IH]; [reflexivity |]. cbn [find].
    destruct (Z.eqb_spec (Bookmark.id r) (Bookmark.id b)); [lia | exact IH]. }
  rewrite (find_app_none _ _ _ Hold). cbn [find]. rewrite Z.eqb_refl.
  cbn [fst set_bookmarks bookmarks problem_attempts mock_interview_sessions].
  rewrite filter_app. cbn [filter]. rewrite Z.eqb_refl. cbn [negb].
  rewrite app_nil_r.
  assert (Hkeep : filter (fun r => negb (Bookmark.id r =? Bookmark.id b))
                         (bookmarks (db w)) = bookmarks (db w)).
  { clear Hfind Hold. induction Hfresh as [| r l Hr _ IH]; [reflexivity |].
    cbn [filter].
    destruct (Z.eqb_spec (Bookmark.id r) (Bookmark.id b)); [lia |].
    cbn [negb]. now f_equal. }
  rewrite Hkeep. now destruct (db w).
Qed.

Lemma add_then_delete_bookmark_witness :
  delete_bookmark
    (bookmarkId (snd (add_bookmark sample_bookmark_request (world_2024 sample_db))))
    (db (fst (add_bookmark sample_bookmark_request (world_2024 sample_db))))
  = (db (world_2024 sample_db), Ok true).
Proof. apply add_then_delete_bookmark; vm_compute; reflexivity. Defined.

(** ** Mock interview sessions *)

Lemma find_session_other (session_id k : string) (s' : MockInterviewSession.t)
    (rows : list MockInterviewSession.t) :
  k <> MockInterviewSession.id s' ->
  find (fun r => str_eq (MockInterviewSession.id r) k)
       (map (fun r => if str_eq (MockInterviewSession.id r) (MockInterviewSession.id s')
                      then s' else r) rows)
  = find (fun r => str_eq (MockInterviewSession.id r) k) rows.
Proof.
  intros Hk. induction rows as [| r rows IH]; [reflexivity |]. cbn [map find].
  destruct (str_eq (MockInterviewSession.id r) (MockInterviewSession.id s')) eqn:E.
  - apply str_eq_spec in E.
    replace (str_eq (MockInterviewSession.id s') k) with false
      by (symmetry; apply String.eqb_neq; congruence).
    replace (str_eq (MockInterviewSession.id r) k) with false
      by (symmetry; apply String.eqb_neq; congruence).
    exact IH.
  - destruct (str_eq (MockInterviewSession.id r) k); [reflexivity | exact IH].
Qed.

Lemma find_session_id session_id d s :
  find_session session_id d = Some s -> MockInterviewSession.id s = session_id.
Proof.
  unfold find_session. intros H. apply find_some in H. destruct H as [_ H].
  now apply str_eq_spec in H.
Qed.

Lemma mean_in_range (total n : Z) :
  0 <= total <= 100 * n -> 0 < n ->
  exists mean, Float64.int_truediv total n = Ok mean /\ score_in_range (Float mean).
Proof.
  intros Ht Hn.
  destruct (int_truediv_interval total n 100) as (v & mean & Hdiv & Hv & Hfin & Hle);
    [lia | lia | lia | lia |].
  exists mean. split; [exact Hdiv |]. cbn [score_in_range].
  split; [now apply (pos_result_valid v) |]. split; [exact Hfin |].
  assert (H0 : 0 <= v).
  { destruct Hv as [Hz | m e Hb Hs | Hinf]; [lia | | discriminate].
    rewrite <- Hs. apply sc_zero_le; [lia |]. apply bounded_inv in Hb. lia. }
  split.
  - rewrite (leb_pos_result _ _ 0 v (pr_zero 0 eq_refl) Hv eq_refl Hfin).
    now apply Z.leb_le.
  - unfold f100.
    rewrite (leb_pos_result _ _ v (sc (Zpos m100) (-46)) Hv
               (pos_result_of_bounded _ _ bounded_f100) Hfin eq_refl).
    apply Z.leb_le. replace (sc (Zpos m100) (-46)) with (sc 100 0); [exact Hle |].
    unfold sc. vm_compute. reflexivity.
Qed.

(** The answer of [complete_mock_session] depends on the attempts
    linked to the session only. *)
Lemma complete_mock_session_answer session_id w1 w2 s1 s2 :
  find_session session_id (db w1) = Some s1 ->
  find_session session_id (db w2) = Some s2 ->
  session_problems session_id (db w2) = session_problems session_id (db w1) ->
  snd (complete_mock_session session_id w2) = snd (complete_mock_session session_id w1).
Proof.
  intros H1 H2 Hp. unfold complete_mock_session. rewrite H1, H2, Hp.
  destruct (session_problems session_id (db w1)) as [| p rest]; [reflexivity |].
  destruct (Float64.int_truediv _ _); reflexivity.
Qed.

(** The result of [complete_mock_session] on a session that exists. *)
Lemma complete_mock_session_found (session_id : string) (w : World)
    (session : MockInterviewSession.t) :
  find_session session_id (db w) = Some session ->
  exists total,
    score_in_range total /\
    complete_mock_session session_id w
    = (commit (set_mock_interview_sessions
                 (map (fun s => if str_eq (MockInterviewSession.id s)
                                          (MockInterviewSession.id session)
                                then MockInterviewSession.complete (clock w (ticks w))
                                       (Z.of_nat (List.length
                                                    (session_problems session_id (db w))))
                                       total session
                                else s)
                      (mock_interview_sessions (db w))) (db w))
              (snd (datetime_now w)),
       Ok {| score := total;
             problemsCompleted :=
               Z.of_nat (List.length (session_problems session_id (db w))) |}).
Proof.
  intros Hfind. unfold complete_mock_session. rewrite Hfind.
  rewrite fold_left_points, Z.add_0_l.
  pose proof (points_sum_range (session_problems session_id (db w))) as Hrange.
  destruct (session_problems session_id (db w)) as [| p rest].
  - exists (Int 0). split; reflexivity.
  - destruct (mean_in_range (points_sum (p :: rest))
                (Z.of_nat (List.length (p :: rest)))) as (mean & Hdiv & Hmean);
      [lia | cbn [List.length]; lia |].
    exists (Float mean). split; [exact Hmean |]. rewrite Hdiv. reflexivity.
Qed.

(** X12. [complete_mock_session] raises only the 404 of an unknown
    session, and then changes nothing. Otherwise it answers with the
    number of attempts linked to the session and a score that is the
    integer 0 or a double between 0 and 100; it never divides by zero.
    It changes no attempt, no bookmark and no other session, and
    nothing makes a completed session final: a second call succeeds
    again, with the same answer. *)
Theorem complete_mock_session_total (session_id : string) (w : World) :
  let w' := fst (complete_mock_session session_id w) in
  match snd (complete_mock_session session_id w) with
  | Raise e =>
      e = not_found "Session not found" /\
      find_session session_id (db w) = None /\ w' = w
  | Ok resp =>
      score_in_range (score resp) /\
      problemsCompleted resp
      = Z.of_nat (List.length (session_problems session_id (db w))) /\
      snd (complete_mock_session session_id w') = Ok resp
  end
  /\ problem_attempts (db w') = problem_attempts (db w)
  /\ bookmarks (db w') = bookmarks (db w)
  /\ (forall k, k <> session_id -> find_session k (db w') = find_session k (db w)).
Proof.
  intros w'.
  destruct (find_session session_id (db w)) as [session |] eqn:Hfind.
  2:{ subst w'. unfold complete_mock_session. rewrite Hfind. cbn [fst snd].
      repeat split; reflexivity. }
  pose proof (find_session_id _ _ _ Hfind) as Hid.
  pose proof (complete_mock_session_found session_id w session Hfind) as Hshape.
  destruct Hshape as (total & Htotal & Hrun).
  assert (Hattempts : problem_attempts (db w') = problem_attempts (db w))
    by (subst w'; rewrite Hrun; reflexivity).
  split; [| split; [exact Hattempts | split]].
  - rewrite Hrun. cbn [snd score problemsCompleted].
    split; [exact Htotal |]. split; [reflexivity |].
    transitivity (snd (complete_mock_session session_id w));
      [| rewrite Hrun; reflexivity].
    eapply (complete_mock_session_answer session_id w w' session).
    + exact Hfind.
    + subst w'. rewrite Hrun.
      cbn [fst commit db set_mock_interview_sessions mock_interview_sessions].
      unfold find_session. cbn [mock_interview_sessions].
      apply (find_session_updated session_id session
               (MockInterviewSession.complete (clock w (ticks w))
                  (Z.of_nat (List.length (session_problems session_id (db w))))
                  total session));
        [exact Hfind | reflexivity].
    + unfold session_problems. now rewrite Hattempts.
  - subst w'. rewrite Hrun. reflexivity.
  - intros k Hk. subst w'. rewrite Hrun.
    cbn [fst commit db]. unfold find_session.
    cbn [set_mock_interview_sessions mock_interview_sessions].
    apply (find_session_other session_id k
             (MockInterviewSession.complete (clock w (ticks w))
                (Z.of_nat (List.length (session_problems session_id (db w))))
                total session)).
    cbn. congruence.
Qed.


Lemma repeat_medium_length (n : Z) :
  Z.of_nat (List.length (repeat "Medium"%string (Z.to_nat n))) = Z.max 0 n.
Proof. rewrite repeat_length. lia. Qed.

Lemma session_difficulties_fits (req : MockSessionRequest.t) :
  negb (custom_session req) || index_sized (MockSessionRequest.numProblems req) = true ->
  exists difficulties,
    session_difficulties req = Ok difficulties
    /\ Z.of_nat (List.length difficulties)
       = match MockSessionRequest.difficulties req with
         | [] =>
             if str_eq (MockSessionRequest.sessionType req) "phone_screen" then 2
             else if str_eq (MockSessionRequest.sessionType req) "onsite" then 3
             else Z.max 0 (MockSessionRequest.numProblems req)
         | d :: ds => Z.of_nat (List.length (d :: ds))
         end.
Proof.
  unfold custom_session, session_difficulties.
  destruct (MockSessionRequest.difficulties req) as [| d ds];
    [| intros _; eexists; split; reflexivity].
  destruct (str_eq (MockSessionRequest.sessionType req) "phone_screen");
    [intros _; eexists; split; reflexivity |].
  destruct (str_eq (MockSessionRequest.sessionType req) "onsite");
    [intros _; eexists; split; reflexivity |].
  cbn [negb andb orb]. intros ->. eexists. split; [reflexivity |].
  apply repeat_medium_length.
Qed.

Lemma session_difficulties_overflow (req : MockSessionRequest.t) :
  negb (custom_session req) || index_sized (MockSessionRequest.numProblems req) = false ->
  session_difficulties req = Raise OverflowError.
Proof.
  unfold custom_session, session_difficulties.
  destruct (MockSessionRequest.difficulties req) as [| d ds]; [| discriminate].
  destruct (str_eq (MockSessionRequest.sessionType req) "phone_screen");
    [discriminate |].
  destruct (str_eq (MockSessionRequest.sessionType req) "onsite");
    [discriminate |].
  cbn [negb andb orb]. now intros ->.
Qed.

Lemma start_mock_session_new (session_id : string) (req : MockSessionRequest.t)
    (w : World) (difficulties : list string) :
  find_session session_id (db w) = None ->
  sqlite_integer (MockSessionRequest.timeLimitMinutes req) = true ->
  session_difficulties req = Ok difficulties ->
  let s := MockInterviewSession.mk session_id (MockSessionRequest.userId req)
             (clock w (ticks w)) None (MockSessionRequest.sessionType req)
             (MockSessionRequest.timeLimitMinutes req)
             (Z.of_nat (List.length difficulties)) difficulties 0 None in
  start_mock_session session_id req w
  = (commit (set_mock_interview_sessions (mock_interview_sessions (db w) ++ [s]) (db w))
       (snd (datetime_now w)),
     Inserted (MockStartResponse.mk session_id
                 (MockSessionRequest.timeLimitMinutes req)
                 (Z.of_nat (List.length difficulties)) difficulties)).
Proof.
  intros Hfind Hint Hd. unfold start_mock_session. rewrite Hd, Hint.
  cbn [negb datetime_now db clock ticks]. now rewrite Hfind.
Qed.

(** A request that does not fit is refused before anything is stored. *)
Lemma start_mock_session_overflow (session_id : string)
    (req : MockSessionRequest.t) (w : World) :
  session_request_fits req = false ->
  snd (start_mock_session session_id req w) = Refused OverflowError
  /\ db (fst (start_mock_session session_id req w)) = db w.
Proof.
  unfold session_request_fits, start_mock_session. intros Hfit.
  destruct (negb (custom_session req)
            || index_sized (MockSessionRequest.numProblems req)) eqn:Hn.
  - destruct (session_difficulties_fits req Hn) as (ds & -> & _).
    rewrite andb_true_r in Hfit. rewrite Hfit. cbn [negb datetime_now]. split; reflexivity.
  - rewrite (session_difficulties_overflow req Hn). split; reflexivity.
Qed.

(** An insert under a session id that is in use stores nothing. *)
Lemma start_mock_session_taken (session_id : string) (req : MockSessionRequest.t)
    (w : World) (s : MockInterviewSession.t) :
  find_session session_id (db w) = Some s ->
  snd (start_mock_session session_id req w)
  = (if session_request_fits req then IntegrityError else Refused OverflowError)
  /\ db (fst (start_mock_session session_id req w)) = db w.
Proof.
  intros Hfind.
  destruct (session_request_fits req) eqn:Hfit;
    [| now apply start_mock_session_overflow].
  unfold session_request_fits in Hfit. apply andb_true_iff in Hfit.
  destruct Hfit as [Hint Hn].
  destruct (session_difficulties_fits req Hn) as (ds & Hd & _).
  unfold start_mock_session. rewrite Hd, Hint.
  cbn [negb datetime_now db clock ticks]. rewrite Hfind. split; reflexivity.
Qed.



(** X14. [get_mock_history] answers with stored sessions of the user,
    newest first and at most 20. A session of the user that is left
    out is no newer than any session in the answer. *)
Theorem get_mock_history_spec (user_id : string) (d : Db) :
  let history := get_mock_history user_id d in
  Forall (fun s => In s (mock_interview_sessions d)
                   /\ MockInterviewSession.user_id s = user_id) history
  /\ StronglySorted
       (fun a b => MockInterviewSession.created_at b
                   <= MockInterviewSession.created_at a) history
  /\ (List.length history <= 20)%nat
  /\ Forall (fun s => MockInterviewSession.user_id s = user_id ->
                      In s history
                      \/ Forall (fun t => MockInterviewSession.created_at s
                                          <= MockInterviewSession.created_at t)
                                history)
            (mock_interview_sessions d).
Proof.
  intros history. subst history. unfold get_mock_history.
  set (mine := filter (fun s => str_eq (MockInterviewSession.user_id s) user_id)
                      (mock_interview_sessions d)).
  set (sorted := order_by_desc MockInterviewSession.created_at mine).
  assert (Hsorted : StronglySorted
            (fun a b => MockInterviewSession.created_at b
                        <= MockInterviewSession.created_at a) sorted)
    by apply order_by_desc_sorted.
  assert (Hin : forall s, In s sorted
                          <-> In s (mock_interview_sessions d)
                              /\ MockInterviewSession.user_id s = user_id).
  { intros s. unfold sorted, mine.
    now rewrite in_order_by_desc, filter_In, str_eq_spec. }
  destruct (sql_limit_split 20 sorted) as [rest Hrest].
  split; [| split; [| split]].
  - apply Forall_forall. intros s Hs. apply Hin. rewrite Hrest.
    apply in_or_app. now left.
  - unfold sql_limit. cbn [Z.ltb Z.compare]. now apply StronglySorted_firstn.
  - unfold sql_limit. cbn [Z.ltb Z.compare]. rewrite length_firstn. lia.
  - apply Forall_forall. intros s Hs Hu.
    assert (Hs' : In s (sql_limit 20 sorted ++ rest))
      by (rewrite <- Hrest; apply Hin; now split).
    apply in_app_or in Hs'. destruct Hs' as [Hs' | Hs']; [now left | right].
    apply Forall_forall. intros t Ht.
    apply (StronglySorted_app_le
             (fun a b => MockInterviewSession.created_at b
                         <= MockInterviewSession.created_at a)
             (sql_limit 20 sorted) rest t s); [| exact Ht | exact Hs'].
    now rewrite <- Hrest.
Qed.

(** ** The free-usage table *)

(** X15. The quota round trip. For a manager with an entity id, a
    quota that is a signed 64-bit integer is stored, and it is what
    [get_free_uses_remaining] returns afterwards, whatever was stored
    before; any other quota raises [OverflowError] and stores nothing.
    These are the only two outcomes: the call raises exactly when the
    manager has an entity id and the quota does not fit. Without an
    entity id nothing is stored and the default is returned. The quota
    of every other entity is untouched. *)
Theorem free_uses_round_trip (entity_id other : string) (remaining default_total : Z)
    (table : FreeUsage) :
  let r := set_free_uses_remaining entity_id remaining table in
  snd r = (if nonempty entity_id && negb (sqlite_integer remaining)
           then Raise OverflowError else Ok tt)
  /\ match snd r with
     | Ok _ =>
         get_free_uses_remaining entity_id default_total (fst r)
         = if nonempty entity_id then remaining else default_total
     | Raise e =>
         e = OverflowError /\ fst r = table /\ sqlite_integer remaining = false
     end
  /\ (entity_id = EmptyString -> fst r = table)
  /\ (other <> entity_id ->
      get_free_uses_remaining other default_total (fst r)
      = get_free_uses_remaining other default_total table).
Proof.
  intros r. subst r. unfold set_free_uses_remaining, get_free_uses_remaining.
  unfold FreeUsage in *.
  destruct entity_id as [| c cs]; cbn [fst snd nonempty andb].
  - split; [reflexivity |]. split; [reflexivity |]. split; reflexivity.
  - destruct (sqlite_integer remaining) eqn:Hint; cbn [fst snd negb].
    + split; [reflexivity |].
      split; [now rewrite lookup_insert_eq |]. split; [discriminate |].
      intros Hne. destruct other as [| o os]; [reflexivity |].
      now rewrite lookup_insert_ne by congruence.
    + split; [reflexivity |]. split; [auto |]. split; [discriminate | reflexivity].
Qed.

(** ** The complexity pattern *)

Lemma append_cons (c : ascii) (s t : string) :
  (String c s ++ t)%string = String c (s ++ t)%string.
Proof. reflexivity. Qed.

Lemma append_nil (t : string) : (EmptyString ++ t)%string = t.
Proof. reflexivity. Qed.

Lemma paren_run_some (s r : string) :
  paren_run s = Some r ->
  exists body rest,
    r = (body ++ ")")%string /\ s = (body ++ ")" ++ rest)%string /\
    has_char ")" body = false.
Proof.
  revert r. induction s as [| c s IH]; intros r; cbn [paren_run]; [discriminate |].
  destruct (Ascii.eqb_spec c ")") as [-> | Hc].
  - intros H. injection H as <-. now exists EmptyString, s.
  - destruct (paren_run s) as [r' |]; [| discriminate]. cbn [option_map].
    intros H. injection H as <-.
    destruct (IH r' eq_refl) as (body & rest & -> & -> & Hbody).
    exists (String c body), rest. rewrite !append_cons. repeat split.
    cbn [has_char]. rewrite Hbody.
    now destruct (Ascii.eqb_spec c ")").
Qed.

Lemma paren_run_app (body rest : string) :
  has_char ")" body = false ->
  paren_run (body ++ ")" ++ rest) = Some (body ++ ")")%string.
Proof.
  induction body as [| c body IH]; intros Hb.
  - reflexivity.
  - cbn [has_char] in Hb. apply orb_false_iff in Hb. destruct Hb as [Hc Hb].
    change (paren_run (String c (body ++ ")" ++ rest))
            = Some (String c (body ++ ")"))).
    cbn [paren_run]. rewrite Hc, (IH Hb). reflexivity.
Qed.

Lemma match_complexity_some (s m : string) :
  match_complexity s = Some m ->
  exists body rest,
    m = ("O(" ++ body ++ ")")%string /\ s = (m ++ rest)%string /\
    body <> EmptyString /\ has_char ")" body = false.
Proof.
  unfold match_complexity.
  destruct s as [| c1 [| c2 s]]; try discriminate.
  - destruct c1 as [[] [] [] [] [] [] [] []]; discriminate.
  - destruct (Ascii.eqb_spec c1 "O") as [-> | H1].
    2:{ destruct c1 as [[] [] [] [] [] [] [] []]; try discriminate.
        contradiction. }
    destruct (Ascii.eqb_spec c2 "(") as [-> | H2].
    2:{ destruct c2 as [[] [] [] [] [] [] [] []]; try discriminate.
        contradiction. }
    destruct (paren_run s) as [r |] eqn:Hrun; [| discriminate].
    destruct (paren_run_some s r Hrun) as (body & rest & -> & -> & Hbody).
    destruct body as [| b body].
    + discriminate.
    + rewrite !append_cons.
      destruct (body ++ ")")%string as [| b' body'] eqn:Hb.
      * destruct body; discriminate.
      * intros H. injection H as <-. rewrite <- Hb.
        exists (String b body), rest. rewrite !append_cons.
        split; [reflexivity |]. split.
        -- cbn. f_equal. f_equal. f_equal.
           clear. induction body as [| c body IH]; [reflexivity |].
           rewrite !append_cons. now f_equal.
        -- split; [discriminate | exact Hbody].
Qed.

Lemma match_complexity_app (body rest : string) :
  body <> EmptyString -> has_char ")" body = false ->
  match_complexity ("O(" ++ body ++ ")" ++ rest)
  = Some ("O(" ++ body ++ ")")%string.
Proof.
  intros Hne Hb.
  change (match_complexity (String "O" (String "(" (body ++ ")" ++ rest)))
          = Some (String "O" (String "(" (body ++ ")")))).
  unfold match_complexity. rewrite (paren_run_app body rest Hb).
  destruct body as [| b body]; [contradiction |].
  change (String b body ++ ")")%string with (String b (body ++ ")")).
  destruct body as [| b' body]; reflexivity.
Qed.

Lemma search_complexity_some (s m : string) :
  search_complexity s = Some m ->
  exists before rest,
    s = (before ++ rest)%string /\ match_complexity rest = Some m /\
    forall b1 b2, before = (b1 ++ b2)%string -> b2 <> EmptyString ->
                  match_complexity (b2 ++ rest) = None.
Proof.
  induction s as [| c s IH]; cbn [search_complexity].
  - destruct (match_complexity "") eqn:Hm; [| discriminate].
    intros H. injection H as ->. exists EmptyString, EmptyString.
    split; [reflexivity |]. split; [exact Hm |].
    intros b1 b2 H1 H2. destruct b1, b2; solve [discriminate | congruence].
  - destruct (match_complexity (String c s)) as [m' |] eqn:Hm.
    + intros H. injection H as ->. exists EmptyString, (String c s).
      split; [reflexivity |]. split; [exact Hm |].
      intros b1 b2 H1 H2. destruct b1, b2; solve [discriminate | congruence].
    + intros H. destruct (IH H) as (before & rest & -> & Hrest & Hleft).
      exists (String c before), rest. split; [reflexivity |].
      split; [exact Hrest |]. intros b1 b2 Hsplit Hb2.
      destruct b1 as [| c1 b1].
      * rewrite append_nil in Hsplit. subst b2. exact Hm.
      * rewrite append_cons in Hsplit. injection Hsplit as _ Hsplit.
        now apply (Hleft b1 b2).
Qed.

Lemma search_complexity_none (s : string) :
  search_complexity s = None ->
  forall before rest, s = (before ++ rest)%string -> match_complexity rest = None.
Proof.
  induction s as [| c s IH]; cbn [search_complexity]; intros H before rest Hs.
  - destruct before; [| discriminate]. rewrite append_nil in Hs. subst rest.
    now destruct (match_complexity "").
  - destruct (match_complexity (String c s)) eqn:Hm; [discriminate |].
    destruct before as [| c' before].
    + rewrite append_nil in Hs. now subst rest.
    + rewrite append_cons in Hs. injection Hs as _ Hs. now apply (IH H before).
Qed.

(** X16. The complexity that [evaluate_solution_endpoint] extracts is
    the leftmost piece of the evaluation of the form ["O("], a text
    that is not empty and has no [")"], [")"]: it ends at the first
    [")"], whatever follows, and ["O()"] is passed over. Nothing is
    extracted exactly when the evaluation has no such piece. *)
Theorem search_complexity_spec (evaluation_md : string) :
  match search_complexity evaluation_md with
  | Some m =>
      exists before body rest,
        evaluation_md = (before ++ m ++ rest)%string /\
        m = ("O(" ++ body ++ ")")%string /\
        body <> EmptyString /\ has_char ")" body = false /\
        forall b1 b2, before = (b1 ++ b2)%string -> b2 <> EmptyString ->
                      match_complexity (b2 ++ m ++ rest) = None
  | None =>
      forall before body rest,
        body <> EmptyString -> has_char ")" body = false ->
        evaluation_md <> (before ++ "O(" ++ body ++ ")" ++ rest)%string
  end.
Proof.
  destruct (search_complexity evaluation_md) as [m |] eqn:Hsearch.
  - destruct (search_complexity_some _ _ Hsearch) as (before & tail & -> & Hm & Hleft).
    destruct (match_complexity_some _ _ Hm) as (body & rest & Hbody & -> & Hne & Hb).
    exists before, body, rest. auto.
  - intros before body rest Hne Hb Hs.
    pose proof (search_complexity_none _ Hsearch before _ Hs) as Hnone.
    rewrite (match_complexity_app body rest Hne Hb) in Hnone. discriminate.
Qed.

(** ** The problem template *)

(** The parser on an answer that follows the template: the text on the
    [Problem:] line is dropped, and so is a later line that looks like
    a header, which replaces the title instead. *)
Example parse_template_answer :
  parse_problem ascii_strip ascii_splitlines template_answer "Medium" ["graphs"%string]
  = ProblemMetadata.mk "Again" "Easy" ["arrays"; "hashing"]%string
      ("Find two numbers." ++ String "010" "They add up.")%string.
Proof. vm_compute. reflexivity. Qed.

Lemma str_or_nonempty (a b : string) : b <> EmptyString -> str_or a b <> EmptyString.
Proof. intros Hb. destruct a; [exact Hb | discriminate]. Qed.

Lemma fold_left_invariant {A B} (P : A -> Prop) (f : A -> B -> A) (l : list B) (a : A) :
  P a -> (forall a b, P a -> P (f a b)) -> P (fold_left f l a).
Proof.
  intros Ha Hstep. revert a Ha. induction l as [| b l IH]; intros a Ha; [exact Ha |].
  cbn [fold_left]. apply IH. now apply Hstep.
Qed.

Lemma nonempty_spec (s : string) : nonempty s = true <-> s <> EmptyString.
Proof. destruct s; cbn; split; congruence. Qed.

Section ProblemTemplateProperties.

Variable strip : string -> string.
Variable splitlines : string -> list string.

(** What the loop keeps true of its state. *)
Lemma parse_line_filled (difficulty : string) (patterns : list string)
    (st : Parse.state) (line : string) :
  let filled st :=
    Parse.title st <> EmptyString
    /\ (difficulty <> EmptyString -> Parse.parsed_difficulty st <> EmptyString)
    /\ (patterns <> [] -> Parse.parsed_patterns st <> [])
    /\ (Forall (fun p => p <> EmptyString) patterns ->
        Forall (fun p => p <> EmptyString) (Parse.parsed_patterns st)) in
  filled st -> filled (parse_line strip difficulty patterns st line).
Proof.
  intros filled (Ht & Hd & Hp & Hq). unfold filled, parse_line.
  destruct (starts_with "Title:" (strip line)).
  { cbn. split; [now apply str_or_nonempty | auto]. }
  destruct (starts_with "Difficulty:" (strip line)).
  { cbn. split; [exact Ht |]. split; [| auto].
    intros Hne. apply str_or_nonempty. now apply str_or_nonempty. }
  destruct (starts_with "Patterns:" (strip line)).
  { cbn. split; [exact Ht |]. split; [exact Hd |].
    set (parsed := map strip (filter (fun p => nonempty (strip p)) _)).
    assert (Hparsed : Forall (fun p => p <> EmptyString) parsed).
    { apply Forall_forall. intros p Hin. unfold parsed in Hin.
      apply in_map_iff in Hin. destruct Hin as (q & <- & Hin).
      apply filter_In in Hin. now apply nonempty_spec. }
    split.
    - intros Hne. destruct parsed; [| discriminate]. cbn [list_or].
      destruct (Parse.parsed_patterns st); [exact Hne | discriminate].
    - intros Hall. destruct parsed; [| exact Hparsed]. cbn [list_or].
      destruct (Parse.parsed_patterns st); [exact Hall |].
      cbn [list_or]. now apply Hq. }
  destruct (starts_with "Problem:" (strip line)); [cbn; auto |].
  destruct (Parse.in_statement st); cbn; auto.
Qed.

(** X17. Whatever the agent answers, [generate_personalized_problem]
    returns a title that is not empty, and a statement that is empty
    only if the whole answer is. The difficulty and the patterns fall
    back on the request: a requested difficulty that is not empty
    gives a difficulty that is not empty, a request with patterns
    gives a problem with patterns, and no pattern of the problem is
    empty unless one of the request is. *)
Theorem parse_problem_fields_filled (text difficulty : string) (patterns : list string) :
  let problem := parse_problem strip splitlines text difficulty patterns in
  ProblemMetadata.title problem <> EmptyString
  /\ (ProblemMetadata.statement problem = EmptyString -> text = EmptyString)
  /\ (difficulty <> EmptyString ->
      ProblemMetadata.difficulty problem <> EmptyString)
  /\ (patterns <> [] -> ProblemMetadata.patterns problem <> [])
  /\ (Forall (fun p => p <> EmptyString) patterns ->
      Forall (fun p => p <> EmptyString) (ProblemMetadata.patterns problem)).
Proof.
  intros problem. subst problem. unfold parse_problem.
  cbn [ProblemMetadata.title ProblemMetadata.statement ProblemMetadata.difficulty
       ProblemMetadata.patterns].
  assert (Hinv :
    Parse.title (parse_lines strip splitlines difficulty patterns text) <> EmptyString
    /\ (difficulty <> EmptyString ->
        Parse.parsed_difficulty (parse_lines strip splitlines difficulty patterns text)
        <> EmptyString)
    /\ (patterns <> [] ->
        Parse.parsed_patterns (parse_lines strip splitlines difficulty patterns text) <> [])
    /\ (Forall (fun p => p <> EmptyString) patterns ->
        Forall (fun p => p <> EmptyString)
               (Parse.parsed_patterns
                  (parse_lines strip splitlines difficulty patterns text)))).
  { unfold parse_lines.
    apply (fold_left_invariant
             (fun st =>
                Parse.title st <> EmptyString
                /\ (difficulty <> EmptyString -> Parse.parsed_difficulty st <> EmptyString)
                /\ (patterns <> [] -> Parse.parsed_patterns st <> [])
                /\ (Forall (fun p => p <> EmptyString) patterns ->
                    Forall (fun p => p <> EmptyString) (Parse.parsed_patterns st)))).
    - cbn. split; [discriminate | auto].
    - intros st line. apply parse_line_filled. }
  destruct Hinv as (Ht & Hd & Hp & Hq).
  split; [exact Ht |]. split; [| auto].
  destruct (strip _); [trivial | discriminate].
Qed.

Hypothesis strip_empty : strip EmptyString = EmptyString.

Lemma parse_line_plain (difficulty : string) (patterns : list string)
    (st : Parse.state) (line : string) :
  is_header (strip line) = false -> Parse.in_statement st = false ->
  parse_line strip difficulty patterns st line = st.
Proof.
  unfold is_header, parse_line. intros H Hin.
  apply orb_false_iff in H. destruct H as [H H4].
  apply orb_false_iff in H. destruct H as [H H3].
  apply orb_false_iff in H. destruct H as [H1 H2].
  rewrite H1, H2, H3, H4, Hin. reflexivity.
Qed.

(** X18. An answer without any header line, a line that reads
    [Title:], [Difficulty:], [Patterns:] or [Problem:] after
    stripping, gives the title ["Practice Problem"], the requested
    difficulty and patterns, and the whole answer, unstripped, as the
    statement. *)
Theorem parse_problem_defaults (text difficulty : string) (patterns : list string) :
  Forall (fun line => is_header (strip line) = false) (splitlines text) ->
  parse_problem strip splitlines text difficulty patterns
  = ProblemMetadata.mk "Practice Problem" difficulty patterns text.
Proof.
  intros Hplain. unfold parse_problem.
  assert (Hst : parse_lines strip splitlines difficulty patterns text
                = Parse.mk "Practice Problem" difficulty patterns [] false).
  { unfold parse_lines. induction Hplain as [| line l Hline _ IH]; [reflexivity |].
    cbn [fold_left]. now rewrite parse_line_plain. }
  rewrite Hst. cbn [Parse.title Parse.parsed_difficulty Parse.parsed_patterns
                    Parse.statement_lines join].
  now rewrite strip_empty.
Qed.

Lemma problem_header_only (s : string) :
  starts_with "Problem:" s = true ->
  starts_with "Title:" s = false /\ starts_with "Difficulty:" s = false
  /\ starts_with "Patterns:" s = false.
Proof.
  destruct s as [| c s]; [discriminate |]. cbn [starts_with].
  destruct (Ascii.eqb_spec "P" c) as [<- | _]; [| discriminate].
  intros H. cbn [andb] in H. split; [reflexivity | split; [reflexivity |]].
  destruct s as [| c s]; [discriminate |]. cbn [starts_with andb] in *.
  destruct (Ascii.eqb_spec "r" c) as [<- | _]; [| discriminate].
  reflexivity.
Qed.

(** The statement lines the loop collects from [lines], in a state
    [st] of the loop. *)
Lemma parse_lines_statement (difficulty : string) (patterns : list string)
    (lines : list string) (st : Parse.state) :
  Parse.statement_lines (fold_left (parse_line strip difficulty patterns) lines st)
  = (Parse.statement_lines st
     ++ if Parse.in_statement st
        then filter (fun line => negb (is_header (strip line))) lines
        else statement_body strip lines)%list.
Proof.
  revert st. induction lines as [| line lines IH]; intros st.
  - cbn. unfold statement_body. cbn. destruct (Parse.in_statement st);
      now rewrite app_nil_r.
  - cbn [fold_left]. rewrite IH. clear IH. unfold statement_body, parse_line, is_header.
    cbn [after_problem_header filter].
    destruct (starts_with "Title:" (strip line)) eqn:H1.
    { cbn [Parse.statement_lines Parse.in_statement orb negb].
      replace (starts_with "Problem:" (strip line)) with false; [reflexivity |].
      destruct (starts_with "Problem:" (strip line)) eqn:H4; [| reflexivity].
      apply problem_header_only in H4. destruct H4 as (H4 & _). congruence. }
    destruct (starts_with "Difficulty:" (strip line)) eqn:H2.
    { cbn [Parse.statement_lines Parse.in_statement orb negb].
      replace (starts_with "Problem:" (strip line)) with false; [reflexivity |].
      destruct (starts_with "Problem:" (strip line)) eqn:H4; [| reflexivity].
      apply problem_header_only in H4. destruct H4 as (_ & H4 & _). congruence. }
    destruct (starts_with "Patterns:" (strip line)) eqn:H3.
    { cbn [Parse.statement_lines Parse.in_statement orb negb].
      replace (starts_with "Problem:" (strip line)) with false; [reflexivity |].
      destruct (starts_with "Problem:" (strip line)) eqn:H4; [| reflexivity].
      apply problem_header_only in H4. destruct H4 as (_ & _ & H4). congruence. }
    destruct (starts_with "Problem:" (strip line)) eqn:H4.
    { cbn [Parse.statement_lines Parse.in_statement orb negb].
      now destruct (Parse.in_statement st). }
    cbn [orb negb].
    destruct (Parse.in_statement st) eqn:Hin;
      cbn [Parse.statement_lines Parse.in_statement]; rewrite ?Hin.
    + now rewrite <- app_assoc.
    + reflexivity.
Qed.

(** X19. The statement [generate_personalized_problem] returns is made
    of the lines after the first [Problem:] header that are no headers
    themselves, joined by line feeds and stripped; the text that
    follows [Problem:] on its own line and every later header line
    are left out. Only when that is empty is the statement the whole
    answer. *)
Theorem parse_problem_statement (text difficulty : string) (patterns : list string) :
  ProblemMetadata.statement (parse_problem strip splitlines text difficulty patterns)
  = str_or (strip (join (String "010" EmptyString)
                        (statement_body strip (splitlines text))))
           text.
Proof.
  unfold parse_problem, parse_lines. cbn [ProblemMetadata.statement].
  now rewrite parse_lines_statement.
Qed.

End ProblemTemplateProperties.

Lemma parse_problem_defaults_witness :
  parse_problem ascii_strip ascii_splitlines plain_answer "Medium" ["graphs"%string]
  = ProblemMetadata.mk "Practice Problem" "Medium" ["graphs"%string] plain_answer.
Proof.
  apply parse_problem_defaults; [reflexivity |].
  vm_compute. repeat constructor.
Defined.

(** ** The weekly series *)

Lemma week_buckets_nth (n : nat) (weekly_data : gmap string Z) (current : datetime)
    (i : nat) :
  (i < n)%nat ->
  nth_error (week_buckets n weekly_data current) i
  = Some {| week := strftime_ymd (current + Z.of_nat i * us_per_week);
            count := default 0 (weekly_data
                                  !! strftime_ymd (current + Z.of_nat i * us_per_week)) |}.
Proof.
  revert current i. induction n as [| n IH]; intros current i Hi; [lia |].
  destruct i as [| i]; cbn [week_buckets nth_error].
  - now rewrite Z.add_0_r.
  - rewrite IH by lia.
    replace (current + us_per_week + Z.of_nat i * us_per_week)
      with (current + Z.of_nat (S i) * us_per_week) by lia.
    reflexivity.
Qed.

(** X20. [get_weekly_activity] always comes to an end, raises nothing
    but [OverflowError], reads the clock once and only reads the
    tables. For a negative number of weeks whose window start is still
    a [datetime], the answer is the empty list. *)
Theorem get_weekly_activity_total (user_id : string) (weeks : Z) (w : World) :
  let now := clock w (ticks w) in
  let start_date := now - weeks * us_per_week in
  snd (get_weekly_activity user_id weeks w) <> None
  /\ (forall e, snd (get_weekly_activity user_id weeks w) = Some (Raise e) ->
                e = OverflowError)
  /\ db (fst (get_weekly_activity user_id weeks w)) = db w
  /\ ticks (fst (get_weekly_activity user_id weeks w)) = S (ticks w)
  /\ (weeks < 0 -> created_in_range (db w) ->
      6 * us_per_day <= now -> start_date <= datetime_max ->
      snd (get_weekly_activity user_id weeks w) = Some (Ok [])).
Proof.
  intros now start_date.
  split; [apply get_weekly_activity_terminates |].
  split; [intros e; apply get_weekly_activity_raises |].
  split; [apply get_weekly_activity_world |].
  split.
  { unfold get_weekly_activity. cbn [datetime_now].
    destruct (do delta <- timedelta_weeks weeks; datetime_sub (clock w (ticks w)) delta);
      [| reflexivity].
    destruct (group_by_week _ ∅); reflexivity. }
  intros Hw Hdb Hnow Hmax.
  pose proof us_per_week_value as HW. pose proof us_per_day_value as HD.
  pose proof datetime_max_value as HM.
  assert (Hdelta : timedelta_weeks weeks = Ok (weeks * us_per_week)).
  { unfold timedelta_weeks, timedelta_days.
    destruct (Z.gtb_spec (Z.abs (7 * weeks)) 999999999) as [H | _];
      [unfold start_date in Hmax; lia |].
    f_equal. unfold us_per_week. ring. }
  assert (Hsub : datetime_sub now (weeks * us_per_week) = Ok start_date).
  { unfold datetime_sub. fold start_date.
    assert (Hr : in_range start_date = true)
      by (apply in_range_spec; unfold start_date in *; lia).
    now rewrite Hr. }
  assert (Hall : Forall (fun a => in_range (ProblemAttempt.created_at a) = true
                                  /\ 6 * us_per_day <= ProblemAttempt.created_at a)
                   (in_window user_id start_date (db w))).
  { unfold in_window. apply Forall_forall. intros a Ha.
    apply filter_In in Ha. destruct Ha as [Hin Hf].
    apply andb_true_iff in Hf. destruct Hf as [_ Hge]. apply Z.leb_le in Hge.
    unfold created_in_range in Hdb. rewrite Forall_forall in Hdb.
    split; [now apply Hdb | unfold start_date in *; lia]. }
  destruct (group_by_week_ok _ ∅ Hall) as [weekly_data Hg].
  unfold get_weekly_activity. cbn [datetime_now]. fold now.
  rewrite Hdelta. cbn [bind]. rewrite Hsub. cbn [db].
  fold (in_window user_id start_date (db w)). rewrite Hg. cbn [snd].
  unfold weeks_fuel. cbn [fill_weeks].
  destruct (Z.leb_spec start_date now) as [Hle | _]; [| reflexivity].
  unfold start_date in Hle. lia.
Qed.

Lemma get_weekly_activity_total_witness :
  snd (get_weekly_activity "ada" (-1) (world_2024 sample_db)) = Some (Ok []).
Proof.
  destruct (get_weekly_activity_total "ada" (-1) (world_2024 sample_db))
    as (_ & _ & _ & _ & H).
  apply H.
  - lia.
  - unfold created_in_range. cbn [world_2024 db sample_db problem_attempts].
    repeat constructor.
  - vm_compute. discriminate.
  - vm_compute. discriminate.
Defined.

(** ** A completed review *)

(** X21. A review that [complete_review] completes on an attempt whose
    interval is at least 1 and whose ease is in [1.3, 2.5] is
    rescheduled at least a day after the clock reading: the next
    review is exactly [intervalDays] days after it, [intervalDays] is
    1 after a wrong answer and at least the old interval, hence at
    least 1, after a correct one. *)
Theorem complete_review_defers (attempt_id : Z) (was_correct : bool) (w : World)
    (attempt : ProblemAttempt.t) (resp : ReviewResponse) :
  find_attempt attempt_id (db w) = Some attempt ->
  review_state_ok attempt ->
  snd (complete_review attempt_id was_correct w) = Ok resp ->
  nextReviewAt resp = clock w (ticks w) + intervalDays resp * us_per_day
  /\ 1 <= intervalDays resp
  /\ (if was_correct
      then ProblemAttempt.review_interval_days attempt <= intervalDays resp
      else intervalDays resp = 1)
  /\ clock w (ticks w) + us_per_day <= nextReviewAt resp.
Proof.
  intros Hfind Hok. unfold complete_review.
  destruct (sqlite_integer attempt_id); cbn [negb]; [| discriminate].
  rewrite Hfind.
  destruct (new_review_values attempt was_correct) as [[ni ne] | e] eqn:Hv.
  2:{ rewrite (calculate_next_review_raise attempt was_correct w e Hv). discriminate. }
  rewrite (calculate_next_review_values attempt was_correct w ni ne Hv). cbn zeta.
  destruct (plus_days (clock w (ticks w)) ni) as [next | e] eqn:Hplus; [| discriminate].
  cbn [snd]. intros H. injection H as <-. cbn [nextReviewAt intervalDays].
  apply plus_days_value in Hplus.
  destruct (review_values_ok attempt was_correct ni ne Hok Hv) as [_ Hni].
  assert (H1 : 1 <= ni).
  { destruct Hok as [Hi _]. destruct was_correct; lia. }
  cbn [ProblemAttempt.review_interval_days ProblemAttempt.set_next_review_at
       ProblemAttempt.set_ease_factor ProblemAttempt.set_review_interval_days].
  split; [exact Hplus |]. split; [exact H1 |]. split.
  - destruct was_correct; tauto.
  - pose proof us_per_day_value. nia.
Qed.

Lemma complete_review_defers_witness :
  nextReviewAt {| nextReviewAt := make 2024 1 5 12 0 0; intervalDays := 2 |}
  = clock (world_2024 sample_db) (ticks (world_2024 sample_db))
    + intervalDays {| nextReviewAt := make 2024 1 5 12 0 0; intervalDays := 2 |}
      * us_per_day
  /\ 1 <= intervalDays {| nextReviewAt := make 2024 1 5 12 0 0; intervalDays := 2 |}
  /\ ProblemAttempt.review_interval_days
       (sample_attempt 1 tuesday (Some "correct"%string) 1 f2_5)
     <= intervalDays {| nextReviewAt := make 2024 1 5 12 0 0; intervalDays := 2 |}
  /\ clock (world_2024 sample_db) (ticks (world_2024 sample_db)) + us_per_day
     <= nextReviewAt {| nextReviewAt := make 2024 1 5 12 0 0; intervalDays := 2 |}.
Proof.
  apply (complete_review_defers 1 true (world_2024 sample_db)
           (sample_attempt 1 tuesday (Some "correct"%string) 1 f2_5)).
  - reflexivity.
  - split; [cbn; lia | reflexivity].
  - vm_compute. reflexivity.
Defined.

(** ** What every handler keeps true of the tables *)

Lemma save_attempt_rows (req : SaveAttemptRequest.t) (w : World) :
  db (fst (save_attempt req w)) = db w
  \/ exists a,
    problem_attempts (db (fst (save_attempt req w))) = problem_attempts (db w) ++ [a]
    /\ Forall (fun r => ProblemAttempt.id r < ProblemAttempt.id a)
              (problem_attempts (db w))
    /\ ProblemAttempt.next_review_at a <> None
    /\ bookmarks (db (fst (save_attempt req w))) = bookmarks (db w)
    /\ mock_interview_sessions (db (fst (save_attempt req w)))
       = mock_interview_sessions (db w).
Proof.
  unfold save_attempt.
  destruct (sqlite_integer (SaveAttemptRequest.hintsUsed req));
    cbn [negb datetime_now clock ticks db]; [right | now left].
  set (rows := problem_attempts (db w)).
  set (a0 := ProblemAttempt.mk _ _ _ _ _ _ _ _ _ _ _ _ _ _ _ _ _ _ _).
  set (w2 := commit _ _).
  assert (Hfresh : Forall (fun r => ProblemAttempt.id r < ProblemAttempt.id a0) rows).
  { pose proof (next_id_fresh (map ProblemAttempt.id rows)) as H.
    rewrite Forall_map in H. exact H. }
  destruct (calculate_next_review_cases a0
              (str_eq (SaveAttemptRequest.verdict req) "correct") w2)
    as [(e & ->) | [(ni & ne & e & ->) | (ni & ne & next & ->)]];
    cbn [fst snd commit db set_problem_attempts problem_attempts bookmarks
         mock_interview_sessions datetime_now w2].
  - exists a0. repeat split; trivial. discriminate.
  - exists a0. repeat split; trivial. discriminate.
  - rewrite update_attempt_new by (reflexivity || exact Hfresh).
    eexists. split; [reflexivity |]. split; [exact Hfresh |].
    split; [discriminate |]. split; reflexivity.
Qed.

Lemma complete_review_rows (attempt_id : Z) (was_correct : bool) (w : World) :
  db (fst (complete_review attempt_id was_correct w)) = db w
  \/ exists a',
       ProblemAttempt.next_review_at a' <> None /\
       db (fst (complete_review attempt_id was_correct w))
       = set_problem_attempts (update_attempt a' (problem_attempts (db w))) (db w).
Proof.
  unfold complete_review.
  destruct (sqlite_integer attempt_id); cbn [negb]; [| now left].
  destruct (find_attempt attempt_id (db w)) as [a |]; [| now left].
  destruct (calculate_next_review_cases a was_correct w)
    as [(e & ->) | [(ni & ne & e & ->) | (ni & ne & next & ->)]];
    cbn [fst snd datetime_now commit db]; [now left | now left |].
  right. eexists. split; [| reflexivity]. discriminate.
Qed.

Lemma update_attempt_ids (a : ProblemAttempt.t) (rows : list ProblemAttempt.t) :
  map ProblemAttempt.id (update_attempt a rows) = map ProblemAttempt.id rows.
Proof.
  unfold update_attempt. rewrite map_map. apply map_ext. intros r.
  destruct (Z.eqb_spec (ProblemAttempt.id r) (ProblemAttempt.id a)); congruence.
Qed.

Lemma update_attempt_forall (P : ProblemAttempt.t -> Prop) (a : ProblemAttempt.t)
    (rows : list ProblemAttempt.t) :
  P a -> Forall P rows -> Forall P (update_attempt a rows).
Proof.
  intros Ha Hrows. unfold update_attempt. apply Forall_forall. intros r Hr.
  apply in_map_iff in Hr. destruct Hr as (r0 & <- & Hin).
  destruct (ProblemAttempt.id r0 =? ProblemAttempt.id a); [exact Ha |].
  rewrite Forall_forall in Hrows. now apply Hrows.
Qed.

Lemma get_analytics_world (user_id : string) (w : World) :
  db (fst (get_analytics user_id w)) = db w.
Proof.
  unfold get_analytics.
  pose proof (get_weekly_activity_world user_id 12 w) as Hw.
  destruct (get_weekly_activity user_id 12 w) as [w1 weekly]. cbn [fst] in Hw.
  destruct weekly as [[weekly_activity | e] |]; cbn [fst]; try exact Hw.
  destruct (accuracy_of _ _); exact Hw.
Qed.

Lemma add_bookmark_frame (req : BookmarkRequest.t) (w : World) :
  problem_attempts (db (fst (add_bookmark req w))) = problem_attempts (db w)
  /\ mock_interview_sessions (db (fst (add_bookmark req w)))
     = mock_interview_sessions (db w).
Proof.
  unfold add_bookmark. destruct (find _ _); split; reflexivity.
Qed.

Lemma start_mock_session_rows (session_id : string) (req : MockSessionRequest.t)
    (w : World) :
  db (fst (start_mock_session session_id req w)) = db w
  \/ find_session session_id (db w) = None
     /\ exists s,
          MockInterviewSession.id s = session_id /\ session_ok s /\
          db (fst (start_mock_session session_id req w))
          = set_mock_interview_sessions (mock_interview_sessions (db w) ++ [s]) (db w).
Proof.
  destruct (session_request_fits req) eqn:Hfit;
    [| left; now apply start_mock_session_overflow].
  destruct (find_session session_id (db w)) as [s |] eqn:Hfind.
  - left. now apply (start_mock_session_taken session_id req w s).
  - right. split; [reflexivity |].
    unfold session_request_fits in Hfit. apply andb_true_iff in Hfit.
    destruct Hfit as [Hint Hn].
    destruct (session_difficulties_fits req Hn) as (ds & Hd & _).
    rewrite (start_mock_session_new session_id req w ds Hfind Hint Hd). cbn zeta.
    eexists. split; [| split; [| reflexivity]]; [reflexivity |].
    split; [reflexivity |]. cbn. tauto.
Qed.

Lemma find_session_none_ids (session_id : string) (d : Db) :
  find_session session_id d = None ->
  ~ In session_id (map MockInterviewSession.id (mock_interview_sessions d)).
Proof.
  unfold find_session. intros Hfind Hin. apply in_map_iff in Hin.
  destruct Hin as (s & Hs & Hin).
  pose proof (find_none _ _ Hfind s Hin) as H. cbn in H.
  apply String.eqb_neq in H. congruence.
Qed.

Lemma complete_session_ok now n total s :
  session_ok s -> session_ok (MockInterviewSession.complete now n total s).
Proof.
  intros [Hn _]. split; [exact Hn |]. cbn. split; discriminate.
Qed.

Lemma handle_keeps_tables_ok (r : request) (w : World) :
  tables_ok (db w) -> tables_ok (db (handle r w)).
Proof.
  intros (Hids & Hstate & Hsched & Hbook & Hsids & Hsess).
  destruct r as [req | attempt_id was_correct | user_id limit | req | bookmark_id
                 | session_id req | session_id | user_id]; cbn [handle].
  - (* save_attempt *)
    pose proof (save_attempt_keeps_review_state req w Hstate) as Hstate'.
    destruct (save_attempt_rows req w)
      as [Hsame | (a & Hrows & Hfresh & Ha & Hb & Hs)];
      [rewrite Hsame; unfold tables_ok; auto 7 |].
    unfold tables_ok, bookmarks_ok in *. rewrite Hrows, Hb, Hs.
    split; [| split; [exact Hstate' | split; [| auto]]].
    + rewrite map_app. apply NoDup_snoc; [exact Hids |].
      intros Hin. apply in_map_iff in Hin. destruct Hin as (r & Hr & Hin).
      rewrite Forall_forall in Hfresh. specialize (Hfresh r Hin). lia.
    + apply Forall_app. split; [exact Hsched | now constructor].
  - (* complete_review *)
    pose proof (complete_review_keeps_review_state attempt_id was_correct w Hstate)
      as Hstate'.
    destruct (complete_review_rows attempt_id was_correct w) as [Hsame | (a' & Ha & Hdb)].
    + rewrite Hsame. unfold tables_ok. auto 7.
    + unfold tables_ok, bookmarks_ok in *. split; [| split; [exact Hstate' |]];
        rewrite Hdb; cbn [set_problem_attempts problem_attempts bookmarks
                          mock_interview_sessions].
      * now rewrite update_attempt_ids.
      * split; [now apply update_attempt_forall | auto].
  - (* get_due_for_review *)
    unfold get_due_for_review, get_due_problems. cbn. unfold tables_ok. auto 7.
  - (* add_bookmark *)
    destruct (add_bookmark_frame req w) as [Ha Hs].
    pose proof (add_bookmark_keeps_ok req w Hbook) as Hbook'.
    unfold tables_ok, stored_review_state_ok in *. rewrite Ha, Hs. auto 7.
  - (* delete_bookmark *)
    pose proof (delete_bookmark_keeps_ok bookmark_id (db w) Hbook) as Hbook'.
    destruct (delete_bookmark_frame bookmark_id (db w)) as [Ha Hs].
    cbn [commit db]. unfold tables_ok, stored_review_state_ok. rewrite Ha, Hs.
    auto 7.
  - (* start_mock_session *)
    destruct (start_mock_session_rows session_id req w)
      as [Hsame | (Hfind & s & Hid & Hs & Hdb)].
    + rewrite Hsame. unfold tables_ok. auto 7.
    + rewrite Hdb. unfold tables_ok, stored_review_state_ok, bookmarks_ok.
      cbn [set_mock_interview_sessions problem_attempts bookmarks
           mock_interview_sessions].
      repeat (split; [assumption || apply Hbook |]). split.
      * rewrite map_app. apply NoDup_snoc; [exact Hsids |]. cbn [map].
        rewrite Hid. now apply find_session_none_ids.
      * apply Forall_app. split; [exact Hsess | now constructor].
  - (* complete_mock_session *)
    destruct (find_session session_id (db w)) as [session |] eqn:Hfind.
    2:{ unfold complete_mock_session. rewrite Hfind. unfold tables_ok. auto 7. }
    destruct (complete_mock_session_found session_id w session Hfind)
      as (total & _ & ->).
    assert (Hsession : session_ok session).
    { unfold find_session in Hfind. apply find_some in Hfind.
      rewrite Forall_forall in Hsess. apply Hsess, Hfind. }
    unfold tables_ok, stored_review_state_ok, bookmarks_ok.
    cbn [fst commit db set_mock_interview_sessions problem_attempts bookmarks
         mock_interview_sessions].
    repeat (split; [assumption || apply Hbook |]). split.
    + rewrite map_map.
      replace (map _ (mock_interview_sessions (db w)))
        with (map MockInterviewSession.id (mock_interview_sessions (db w)));
        [exact Hsids |].
      apply map_ext. intros s.
      destruct (str_eq (MockInterviewSession.id s) (MockInterviewSession.id session))
        eqn:E; [| reflexivity].
      apply str_eq_spec in E. now rewrite E.
    + apply Forall_forall. intros s Hs. apply in_map_iff in Hs.
      destruct Hs as (s0 & <- & Hin).
      destruct (str_eq _ _); [now apply complete_session_ok |].
      rewrite Forall_forall in Hsess. now apply Hsess.
  - (* get_analytics *)
    now rewrite get_analytics_world.
Qed.

(** X22. Served from empty tables, in any order and with any clock,
    the handlers never produce two attempts, two bookmarks or two
    sessions with the same key, nor two bookmarks of one attempt in
    one collection of one user; every stored attempt has an interval
    of at least 1, an ease in [1.3, 2.5] and a next review time; every
    stored session has as many problems as difficulties and a score
    exactly when it is completed. *)
Theorem tables_ok_from_empty (clock : nat -> datetime) (requests : list request) :
  tables_ok (db (serve requests {| db := empty_db; clock := clock; ticks := 0 |})).
Proof.
  assert (Hstep : forall requests w, tables_ok (db w) ->
                                     tables_ok (db (serve requests w))).
  { intros rs. induction rs as [| r rs IH]; intros w Hw; [exact Hw |].
    cbn [serve fold_left]. apply IH. now apply handle_keeps_tables_ok. }
  apply Hstep. unfold tables_ok, stored_review_state_ok, bookmarks_ok.
  cbn. repeat split; constructor.
Qed.

(** ** The calendar *)

Lemma month_day_checked :
  forallb (fun k => month_day_ok false (Z.of_nat k) && month_day_ok true (Z.of_nat k))
          (seq 0 365) = true.
Proof. vm_compute. reflexivity. Qed.

Lemma month_day_spec (leapyear : bool) (n : Z) :
  0 <= n < 365 -> month_day_ok leapyear n = true.
Proof.
  intros Hn. pose proof month_day_checked as H.
  rewrite forallb_forall in H. specialize (H (Z.to_nat n)).
  rewrite Z2Nat.id in H by lia.
  assert (Hin : In (Z.to_nat n) (seq 0 365)) by (apply in_seq; lia).
  specialize (H Hin). apply andb_true_iff in H. destruct leapyear; tauto.
Qed.

Lemma ord2ymd_month_day (ordinal : Z) :
  ord2ymd ordinal
  = let n := ordinal - 1 in
    let n400 := n / 146097 in let n := n mod 146097 in
    let n100 := n / 36524 in let n := n mod 36524 in
    let n4 := n / 1461 in let n := n mod 1461 in
    let n1 := n / 365 in let n := n mod 365 in
    let year := n400 * 400 + 1 + n100 * 100 + n4 * 4 + n1 in
    if (n1 =? 4) || (n100 =? 4) then (year - 1, 12, 31)
    else
      let '(month, day) :=
        month_day ((n1 =? 3) && (negb (n4 =? 24) || (n100 =? 3))) n in
      (year, month, day).
Proof.
  unfold ord2ymd, month_day. cbn zeta.
  destruct ((_ =? 4) || (_ =? 4)); [reflexivity |].
  destruct (_ >? _); reflexivity.
Qed.

(** [_ymd2ord] undoes [_ord2ymd] on the ordinals of the years 1 to
    9999, and the date is a date. *)
Lemma ord2ymd_round_trip (ordinal : Z) :
  1 <= ordinal <= MAXORDINAL ->
  let '(y, m, d) := ord2ymd ordinal in
  1 <= y <= 9999 /\ 1 <= m <= 12 /\ 1 <= d <= 31 /\ ymd2ord y m d = ordinal.
Proof.
  intros Hn. unfold MAXORDINAL in Hn. rewrite ord2ymd_month_day. cbn zeta.
  set (n := ordinal - 1).
  set (a := n / 146097). set (r1 := n mod 146097).
  set (b := r1 / 36524). set (r2 := r1 mod 36524).
  set (c := r2 / 1461). set (r3 := r2 mod 1461).
  set (dd := r3 / 365). set (r4 := r3 mod 365).
  assert (Hdec : 0 <= a <= 24 /\ 0 <= b <= 4 /\ 0 <= c <= 24 /\ 0 <= dd <= 4 /\
                 0 <= r4 < 365 /\
                 n = 146097 * a + 36524 * b + 1461 * c + 365 * dd + r4 /\
                 365 * dd + r4 < 1461 /\ 1461 * c + 365 * dd + r4 < 36524 /\
                 36524 * b + 1461 * c + 365 * dd + r4 < 146097).
  { unfold a, b, c, dd, r4, r3, r2, r1, n. Z.div_mod_to_equations. lia. }
  destruct Hdec as (Ha & Hb & Hc & Hd & Hr4 & Hsum & Hb4 & Hd4 & Hb5).
  clearbody a b c dd r4. clear r1 r2 r3.
  assert (Hord : ordinal = n + 1) by (unfold n; lia). clearbody n.
  unfold ymd2ord, days_before_year, is_leap.
  destruct ((dd =? 4) || (b =? 4)) eqn:Hspecial.
  - assert (Hcase : dd = 4 \/ b = 4).
    { apply orb_true_iff in Hspecial.
      destruct Hspecial as [H | H]; apply Z.eqb_eq in H; auto. }
    change (nth (Z.to_nat 12) DAYS_BEFORE_MONTH 0) with 334.
    change (12 >? 2) with true. cbn [andb].
    set (y := a * 400 + 1 + b * 100 + c * 4 + dd - 1).
    assert (Hleap : (y mod 4 =? 0) && (negb (y mod 100 =? 0) || (y mod 400 =? 0)) = true).
    { apply andb_true_iff. split.
      - apply Z.eqb_eq. unfold y. Z.div_mod_to_equations. lia.
      - apply orb_true_iff.
        destruct (Z.eqb_spec (y mod 100) 0) as [H100 | H100]; [right | left; reflexivity].
        apply Z.eqb_eq. unfold y in *. Z.div_mod_to_equations. lia. }
    rewrite Hleap. cbn [b2z]. unfold y. clear Hleap y.
    repeat split; try lia. Z.div_mod_to_equations. lia.
  - apply orb_false_iff in Hspecial. destruct Hspecial as [Hd4' Hb4'].
    apply Z.eqb_neq in Hd4', Hb4'.
    set (leapyear := (dd =? 3) && (negb (c =? 24) || (b =? 3))).
    pose proof (month_day_spec leapyear r4 Hr4) as Hmd. unfold month_day_ok in Hmd.
    destruct (month_day leapyear r4) as [month day].
    repeat (apply andb_true_iff in Hmd; destruct Hmd as [Hmd ?]).
    repeat match goal with
           | H : (_ <=? _) = true |- _ => apply Z.leb_le in H
           | H : (_ =? _) = true |- _ => apply Z.eqb_eq in H
           end.
    set (y := a * 400 + 1 + b * 100 + c * 4 + dd).
    assert (Hleap : (y mod 4 =? 0) && (negb (y mod 100 =? 0) || (y mod 400 =? 0))
                    = leapyear).
    { unfold leapyear.
      destruct (Z.eqb_spec dd 3) as [H3 | H3].
      - replace (y mod 4 =? 0) with true
          by (symmetry; apply Z.eqb_eq; unfold y; Z.div_mod_to_equations; lia).
        cbn [andb].
        destruct (Z.eqb_spec c 24) as [H24 | H24]; cbn [negb orb].
        + replace (y mod 100 =? 0) with true
            by (symmetry; apply Z.eqb_eq; unfold y; Z.div_mod_to_equations; lia).
          cbn [negb orb].
          destruct (Z.eqb_spec b 3) as [Hb3 | Hb3].
          * apply Z.eqb_eq. unfold y. Z.div_mod_to_equations. lia.
          * apply Z.eqb_neq. unfold y. Z.div_mod_to_equations. lia.
        + replace (y mod 100 =? 0) with false; [reflexivity |].
          symmetry. apply Z.eqb_neq. unfold y. Z.div_mod_to_equations. lia.
      - replace (y mod 4 =? 0) with false; [reflexivity |].
        symmetry. apply Z.eqb_neq. unfold y. Z.div_mod_to_equations. lia. }
    rewrite Hleap.
    split; [unfold y; lia |]. split; [lia |]. split; [lia |].
    unfold y in *. clear Hleap. Z.div_mod_to_equations. lia.
Qed.

Lemma ord2ymd_inj (n n' : Z) :
  1 <= n <= MAXORDINAL -> 1 <= n' <= MAXORDINAL ->
  ord2ymd n = ord2ymd n' -> n = n'.
Proof.
  intros Hn Hn' Heq.
  pose proof (ord2ymd_round_trip n Hn) as H.
  pose proof (ord2ymd_round_trip n' Hn') as H'.
  rewrite Heq in H. destruct (ord2ymd n') as [[y m] d].
  destruct H as (_ & _ & _ & H). destruct H' as (_ & _ & _ & H'). congruence.
Qed.

Lemma digit_inj (a b : Z) : digit a = digit b -> a mod 10 = b mod 10.
Proof.
  unfold digit. intros H.
  assert (Ha : 0 <= a mod 10 < 10) by (apply Z.mod_pos_bound; lia).
  assert (Hb : 0 <= b mod 10 < 10) by (apply Z.mod_pos_bound; lia).
  apply (f_equal nat_of_ascii) in H.
  rewrite !nat_ascii_embedding in H by lia. lia.
Qed.

Lemma two_digits_inj (a b : Z) :
  0 <= a < 100 -> 0 <= b < 100 -> two_digits a = two_digits b -> a = b.
Proof.
  intros Ha Hb H. unfold two_digits in H. injection H as H1 H2.
  apply digit_inj in H1, H2. Z.div_mod_to_equations. lia.
Qed.

Lemma four_digits_inj (a b : Z) :
  0 <= a < 10000 -> 0 <= b < 10000 -> four_digits a = four_digits b -> a = b.
Proof.
  intros Ha Hb H. unfold four_digits, two_digits in H. injection H as H1 H2 H3 H4.
  apply digit_inj in H1, H2, H3, H4. Z.div_mod_to_equations. lia.
Qed.

Lemma toordinal_range (t : datetime) :
  in_range t = true -> 1 <= toordinal t <= MAXORDINAL.
Proof.
  intros H. apply in_range_spec in H. rewrite datetime_max_value in H.
  unfold toordinal, MAXORDINAL. rewrite us_per_day_value.
  Z.div_mod_to_equations. lia.
Qed.

(** Two datetimes print the same date exactly when they are on the
    same day. *)
Lemma strftime_ymd_same_day (t t' : datetime) :
  in_range t = true -> in_range t' = true ->
  String.eqb (strftime_ymd t) (strftime_ymd t') = same_day t t'.
Proof.
  intros Ht Ht'. unfold same_day.
  pose proof (toordinal_range t Ht) as Hn. pose proof (toordinal_range t' Ht') as Hn'.
  destruct (Z.eqb_spec (toordinal t) (toordinal t')) as [Heq | Hne].
  - apply String.eqb_eq. unfold strftime_ymd. now rewrite Heq.
  - apply String.eqb_neq. intros H. apply Hne. apply ord2ymd_inj; try assumption.
    unfold strftime_ymd in H.
    pose proof (ord2ymd_round_trip _ Hn) as R. pose proof (ord2ymd_round_trip _ Hn') as R'.
    destruct (ord2ymd (toordinal t)) as [[y m] d].
    destruct (ord2ymd (toordinal t')) as [[y' m'] d'].
    destruct R as (Hy & Hm & Hd & _). destruct R' as (Hy' & Hm' & Hd' & _).
    unfold four_digits, two_digits in H.
    change (String ?a (String ?b (String ?c (String ?d EmptyString))) ++ ?r)%string
      with (String a (String b (String c (String d r)))) in H.
    injection H as H1 H2 H3 H4 H5 H6 H7 H8.
    apply digit_inj in H1, H2, H3, H4, H5, H6, H7, H8.
    assert (y = y') by (Z.div_mod_to_equations; lia).
    assert (m = m') by (Z.div_mod_to_equations; lia).
    assert (d = d') by (Z.div_mod_to_equations; lia).
    congruence.
Qed.

Lemma week_key_value (created : datetime) :
  in_range created = true -> 6 * us_per_day <= created ->
  week_key created = Ok (strftime_ymd (week_start created))
  /\ in_range (week_start created) = true.
Proof.
  intros Hr Hc. unfold week_key, week_start, timedelta_days.
  pose proof (weekday_range created) as Hw.
  destruct (Z.gtb_spec (Z.abs (weekday created)) 999999999) as [? | _]; [lia |].
  cbn [bind]. unfold datetime_sub.
  assert (Hin : in_range (created - weekday created * us_per_day) = true).
  { apply in_range_spec. apply in_range_spec in Hr.
    pose proof us_per_day_value as HD. rewrite HD in *. lia. }
  split; [now rewrite Hin | exact Hin].
Qed.

(** The grouping loop counts, under the date of a day, the attempts
    whose week starts on that day. *)
Lemma group_by_week_count (attempts : list ProblemAttempt.t)
    (weekly_data grouped : gmap string Z) (current : datetime) :
  Forall (fun a => in_range (ProblemAttempt.created_at a) = true
                   /\ 6 * us_per_day <= ProblemAttempt.created_at a) attempts ->
  in_range current = true ->
  group_by_week attempts weekly_data = Ok grouped ->
  default 0 (grouped !! strftime_ymd current)
  = default 0 (weekly_data !! strftime_ymd current)
    + Z.of_nat (List.length
                  (filter (fun a => same_day (week_start (ProblemAttempt.created_at a))
                                             current) attempts)).
Proof.
  intros Hall Hcur. revert weekly_data.
  induction Hall as [| a rest [Hr Hc] _ IH]; intros weekly_data Hg.
  - cbn in Hg. injection Hg as <-. cbn. lia.
  - cbn [group_by_week] in Hg.
    destruct (week_key_value _ Hr Hc) as [Hkey Hin]. rewrite Hkey in Hg.
    cbn [bind] in Hg. rewrite (IH _ Hg). clear IH Hg. cbn [filter].
    rewrite <- (strftime_ymd_same_day _ _ Hin Hcur).
    rewrite lookup_insert.
    destruct (String.eqb_spec (strftime_ymd (week_start (ProblemAttempt.created_at a)))
                              (strftime_ymd current)) as [Heq | Hne].
    + rewrite Heq. destruct (decide (strftime_ymd current = strftime_ymd current));
        [| contradiction].
      cbn [default from_option id List.length]. lia.
    + destruct (decide (strftime_ymd (week_start (ProblemAttempt.created_at a))
                        = strftime_ymd current)); [contradiction |].
      reflexivity.
Qed.

Lemma filter_none {A} (f : A -> bool) (l : list A) :
  (forall a, In a l -> f a = false) -> filter f l = [].
Proof.
  induction l as [| a l IH]; intros H; [reflexivity |]. cbn [filter].
  rewrite (H a) by now left. apply IH. intros b Hb. apply H. now right.
Qed.

Lemma weekday_shift_weeks (t k : Z) : weekday (t + k * us_per_week) = weekday t.
Proof.
  unfold weekday, toordinal, us_per_week. pose proof us_per_day_value as HD.
  replace (t + k * (7 * us_per_day)) with (t + (7 * k) * us_per_day) by lia.
  rewrite Z.div_add by lia.
  replace (t / us_per_day + 7 * k + 1 + 6) with (t / us_per_day + 1 + 6 + k * 7) by lia.
  apply Z.mod_add. lia.
Qed.

Lemma same_day_weekday (t t' : datetime) :
  same_day t t' = true -> weekday t = weekday t'.
Proof. unfold same_day, weekday. intros H. apply Z.eqb_eq in H. now rewrite H. Qed.

(** X23. The counts of [get_weekly_activity]. With [weeks] not
    negative and the window inside the range of [datetime], bucket [i]
    is dated [i] weeks after [now - weeks] weeks, and its count is the
    number of the user's attempts in the window whose week starts, on
    its Monday, on that very day. So if the call is not made on a
    Monday, every count is 0, whatever attempts are stored. *)
Theorem get_weekly_activity_counts (user_id : string) (weeks : Z) (w : World) :
  let now := clock w (ticks w) in
  let start_date := now - weeks * us_per_week in
  0 <= weeks -> created_in_range (db w) ->
  6 * us_per_day <= start_date -> now + us_per_week <= datetime_max ->
  exists buckets,
    snd (get_weekly_activity user_id weeks w) = Some (Ok buckets)
    /\ List.length buckets = Z.to_nat (weeks + 1)
    /\ (forall i, (i < List.length buckets)%nat ->
          nth_error buckets i
          = Some {| week := strftime_ymd (start_date + Z.of_nat i * us_per_week);
                    count :=
                      Z.of_nat
                        (List.length
                           (filter
                              (fun a =>
                                 same_day (week_start (ProblemAttempt.created_at a))
                                          (start_date + Z.of_nat i * us_per_week))
                              (in_window user_id start_date (db w)))) |})
    /\ (weekday now <> 0 -> Forall (fun b => count b = 0) buckets).
Proof.
  intros now start_date Hw Hdb Hstart Hmax.
  pose proof us_per_week_value as HW. pose proof us_per_day_value as HD.
  pose proof datetime_max_value as HM.
  destruct (get_weekly_activity_dense user_id weeks w Hw Hdb Hstart Hmax)
    as (weekly_data & Hg & Hrun & Hlen).
  fold now in Hg, Hrun, Hlen. fold start_date in Hg, Hrun, Hlen.
  assert (Hall : Forall (fun a => in_range (ProblemAttempt.created_at a) = true
                                  /\ 6 * us_per_day <= ProblemAttempt.created_at a)
                   (in_window user_id start_date (db w))).
  { unfold in_window. apply Forall_forall. intros a Ha.
    apply filter_In in Ha. destruct Ha as [Hin Hf].
    apply andb_true_iff in Hf. destruct Hf as [_ Hge]. apply Z.leb_le in Hge.
    unfold created_in_range in Hdb. rewrite Forall_forall in Hdb.
    split; [now apply Hdb | lia]. }
  assert (Hbucket : forall i, (i < Z.to_nat (weeks + 1))%nat ->
            nth_error (week_buckets (Z.to_nat (weeks + 1)) weekly_data start_date) i
            = Some {| week := strftime_ymd (start_date + Z.of_nat i * us_per_week);
                      count :=
                        Z.of_nat
                          (List.length
                             (filter
                                (fun a =>
                                   same_day (week_start (ProblemAttempt.created_at a))
                                            (start_date + Z.of_nat i * us_per_week))
                                (in_window user_id start_date (db w)))) |}).
  { intros i Hi. rewrite week_buckets_nth by exact Hi. do 2 f_equal.
    assert (Hcur : in_range (start_date + Z.of_nat i * us_per_week) = true).
    { apply in_range_spec. unfold start_date in *. rewrite HW, HD, HM in *. nia. }
    rewrite (group_by_week_count _ ∅ weekly_data _ Hall Hcur Hg).
    now rewrite lookup_empty. }
  exists (week_buckets (Z.to_nat (weeks + 1)) weekly_data start_date).
  split; [exact Hrun |]. split; [exact Hlen |]. split.
  - intros i Hi. apply Hbucket. now rewrite week_buckets_length in Hi.
  - intros Hday. apply Forall_forall. intros b Hb.
    apply In_nth_error in Hb. destruct Hb as [i Hi].
    assert (Hlt : (i < Z.to_nat (weeks + 1))%nat).
    { rewrite <- (week_buckets_length (Z.to_nat (weeks + 1)) weekly_data start_date).
      apply nth_error_Some. congruence. }
    rewrite (Hbucket i Hlt) in Hi. injection Hi as <-. cbn [count].
    replace (filter _ _) with (@nil ProblemAttempt.t); [reflexivity |].
    symmetry. apply filter_none.
    intros a _. destruct (same_day _ _) eqn:Hsame; [| reflexivity].
    exfalso. apply same_day_weekday in Hsame.
    unfold week_start in Hsame. rewrite week_start_is_monday in Hsame.
    rewrite weekday_shift_weeks in Hsame. unfold start_date in Hsame.
    replace (now - weeks * us_per_week) with (now + (- weeks) * us_per_week) in Hsame
      by lia.
    rewrite weekday_shift_weeks in Hsame. congruence.
Qed.

Lemma get_weekly_activity_counts_witness :
  exists buckets,
    snd (get_weekly_activity "ada" 1 (world_2024 sample_db)) = Some (Ok buckets)
    /\ List.length buckets = 2%nat
    /\ Forall (fun b => count b = 0) buckets.
Proof.
  destruct (get_weekly_activity_counts "ada" 1 (world_2024 sample_db))
    as (buckets & Hrun & Hlen & _ & Hzero).
  - lia.
  - unfold created_in_range. cbn [world_2024 db sample_db problem_attempts].
    repeat constructor.
  - vm_compute. discriminate.
  - vm_compute. discriminate.
  - exists buckets. split; [exact Hrun |]. split; [exact Hlen |].
    apply Hzero. vm_compute. discriminate.
Defined.

(** * Rounding to nearest is monotone *)

Lemma shr_1_bits (mrs : shr_record) :
  0 <= shr_m mrs ->
  shr_r (shr_1 mrs) = Z.odd (shr_m mrs) /\
  shr_s (shr_1 mrs) = shr_r mrs || shr_s mrs.
Proof.
  destruct mrs as [m r s]. simpl. intros Hm.
  destruct m as [| [p | p |] | p]; simpl; try lia; split; reflexivity.
Qed.

Lemma shr_iter_bits (k : nat) (mrs : shr_record) :
  0 <= shr_m mrs ->
  let r := Nat.iter (S k) shr_1 mrs in
  shr_r r = Z.odd (shr_m mrs / 2 ^ Z.of_nat k) /\
  shr_s r = negb (shr_m mrs mod 2 ^ Z.of_nat k =? 0) || inexact mrs.
Proof.
  intros Hm. cbn zeta. rewrite Nat.iter_succ.
  destruct (shr_iter_spec k mrs Hm) as [Hkm Hki].
  assert (Hq : 0 <= shr_m (Nat.iter k shr_1 mrs)).
  { rewrite Hkm. apply Z.div_pos; [lia |]. apply pow2_pos. lia. }
  destruct (shr_1_bits _ Hq) as [Hr Hs].
  rewrite Hr, Hs, Hkm. split; [reflexivity |]. exact Hki.
Qed.

Lemma shr_bits (m e n : Z) :
  1 <= n -> 0 <= m ->
  exists r, shr (shr_record_of_loc m loc_Exact) e n = (r, e + n) /\
    shr_m r = m / 2 ^ n /\
    shr_r r = Z.odd (m / 2 ^ (n - 1)) /\
    shr_s r = negb (m mod 2 ^ (n - 1) =? 0).
Proof.
  intros Hn Hm. destruct n as [| p | p]; try lia.
  exists (iter_pos shr_1 p (shr_record_of_loc m loc_Exact)).
  split; [reflexivity |]. rewrite iter_pos_nat.
  assert (H0 : 0 <= shr_m (shr_record_of_loc m loc_Exact)) by exact Hm.
  pose proof (shr_iter_spec (Pos.to_nat p) _ H0) as [Hsm _].
  destruct (Pos.to_nat p) as [| k] eqn:Hk; [lia |].
  pose proof (shr_iter_bits k _ H0) as [Hr Hs]. cbn zeta in Hr, Hs.
  assert (Hpk : Zpos p = Z.of_nat (S k)) by lia.
  rewrite Hpk. replace (Z.of_nat (S k) - 1) with (Z.of_nat k) by lia.
  split; [exact Hsm |]. split; [exact Hr |].
  rewrite Hs. unfold inexact. cbn. now rewrite orb_false_r.
Qed.

(** The mantissa that rounding [m / 2^n] to nearest gives is on the
    side of the half way point that [m] is on. *)
Lemma rne_half (m n : Z) (r : shr_record) :
  1 <= n -> 0 <= m ->
  shr_m r = m / 2 ^ n ->
  shr_r r = Z.odd (m / 2 ^ (n - 1)) ->
  shr_s r = negb (m mod 2 ^ (n - 1) =? 0) ->
  let m1 := round_nearest_even (shr_m r) (loc_of_shr_record r) in
  (m1 = m / 2 ^ n /\ 2 * (m mod 2 ^ n) <= 2 ^ n)
  \/ (m1 = m / 2 ^ n + 1 /\ 2 ^ n <= 2 * (m mod 2 ^ n)).
Proof.
  intros Hn Hm Hrm Hrr Hrs. cbn zeta.
  set (h := 2 ^ (n - 1)).
  assert (Hh : 0 < h) by (apply pow2_pos; lia).
  assert (H2 : 2 ^ n = h * 2).
  { unfold h. replace n with (n - 1 + 1) at 1 by lia.
    rewrite Z.pow_add_r by lia. reflexivity. }
  rewrite H2 in *. rewrite Z.rem_mul_r by lia.
  fold h in Hrr, Hrs.
  assert (Hlow : 0 <= m mod h < h) by (apply Z.mod_pos_bound; lia).
  assert (Hbit : 0 <= (m / h) mod 2 < 2) by (apply Z.mod_pos_bound; lia).
  destruct r as [q rr rs]. cbn [shr_m shr_r shr_s] in *. subst q.
  rewrite Zodd_mod in Hrr.
  destruct (Z.eqb_spec ((m / h) mod 2) 1) as [Hb1 | Hb1];
    destruct (Z.eqb_spec (m mod h) 0) as [Hl0 | Hl0];
    subst rr rs; cbn [negb loc_of_shr_record round_nearest_even].
  - destruct (Z.even (m / (h * 2))); [left | right]; split; try reflexivity; nia.
  - right. split; [reflexivity | nia].
  - left. split; [reflexivity | nia].
  - left. split; [reflexivity | nia].
Qed.

Lemma binary_round_aux_nearest (m e : Z) :
  0 <= m ->
  let E := fexp64 (Zdigits2 m + e) in
  e <= E ->
  exists m1,
    ((m1 = m / 2 ^ (E - e) /\ 2 * (m mod 2 ^ (E - e)) <= 2 ^ (E - e))
     \/ (m1 = m / 2 ^ (E - e) + 1 /\ 2 ^ (E - e) <= 2 * (m mod 2 ^ (E - e)))) /\
    0 <= m / 2 ^ (E - e) < 2 ^ 53 /\
    (E = -1074 \/ 2 ^ 52 <= m / 2 ^ (E - e)) /\
    binary_round_aux 53 1024 false m e loc_Exact = rounded false m1 E.
Proof.
  intros Hm E HE.
  destruct (binary_round_aux_spec false m e loc_Exact Hm HE)
    as (m0 & Hm0 & Hq & Hn & Hrun). fold E in Hm0, Hq, Hn, Hrun.
  assert (Hp : 0 < 2 ^ (E - e)) by (apply pow2_pos; lia).
  assert (Hq0 : 0 <= m / 2 ^ (E - e)) by (apply Z.div_pos; lia).
  assert (Hrem : 0 <= m mod 2 ^ (E - e) < 2 ^ (E - e)) by (apply Z.mod_pos_bound; lia).
  destruct (Z.eq_dec (E - e) 0) as [Hz | Hnz].
  - exists m0. split; [| auto].
    rewrite Hz in *. rewrite Z.mod_1_r in *. left. split; [| cbn; lia].
    destruct Hm0 as [H | [_ [H | H]]]; [exact H | lia | congruence].
  - assert (HEmin : -1074 <= E) by (unfold E, fexp64; lia).
    unfold binary_round_aux, shr_fexp in Hrun |- *. rewrite !fexp64_eq in *. fold E in Hrun |- *.
    destruct (shr_bits m e (E - e) ltac:(lia) Hm) as (r & Hshr & Hrm & Hrr & Hrs).
    rewrite Hshr in Hrun |- *.
    pose proof (rne_half m (E - e) r ltac:(lia) Hm Hrm Hrr Hrs) as Hhalf.
    cbn zeta in Hhalf.
    set (m1 := round_nearest_even (shr_m r) (loc_of_shr_record r)) in *.
    exists m1. split; [exact Hhalf |]. split; [lia |]. split; [exact Hn |].
    replace (e + (E - e)) with E in * by lia.
    assert (Hb : 0 <= m1 <= 2 ^ 53) by (destruct Hhalf as [[-> _] | [-> _]]; lia).
    unfold rounded. rewrite fexp64_eq.
    destruct (Z.eqb_spec m1 0) as [H0 | H0].
    + rewrite H0. rewrite shr_nonpos; [reflexivity |]. simpl Zdigits2. unfold fexp64. lia.
    + destruct (Z.eqb_spec m1 (2 ^ 53)) as [H53 | H53].
      * rewrite H53.
        replace (Zdigits2 (2 ^ 53)) with 54 by reflexivity.
        replace (fexp64 (54 + E) - E) with 1 by (unfold fexp64; lia).
        reflexivity.
      * assert (Hd : Zdigits2 m1 <= 53).
        { pose proof (Zdigits2_pos_bounds m1 ltac:(lia)) as [Hl _].
          destruct (Z.leb_spec (Zdigits2 m1) 53); auto.
          assert (2 ^ 53 <= 2 ^ (Zdigits2 m1 - 1)) by (apply Z.pow_le_mono_r; lia). lia. }
        rewrite shr_nonpos by (unfold fexp64; lia).
        simpl shr_m. destruct m1 as [| p | p]; try lia. reflexivity.
Qed.

(** Two mantissas at the same exponent that round at the same
    exponent: the smaller does not round above the larger. *)
Lemma binary_round_aux_mono (m m' e : Z) :
  0 <= m <= m' ->
  let E := fexp64 (Zdigits2 m + e) in
  e <= E -> fexp64 (Zdigits2 m' + e) = E ->
  exists v v',
    pos_result v (binary_round_aux 53 1024 false m e loc_Exact) /\
    pos_result v' (binary_round_aux 53 1024 false m' e loc_Exact) /\
    v <= v'.
Proof.
  intros Hmm E HE HE'.
  destruct (Z.eq_dec m m') as [<- | Hlt].
  { destruct (binary_round_aux_nearest m e ltac:(lia) HE) as (m1 & H1 & Hq & Hn & ->).
    fold E in H1, Hq, Hn.
    assert (HEmin : -1074 <= E) by (unfold E, fexp64; lia).
    exists (sc m1 E), (sc m1 E).
    assert (Hb : 0 <= m1 <= 2 ^ 53) by (destruct H1 as [[-> _] | [-> _]]; lia).
    assert (Hnorm : E = -1074 \/ 2 ^ 52 <= m1) by (destruct H1 as [[-> _] | [-> _]]; lia).
    split; [now apply rounded_pos_result |].
    split; [now apply rounded_pos_result | lia]. }
  destruct (binary_round_aux_nearest m e ltac:(lia) HE) as (m1 & H1 & Hq & Hn & ->).
  fold E in H1, Hq, Hn.
  pose proof (binary_round_aux_nearest m' e ltac:(lia)) as H'. cbn zeta in H'.
  rewrite HE' in H'. destruct (H' HE) as (m1' & H1' & Hq' & Hn' & ->). clear H'.
  assert (HEmin : -1074 <= E) by (unfold E, fexp64; lia).
  assert (Hp : 0 < 2 ^ (E - e)) by (apply pow2_pos; lia).
  assert (Hle : m1 <= m1').
  { assert (Hdiv : m / 2 ^ (E - e) <= m' / 2 ^ (E - e)) by (apply Z.div_le_mono; lia).
    pose proof (Z.div_mod m (2 ^ (E - e)) ltac:(lia)) as Hdm.
    pose proof (Z.div_mod m' (2 ^ (E - e)) ltac:(lia)) as Hdm'.
    pose proof (Z.mod_pos_bound m (2 ^ (E - e)) Hp).
    pose proof (Z.mod_pos_bound m' (2 ^ (E - e)) Hp).
    destruct H1 as [[-> Hh] | [-> Hh]], H1' as [[-> Hh'] | [-> Hh']]; try lia.
    destruct (Z.eq_dec (m / 2 ^ (E - e)) (m' / 2 ^ (E - e))) as [Heq | Hne]; [| lia].
    exfalso. rewrite Heq in Hdm.
    generalize dependent (m mod 2 ^ (E - e)).
    generalize dependent (m' mod 2 ^ (E - e)).
    generalize dependent (m' / 2 ^ (E - e)).
    generalize dependent (2 ^ (E - e)).
    intros. nia. }
  exists (sc m1 E), (sc m1' E).
  split; [apply rounded_pos_result; [| lia |]|].
  - destruct H1 as [[-> _] | [-> _]]; lia.
  - destruct H1 as [[-> _] | [-> _]]; lia.
  - split; [apply rounded_pos_result; [| lia |]|].
    + destruct H1' as [[-> _] | [-> _]]; lia.
    + destruct H1' as [[-> _] | [-> _]]; lia.
    + apply sc_le_mono_m; lia.
Qed.

Lemma Zdigits2_mono (m m' : Z) : 0 < m <= m' -> Zdigits2 m <= Zdigits2 m'.
Proof.
  intros H. pose proof (Zdigits2_pos_bounds m ltac:(lia)) as [Hl _].
  pose proof (Zdigits2_pos_bounds m' ltac:(lia)) as [_ Hu].
  destruct (Z.le_gt_cases (Zdigits2 m) (Zdigits2 m')) as [Hle | Hgt]; [exact Hle |].
  assert (2 ^ Zdigits2 m' <= 2 ^ (Zdigits2 m - 1)) by (apply Z.pow_le_mono_r; lia).
  lia.
Qed.

(** Rounding an integer multiple of [2^e] to a double is monotone. *)
Lemma binary_round_mono (M M' : positive) (e : Z) :
  -1074 <= e -> Zpos M <= Zpos M' ->
  exists v v',
    pos_result v (binary_round 53 1024 false M e) /\
    pos_result v' (binary_round 53 1024 false M' e) /\
    v <= v'.
Proof.
  intros He HM.
  set (d := Zdigits2 (Zpos M)). set (d' := Zdigits2 (Zpos M')).
  assert (Hd : d <= d') by (apply Zdigits2_mono; lia).
  assert (Hd1 : 1 <= d) by (unfold d; simpl; lia).
  destruct (Z.eq_dec (fexp64 (d + e)) (fexp64 (d' + e))) as [HE | HE].
  - unfold binary_round.
    change (Zpos (digits2_pos M)) with d. change (Zpos (digits2_pos M')) with d'.
    change (fexp 53 1024 (d + e)) with (fexp64 (d + e)).
    change (fexp 53 1024 (d' + e)) with (fexp64 (d' + e)).
    rewrite <- HE. set (E := fexp64 (d + e)) in *.
    assert (HEmin : -1074 <= E) by (unfold E, fexp64; lia).
    destruct (Z.le_gt_cases e E) as [Hc | Hc].
    + rewrite !shl_align_id by exact Hc.
      apply (binary_round_aux_mono (Zpos M) (Zpos M') e); [lia | exact Hc |].
      fold d'. now rewrite <- HE.
    + destruct (shl_align_spec M e E ltac:(lia)) as [Hm Hs].
      destruct (shl_align_spec M' e E ltac:(lia)) as [Hm' Hs'].
      destruct (shl_align M e E) as [mz ez]. destruct (shl_align M' e E) as [mz' ez'].
      cbn [fst snd] in *. subst ez ez'.
      assert (Hp : 0 < 2 ^ (e - E)) by (apply pow2_pos; lia).
      assert (Hdz : Zdigits2 (Zpos mz) + E = d + e).
      { rewrite Hm, Zdigits2_shift by lia. fold d. lia. }
      assert (Hdz' : Zdigits2 (Zpos mz') + E = d' + e).
      { rewrite Hm', Zdigits2_shift by lia. fold d'. lia. }
      apply (binary_round_aux_mono (Zpos mz) (Zpos mz') E).
      * rewrite Hm, Hm'. nia.
      * rewrite Hdz. fold E. lia.
      * rewrite Hdz', Hdz. now rewrite <- HE.
  - assert (Hlt : d < d').
    { destruct (Z.eq_dec d d') as [Heq | Hne]; [| lia]. now rewrite Heq in HE. }
    destruct (binary_round_interval M e ltac:(lia)) as (v & Hv & _ & Hle).
    destruct (binary_round_interval M' e ltac:(lia)) as (v' & Hv' & Hge' & _).
    exists v, v'. split; [exact Hv |]. split; [exact Hv' |].
    assert (Hrepr : repr 1 (e + d)) by (split; lia).
    pose proof (Zdigits2_pos_bounds (Zpos M) ltac:(lia)) as [_ Hu]. fold d in Hu.
    pose proof (Zdigits2_pos_bounds (Zpos M') ltac:(lia)) as [Hl' _]. fold d' in Hl'.
    assert (Hpow : 2 ^ d <= 2 ^ (d' - 1)) by (apply Z.pow_le_mono_r; lia).
    assert (Hb : sc 1 (e + d) = sc (2 ^ d) e).
    { rewrite <- sc_shift by lia. f_equal. lia. }
    apply Z.le_trans with (sc 1 (e + d)).
    + apply Hle; [exact Hrepr |]. rewrite Hb. apply sc_le_mono_m; lia.
    + apply Hge'; [exact Hrepr |]. rewrite Hb. apply sc_le_mono_m; lia.
Qed.

(** ** Streaks of answers *)

Lemma pos_result_unique v v' x :
  pos_result v x -> pos_result v' x -> is_finite x = true -> v = v'.
Proof.
  intros H H' Hf. rewrite <- (pos_result_scaled v x H Hf).
  now apply pos_result_scaled.
Qed.

Lemma sub_fifth_mono (m m' : positive) (e e' : Z) :
  bounded 53 1024 m e = true -> bounded 53 1024 m' e' = true ->
  -55 <= e -> -55 <= e' ->
  sc (Zpos m0_1) (-55) < sc (Zpos m) e -> sc (Zpos m) e <= sc (Zpos m') e' ->
  exists v v',
    pos_result v (Float64.sub (S754_finite false m e) f0_2) /\
    pos_result v' (Float64.sub (S754_finite false m' e') f0_2) /\
    v <= v'.
Proof.
  intros Hb Hb' He He' Hlo Hle.
  unfold Float64.sub, f0_2. cbn [SFsub cond_Zopp].
  replace (Z.min e (-55)) with (-55) by lia.
  replace (Z.min e' (-55)) with (-55) by lia.
  destruct (shl_align_spec m e (-55) He) as [Ha _].
  destruct (shl_align_spec m' e' (-55) He') as [Ha' _].
  destruct (shl_align_spec m0_1 (-55) (-55) ltac:(lia)) as [Hc _].
  set (a := fst (shl_align m e (-55))) in *.
  set (a' := fst (shl_align m' e' (-55))) in *.
  set (c := fst (shl_align m0_1 (-55) (-55))) in *.
  assert (Hsa : sc (Zpos a) (-55) = sc (Zpos m) e).
  { rewrite Ha, sc_shift by lia. f_equal. lia. }
  assert (Hsa' : sc (Zpos a') (-55) = sc (Zpos m') e').
  { rewrite Ha', sc_shift by lia. f_equal. lia. }
  assert (Hsc : sc (Zpos c) (-55) = sc (Zpos m0_1) (-55)).
  { rewrite Hc, sc_shift by lia. f_equal. }
  assert (Hca : Zpos c < Zpos a) by (apply sc_lt_inv with (e := -55); lia).
  assert (Haa : Zpos a <= Zpos a') by (apply sc_le_inv with (e := -55); lia).
  destruct (Zpos a - Zpos c) as [| p | p] eqn:Hd; try lia.
  destruct (Zpos a' - Zpos c) as [| p' | p'] eqn:Hd'; try lia.
  cbn [binary_normalize]. apply binary_round_mono; lia.
Qed.

Lemma add_tenth_mono (m m' : positive) (e e' : Z) :
  bounded 53 1024 m e = true -> bounded 53 1024 m' e' = true ->
  -56 <= e -> -56 <= e' ->
  sc (Zpos m) e <= sc (Zpos m') e' ->
  exists v v',
    pos_result v (Float64.add (S754_finite false m e) f0_1) /\
    pos_result v' (Float64.add (S754_finite false m' e') f0_1) /\
    v <= v'.
Proof.
  intros Hb Hb' He He' Hle.
  unfold Float64.add, f0_1. cbn [SFadd cond_Zopp].
  replace (Z.min e (-56)) with (-56) by lia.
  replace (Z.min e' (-56)) with (-56) by lia.
  destruct (shl_align_spec m e (-56) He) as [Ha _].
  destruct (shl_align_spec m' e' (-56) He') as [Ha' _].
  set (a := fst (shl_align m e (-56))) in *.
  set (a' := fst (shl_align m' e' (-56))) in *.
  set (c := fst (shl_align m0_1 (-56) (-56))) in *.
  assert (Hsa : sc (Zpos a) (-56) = sc (Zpos m) e).
  { rewrite Ha, sc_shift by lia. f_equal. lia. }
  assert (Hsa' : sc (Zpos a') (-56) = sc (Zpos m') e').
  { rewrite Ha', sc_shift by lia. f_equal. lia. }
  assert (Haa : Zpos a <= Zpos a') by (apply sc_le_inv with (e := -56); lia).
  change (Zpos a + Zpos c) with (Zpos (a + c)).
  change (Zpos a' + Zpos c) with (Zpos (a' + c)).
  cbn [binary_normalize]. apply binary_round_mono; lia.
Qed.

Lemma ease_in_range_leb (x y : float) :
  ease_in_range x = true -> ease_in_range y = true ->
  Float64.leb x y = true <-> scaled x <= scaled y.
Proof.
  intros Hx Hy.
  destruct (ease_in_range_inv x Hx) as (m & e & -> & Hb & _ & _).
  destruct (ease_in_range_inv y Hy) as (m' & e' & -> & Hb' & _ & _).
  rewrite (leb_pos_result _ _ _ _ (pos_result_of_bounded _ _ Hb)
             (pos_result_of_bounded _ _ Hb')) by reflexivity.
  cbn [scaled]. apply Z.leb_le.
Qed.

Lemma ease_after_wrong_range (x : float) :
  ease_in_range x = true -> ease_in_range (ease_after_wrong x) = true.
Proof. intros Hx. now destruct (incorrect_ease x Hx). Qed.

Lemma ease_after_correct_range (x : float) :
  ease_in_range x = true -> ease_in_range (ease_after_correct x) = true.
Proof. intros Hx. now destruct (correct_ease x Hx). Qed.

(** A lower ease is a lower ease after a wrong answer. *)
Lemma ease_after_wrong_mono (x y : float) :
  ease_in_range x = true -> ease_in_range y = true ->
  Float64.leb x y = true ->
  Float64.leb (ease_after_wrong x) (ease_after_wrong y) = true.
Proof.
  intros Hx Hy Hxy.
  apply (ease_in_range_leb x y Hx Hy) in Hxy.
  destruct (ease_in_range_inv x Hx) as (m & e & -> & Hb & [Hlo Hhi] & Hcase).
  destruct (ease_in_range_inv y Hy) as (m' & e' & -> & Hb' & [Hlo' Hhi'] & Hcase').
  cbn [scaled] in Hxy.
  pose proof (bounded_inv m e Hb) as (He & Hm & _).
  pose proof (bounded_inv m' e' Hb') as (He' & Hm' & _).
  pose proof fifth_below_floor as H02.
  assert (Hposc : 0 < sc (Zpos m0_1) (-55)) by (apply sc_pos; lia).
  destruct (sub_fifth_mono m m' e e' Hb Hb' ltac:(lia) ltac:(lia) ltac:(lia) Hxy)
    as (v & v' & Hv & Hv' & Hvv).
  destruct (sub_interval m e m0_1 (-55) Hb bounded_f0_2 ltac:(lia))
    as (v0 & Hv0 & _ & Hle0).
  destruct (sub_interval m' e' m0_1 (-55) Hb' bounded_f0_2 ltac:(lia))
    as (v0' & Hv0' & _ & Hle0').
  fold f0_2 in Hv0, Hv0'.
  assert (Hfin : is_finite (Float64.sub (S754_finite false m e) f0_2) = true).
  { apply pos_result_finite with (v := v0) (my := Zpos m) (ey := e);
      [exact Hv0 | split; lia | lia |]. apply Hle0; [split; lia | lia]. }
  assert (Hfin' : is_finite (Float64.sub (S754_finite false m' e') f0_2) = true).
  { apply pos_result_finite with (v := v0') (my := Zpos m') (ey := e');
      [exact Hv0' | split; lia | lia |]. apply Hle0'; [split; lia | lia]. }
  pose proof (pos_result_of_bounded _ _ bounded_f1_3) as P13.
  unfold ease_after_wrong, Float64.py_max.
  change f1_3 with (S754_finite false m1_3 (-52)).
  rewrite (ltb_pos_result _ _ _ _ P13 Hv), (ltb_pos_result _ _ _ _ P13 Hv') by auto.
  destruct (Z.ltb_spec (sc (Zpos m1_3) (-52)) v) as [H1 | H1],
           (Z.ltb_spec (sc (Zpos m1_3) (-52)) v') as [H2 | H2].
  - rewrite (leb_pos_result _ _ _ _ Hv Hv') by auto. apply Z.leb_le. lia.
  - lia.
  - rewrite (leb_pos_result _ _ _ _ P13 Hv') by auto. apply Z.leb_le. lia.
  - rewrite (leb_pos_result _ _ _ _ P13 P13) by auto. apply Z.leb_le. lia.
Qed.

(** A higher ease is a higher ease after a correct answer. *)
Lemma ease_after_correct_mono (x y : float) :
  ease_in_range x = true -> ease_in_range y = true ->
  Float64.leb x y = true ->
  Float64.leb (ease_after_correct x) (ease_after_correct y) = true.
Proof.
  intros Hx Hy Hxy.
  apply (ease_in_range_leb x y Hx Hy) in Hxy.
  destruct (ease_in_range_inv x Hx) as (m & e & -> & Hb & [Hlo Hhi] & Hcase).
  destruct (ease_in_range_inv y Hy) as (m' & e' & -> & Hb' & [Hlo' Hhi'] & Hcase').
  cbn [scaled] in Hxy.
  pose proof (bounded_inv m e Hb) as (He & Hm & _).
  pose proof (bounded_inv m' e' Hb') as (He' & Hm' & _).
  destruct (add_tenth_mono m m' e e' Hb Hb' ltac:(lia) ltac:(lia) Hxy)
    as (v & v' & Hv & Hv' & Hvv).
  destruct (add_interval m e m0_1 (-56) Hb bounded_f0_1) as (v0 & Hv0 & _ & Hle0).
  destruct (add_interval m' e' m0_1 (-56) Hb' bounded_f0_1) as (v0' & Hv0' & _ & Hle0').
  fold f0_1 in Hv0, Hv0'.
  pose proof sum_below_four as H4.
  assert (Hfin : is_finite (Float64.add (S754_finite false m e) f0_1) = true).
  { apply pos_result_finite with (v := v0) (my := 2 ^ 53) (ey := -51);
      [exact Hv0 | split; lia | lia |]. apply Hle0; [split; lia | lia]. }
  assert (Hfin' : is_finite (Float64.add (S754_finite false m' e') f0_1) = true).
  { apply pos_result_finite with (v := v0') (my := 2 ^ 53) (ey := -51);
      [exact Hv0' | split; lia | lia |]. apply Hle0'; [split; lia | lia]. }
  pose proof (pos_result_of_bounded _ _ bounded_f2_5) as P25.
  unfold ease_after_correct, Float64.py_min.
  change f2_5 with (S754_finite false m2_5 (-51)).
  rewrite (ltb_pos_result _ _ _ _ Hv P25), (ltb_pos_result _ _ _ _ Hv' P25) by auto.
  destruct (Z.ltb_spec v (sc (Zpos m2_5) (-51))) as [H1 | H1],
           (Z.ltb_spec v' (sc (Zpos m2_5) (-51))) as [H2 | H2].
  - rewrite (leb_pos_result _ _ _ _ Hv Hv') by auto. apply Z.leb_le. lia.
  - rewrite (leb_pos_result _ _ _ _ Hv P25) by auto. apply Z.leb_le. lia.
  - lia.
  - rewrite (leb_pos_result _ _ _ _ P25 P25) by auto. apply Z.leb_le. lia.
Qed.

Lemma ease_eq (x y : float) :
  ease_in_range x = true -> ease_in_range y = true ->
  Float64.leb x y = true -> Float64.leb y x = true -> x = y.
Proof.
  intros Hx Hy Hxy Hyx.
  apply (ease_in_range_leb x y Hx Hy) in Hxy.
  apply (ease_in_range_leb y x Hy Hx) in Hyx.
  destruct (ease_in_range_inv x Hx) as (m & e & -> & Hb & _ & _).
  destruct (ease_in_range_inv y Hy) as (m' & e' & -> & Hb' & _ & _).
  cbn [scaled] in *.
  pose proof (bounded_inv m e Hb) as (He & _ & _).
  destruct (Z.lt_trichotomy e e') as [Hlt | [Heq | Hgt]].
  - pose proof (sc_lt_exp m e m' e' Hb Hb' Hlt). lia.
  - subst e'. assert (Zpos m = Zpos m').
    { apply Z.le_antisymm; apply sc_le_inv with (e := e); lia. }
    congruence.
  - pose proof (sc_lt_exp m' e' m e Hb' Hb ltac:(lia)). lia.
Qed.

Lemma iter_ease_mono (f : float -> float) (n : nat) (x y : float) :
  (forall x, ease_in_range x = true -> ease_in_range (f x) = true) ->
  (forall x y, ease_in_range x = true -> ease_in_range y = true ->
               Float64.leb x y = true -> Float64.leb (f x) (f y) = true) ->
  ease_in_range x = true -> ease_in_range y = true -> Float64.leb x y = true ->
  ease_in_range (Nat.iter n f x) = true /\ ease_in_range (Nat.iter n f y) = true /\
  Float64.leb (Nat.iter n f x) (Nat.iter n f y) = true.
Proof.
  intros Hrange Hmono Hx Hy Hxy. induction n as [| n (IHx & IHy & IH)].
  - cbn [Nat.iter]. repeat split; assumption.
  - cbn [Nat.iter]. repeat split; [apply Hrange | apply Hrange | apply Hmono]; assumption.
Qed.

Lemma iter_fixed {A} (f : A -> A) (x : A) (k : nat) :
  f x = x -> Nat.iter k f x = x.
Proof.
  intros Hf. induction k as [| k IH]; [reflexivity |].
  rewrite Nat.iter_succ, IH. exact Hf.
Qed.

Lemma ease_floor_in_range : ease_in_range f1_3 = true.
Proof. vm_compute. reflexivity. Qed.

Lemma ease_ceiling_in_range : ease_in_range f2_5 = true.
Proof. vm_compute. reflexivity. Qed.

Lemma six_wrong_from_ceiling : Nat.iter 6 ease_after_wrong f2_5 = f1_3.
Proof. vm_compute. reflexivity. Qed.

Lemma twelve_correct_from_floor : Nat.iter 12 ease_after_correct f1_3 = f2_5.
Proof. vm_compute. reflexivity. Qed.

Lemma ease_floor_fixed : ease_after_wrong f1_3 = f1_3.
Proof. vm_compute. reflexivity. Qed.

Lemma ease_ceiling_fixed : ease_after_correct f2_5 = f2_5.
Proof. vm_compute. reflexivity. Qed.

Lemma iter_reaches (f : float -> float) (n : nat) (x top target : float) :
  (forall x, ease_in_range x = true -> ease_in_range (f x) = true) ->
  (forall x y, ease_in_range x = true -> ease_in_range y = true ->
               Float64.leb x y = true -> Float64.leb (f x) (f y) = true) ->
  ease_in_range x = true -> ease_in_range top = true ->
  ease_in_range target = true ->
  Float64.leb x top = true ->
  Nat.iter n f top = target ->
  (forall z, ease_in_range z = true -> Float64.leb target z = true) ->
  Nat.iter n f x = target.
Proof.
  intros Hrange Hmono Hx Htop Htarget Hle Hiter Hlow.
  destruct (iter_ease_mono f n x top Hrange Hmono Hx Htop Hle) as (Hr & _ & Hup).
  rewrite Hiter in Hup.
  apply ease_eq; [exact Hr | exact Htarget | exact Hup | now apply Hlow].
Qed.

Lemma iter_reaches_up (f : float -> float) (n : nat) (x bottom target : float) :
  (forall x, ease_in_range x = true -> ease_in_range (f x) = true) ->
  (forall x y, ease_in_range x = true -> ease_in_range y = true ->
               Float64.leb x y = true -> Float64.leb (f x) (f y) = true) ->
  ease_in_range x = true -> ease_in_range bottom = true ->
  ease_in_range target = true ->
  Float64.leb bottom x = true ->
  Nat.iter n f bottom = target ->
  (forall z, ease_in_range z = true -> Float64.leb z target = true) ->
  Nat.iter n f x = target.
Proof.
  intros Hrange Hmono Hx Hbot Htarget Hle Hiter Hhigh.
  destruct (iter_ease_mono f n bottom x Hrange Hmono Hbot Hx Hle) as (_ & Hr & Hlow).
  rewrite Hiter in Hlow.
  apply ease_eq; [exact Hr | exact Htarget | now apply Hhigh | exact Hlow].
Qed.

Lemma ease_above_floor (z : float) :
  ease_in_range z = true -> Float64.leb f1_3 z = true.
Proof.
  unfold ease_in_range. intros Hz. apply andb_true_iff in Hz. destruct Hz as [Hz _].
  apply andb_true_iff in Hz. tauto.
Qed.

Lemma ease_below_ceiling (z : float) :
  ease_in_range z = true -> Float64.leb z f2_5 = true.
Proof.
  unfold ease_in_range. intros Hz. apply andb_true_iff in Hz. tauto.
Qed.

Lemma ease_floor_reached (x : float) (n : nat) :
  ease_in_range x = true -> (6 <= n)%nat -> Nat.iter n ease_after_wrong x = f1_3.
Proof.
  intros Hx Hn.
  replace n with ((n - 6) + 6)%nat by lia. rewrite Nat.iter_add.
  rewrite (iter_reaches ease_after_wrong 6 x f2_5 f1_3 ease_after_wrong_range
             ease_after_wrong_mono Hx ease_ceiling_in_range ease_floor_in_range
             (ease_below_ceiling x Hx) six_wrong_from_ceiling ease_above_floor).
  exact (iter_fixed ease_after_wrong f1_3 (n - 6) ease_floor_fixed).
Qed.

Lemma ease_ceiling_reached (x : float) (n : nat) :
  ease_in_range x = true -> (12 <= n)%nat -> Nat.iter n ease_after_correct x = f2_5.
Proof.
  intros Hx Hn.
  replace n with ((n - 12) + 12)%nat by lia. rewrite Nat.iter_add.
  rewrite (iter_reaches_up ease_after_correct 12 x f1_3 f2_5 ease_after_correct_range
             ease_after_correct_mono Hx ease_floor_in_range ease_ceiling_in_range
             (ease_above_floor x Hx) twelve_correct_from_floor ease_below_ceiling).
  exact (iter_fixed ease_after_correct f2_5 (n - 12) ease_ceiling_fixed).
Qed.

(** ** Streaks of reviews *)

Lemma attempt_after_values a wc w ni ne :
  new_review_values a wc = Ok (ni, ne) ->
  ProblemAttempt.review_interval_days
    (attempt_after (calculate_next_review a wc w)) = ni /\
  ProblemAttempt.ease_factor
    (attempt_after (calculate_next_review a wc w)) = ne.
Proof.
  intros H. rewrite (calculate_next_review_values a wc w ni ne H). cbn zeta.
  destruct (plus_days _ _); split; reflexivity.
Qed.

Lemma run_reviews_app (l1 l2 : list bool) (a : ProblemAttempt.t) (w : World) :
  run_reviews (l1 ++ l2) a w
  = run_reviews l2 (snd (run_reviews l1 a w)) (fst (run_reviews l1 a w)).
Proof.
  revert a w. induction l1 as [| wc l1 IH]; intros a w; [reflexivity |].
  cbn [app run_reviews].
  destruct (calculate_next_review a wc w) as [[w1 a1] r]. apply IH.
Qed.

Lemma repeat_split {A} (x : A) (n k : nat) :
  (k <= n)%nat -> repeat x n = repeat x k ++ repeat x (n - k).
Proof.
  intros H. rewrite <- repeat_app. f_equal. lia.
Qed.

Lemma wrong_streak (n : nat) (a : ProblemAttempt.t) (w : World) :
  let a' := snd (run_reviews (repeat false n) a w) in
  ProblemAttempt.ease_factor a'
  = Nat.iter n ease_after_wrong (ProblemAttempt.ease_factor a) /\
  ((1 <= n)%nat -> ProblemAttempt.review_interval_days a' = 1).
Proof.
  cbn zeta. revert a w. induction n as [| n IH]; intros a w.
  - split; [reflexivity | lia].
  - cbn [repeat run_reviews].
    destruct (attempt_after_values a false w 1
                (ease_after_wrong (ProblemAttempt.ease_factor a)) eq_refl)
      as [Hi He].
    unfold attempt_after in Hi, He.
    destruct (calculate_next_review a false w) as [[w1 a1] r].
    cbn [fst snd] in Hi, He.
    destruct (IH a1 w1) as [IHe IHi]. split.
    + rewrite IHe, He. symmetry. apply Nat.iter_succ_r.
    + intros _. destruct n as [| n]; [exact Hi | apply IHi; lia].
Qed.

Lemma pos_result_finite_below v x :
  pos_result v x -> v < sc 1 1024 -> is_finite x = true.
Proof.
  intros Hx Hlt. destruct Hx as [| | Hinf]; try reflexivity.
  rewrite sc_pow2 in Hinf by lia. change (971 + 53) with 1024 in Hinf. lia.
Qed.

Lemma sc_mul (a b ea eb : Z) :
  -2148 <= ea -> -2148 <= eb -> -2148 <= ea + eb ->
  sc a ea * sc b eb = sc (a * b) (ea + eb) * 2 ^ 2148.
Proof.
  intros Ha Hb Hab. unfold sc.
  assert (H : 2 ^ (ea + 2148) * 2 ^ (eb + 2148) = 2 ^ (ea + eb + 2148) * 2 ^ 2148).
  { rewrite <- !Z.pow_add_r by lia. f_equal. lia. }
  transitivity (a * b * (2 ^ (ea + 2148) * 2 ^ (eb + 2148))); [ring |].
  rewrite H. ring.
Qed.

Lemma sc_product_le (a b c d : Z) (ea eb ec ed : Z) :
  0 <= a -> 0 <= b -> 0 <= c -> 0 <= d ->
  -2148 <= ea -> -2148 <= eb -> -2148 <= ec -> -2148 <= ed ->
  -2148 <= ea + eb -> -2148 <= ec + ed ->
  sc a ea <= sc c ec -> sc b eb <= sc d ed ->
  sc (a * b) (ea + eb) <= sc (c * d) (ec + ed).
Proof.
  intros Ha Hb Hc Hd Hea Heb Hec Hed Hab Hcd H1 H2.
  assert (Hmul : sc a ea * sc b eb <= sc c ec * sc d ed).
  { apply Z.mul_le_mono_nonneg; auto; apply sc_zero_le; lia. }
  rewrite !sc_mul in Hmul by lia.
  apply Z.mul_le_mono_pos_r in Hmul; [exact Hmul | apply pow2_pos; lia].
Qed.

Lemma ease_below_four : sc (Zpos m2_5) (-51) <= sc 1 2.
Proof. vm_compute. discriminate. Qed.

(** A correct answer on an interval of at most [2^k] days, [k] at most
    1000: the product is finite, the conversion succeeds, and the new
    interval is at most [2^(k+2)]. *)
Lemma correct_step_bound (i : Z) (x : float) (k : Z) :
  1 <= i <= 2 ^ k -> 0 <= k <= 1000 -> ease_in_range x = true ->
  exists p ni,
    Float64.int_mul i x = Ok p /\ Float64.to_int p = Ok ni /\
    (i <= ni <= 2 ^ (k + 2)).
Proof.
  intros Hi Hk Hx. pose proof Hx as Hx'.
  apply ease_in_range_inv in Hx'.
  destruct Hx' as (m & e & -> & Hb & [Hlo Hhi] & Hcase).
  pose proof (bounded_inv m e Hb) as (He & Hm & _).
  destruct (of_int_interval i ltac:(lia)) as (vf & Hvf & Hge & Hle).
  assert (Hvk : vf <= sc 1 k).
  { apply Hle; [split; lia |].
    replace (sc 1 k) with (sc (2 ^ k) 0) by (rewrite sc_pow2 by lia; f_equal; lia).
    apply sc_le_mono_m; lia. }
  assert (Hk1024 : sc 1 k < sc 1 1024) by (apply sc_lt_mono_e; lia).
  assert (Hff : is_finite (binary_normalize 53 1024 i 0 false) = true).
  { apply pos_result_finite_below with (v := vf); [exact Hvf | lia]. }
  assert (Hf : exists f, Float64.of_int i = Ok f /\ binary_normalize 53 1024 i 0 false = f).
  { unfold Float64.of_int, Float64.prec, Float64.emax.
    destruct (binary_normalize 53 1024 i 0 false); try discriminate; eauto. }
  destruct Hf as (f & Hf & Hfeq). rewrite Hfeq in Hvf.
  destruct (of_int_positive i f ltac:(lia) Hf) as (mf & ef & -> & Hbf & Hnf & Hef & Hulp).
  pose proof (bounded_inv mf ef Hbf) as (Hef' & Hmf & _).
  assert (Hsf : sc (Zpos mf) ef = vf) by (inversion Hvf; assumption).
  destruct (mul_interval mf ef m e Hbf Hb) as (vp & Hvp & _ & Hup).
  assert (Hprod : vp <= sc 1 (k + 2)).
  { apply Hup; [split; lia |].
    pose proof ease_below_four.
    apply (sc_product_le (Zpos mf) (Zpos m) 1 1 ef e k 2); lia. }
  assert (Hk2 : sc 1 (k + 2) < sc 1 1024) by (apply sc_lt_mono_e; lia).
  assert (Hpf : is_finite (Float64.mul (S754_finite false mf ef) (S754_finite false m e)) = true).
  { apply pos_result_finite_below with (v := vp); [exact Hvp | lia]. }
  assert (Hni : exists ni, Float64.to_int
                  (Float64.mul (S754_finite false mf ef) (S754_finite false m e)) = Ok ni).
  { destruct Hvp; [eexists; reflexivity | eexists; reflexivity | discriminate]. }
  destruct Hni as (ni & Hni).
  assert (Hp : Float64.int_mul i (S754_finite false m e)
               = Ok (Float64.mul (S754_finite false mf ef) (S754_finite false m e))).
  { unfold Float64.int_mul. rewrite Hf. reflexivity. }
  exists (Float64.mul (S754_finite false mf ef) (S754_finite false m e)), ni.
  split; [exact Hp |]. split; [exact Hni |].
  destruct (correct_interval i _ _ ni ltac:(lia) Hx Hp Hni) as (Hlow & _ & Hval).
  split; [exact Hlow |].
  rewrite (pos_result_scaled vp _ Hvp Hpf) in Hval. subst ni.
  apply Z.div_le_upper_bound; [apply pow2_pos; lia |].
  unfold sc in Hprod. rewrite Z.mul_1_l in Hprod.
  rewrite Z.pow_add_r in Hprod by lia. lia.
Qed.

Lemma correct_streak (n : nat) (a : ProblemAttempt.t) (w : World) (k : Z) :
  review_state_ok a ->
  ProblemAttempt.review_interval_days a <= 2 ^ k -> 0 <= k ->
  k + 2 * Z.of_nat n <= 1002 ->
  let a' := snd (run_reviews (repeat true n) a w) in
  ProblemAttempt.ease_factor a'
  = Nat.iter n ease_after_correct (ProblemAttempt.ease_factor a) /\
  (ProblemAttempt.review_interval_days a <= ProblemAttempt.review_interval_days a'
   <= 2 ^ (k + 2 * Z.of_nat n)).
Proof.
  cbn zeta. revert a w k. induction n as [| n IH]; intros a w k Hok Hik Hk Hkn.
  - cbn [repeat run_reviews snd Nat.iter]. rewrite Z.add_0_r. split; [reflexivity | lia].
  - cbn [repeat run_reviews].
    destruct Hok as [Hi He].
    destruct (correct_step_bound _ _ k (conj Hi Hik) ltac:(lia) He)
      as (p & ni & Hp & Hni & Hlo & Hhi).
    pose proof (new_review_values_correct a p ni Hp Hni) as Hv.
    pose proof (review_state_after a true w (conj Hi He)) as Hnext.
    destruct (attempt_after_values a true w ni _ Hv) as [Hai Hae].
    unfold attempt_after in Hai, Hae.
    destruct (calculate_next_review a true w) as [[w1 a1] r].
    cbn [fst snd] in Hai, Hae, Hnext.
    destruct (IH a1 w1 (k + 2) Hnext ltac:(lia) ltac:(lia) ltac:(lia)) as [IHe IHi].
    split.
    + rewrite IHe, Hae. symmetry.
      exact (Nat.iter_succ_r n float ease_after_correct (ProblemAttempt.ease_factor a)).
    + replace (k + 2 * Z.of_nat (S n)) with (k + 2 + 2 * Z.of_nat n) by lia. lia.
Qed.

Lemma ceiling_kept (n : nat) (a : ProblemAttempt.t) (w : World) :
  ProblemAttempt.ease_factor a = f2_5 ->
  ProblemAttempt.ease_factor (snd (run_reviews (repeat true n) a w)) = f2_5.
Proof.
  revert a w. induction n as [| n IH]; intros a w Ha; [exact Ha |].
  cbn [repeat run_reviews].
  pose proof (attempt_after_cases a true w) as Hc. unfold attempt_after in Hc.
  destruct (calculate_next_review a true w) as [[w1 a1] r]. cbn [fst snd] in Hc.
  apply IH. destruct Hc as [[_ ->] | (ni & ne & Hv & _ & <-)]; [exact Ha |].
  apply new_review_values_true_inv in Hv. destruct Hv as (p & _ & _ & ->).
  rewrite Ha. exact ease_ceiling_fixed.
Qed.

(** X24. Six wrong answers in a row, or more, from any ease in
    [1.3, 2.5]: the ease factor is exactly the floor 1.3 and the
    interval is one day, whatever the calls returned. *)
Theorem wrong_streak_reaches_floor (n : nat) (a : ProblemAttempt.t) (w : World) :
  ease_in_range (ProblemAttempt.ease_factor a) = true -> (6 <= n)%nat ->
  let a' := snd (run_reviews (repeat false n) a w) in
  ProblemAttempt.ease_factor a' = f1_3 /\
  ProblemAttempt.review_interval_days a' = 1.
Proof.
  intros He Hn. destruct (wrong_streak n a w) as [H1 H2]. cbn zeta in *. split.
  - rewrite H1. now apply ease_floor_reached.
  - apply H2. lia.
Qed.

Lemma wrong_streak_reaches_floor_witness :
  let a' := snd (run_reviews (repeat false 7)
                   (sample_attempt 1 tuesday None 30 f2_0) (world_2024 empty_db)) in
  ProblemAttempt.ease_factor a' = f1_3 /\
  ProblemAttempt.review_interval_days a' = 1.
Proof.
  apply (wrong_streak_reaches_floor 7 (sample_attempt 1 tuesday None 30 f2_0)
           (world_2024 empty_db)).
  - vm_compute. reflexivity.
  - lia.
Defined.

(** X25. Twelve right answers in a row, or more, from an interval of
    at least 1 and at most [2^976] days and any ease in [1.3, 2.5]: the
    ease factor is exactly the ceiling 2.5. *)
Theorem correct_streak_reaches_ceiling (n : nat) (a : ProblemAttempt.t) (w : World) :
  review_state_ok a ->
  ProblemAttempt.review_interval_days a <= 2 ^ 976 -> (12 <= n)%nat ->
  ProblemAttempt.ease_factor (snd (run_reviews (repeat true n) a w)) = f2_5.
Proof.
  intros Hok Hi Hn.
  rewrite (repeat_split true n 12 Hn), run_reviews_app.
  apply ceiling_kept.
  destruct (correct_streak 12 a w 976 Hok Hi ltac:(lia) ltac:(lia)) as [He _].
  cbn zeta in He. rewrite He. apply ease_ceiling_reached; [apply Hok | lia].
Qed.

Lemma correct_streak_reaches_ceiling_witness :
  ProblemAttempt.ease_factor
    (snd (run_reviews (repeat true 13)
            (sample_attempt 1 tuesday None 1 f1_8) (world_2024 empty_db))) = f2_5.
Proof.
  apply (correct_streak_reaches_ceiling 13 (sample_attempt 1 tuesday None 1 f1_8)
           (world_2024 empty_db)).
  - split; [cbn; lia | vm_compute; reflexivity].
  - cbn. lia.
  - lia.
Defined.

Lemma above_float_of_int (mf m : positive) (ef e c : Z) :
  bounded 53 1024 mf ef = true -> bounded 53 1024 m e = true ->
  2 ^ 52 <= Zpos mf -> -52 <= ef -> 0 <= c <= 3 ->
  (e = -52 /\ Zpos m1_3 <= Zpos m) \/ (e = -51 /\ Zpos m <= Zpos m2_5) ->
  sc (Zpos mf + c) ef <= sc (Zpos mf * Zpos m) (ef + e).
Proof.
  intros Hbf Hb Hnf Hef Hc Hcase.
  pose proof (bounded_inv m e Hb) as (_ & Hm & Hn).
  assert (Hm13 : Zpos m1_3 = 5854679515581645) by reflexivity.
  destruct Hcase as [[-> Hlo] | [-> _]].
  - replace (sc (Zpos mf + c) ef) with (sc ((Zpos mf + c) * 2 ^ 52) (ef + -52))
      by (rewrite sc_shift by lia; f_equal; lia).
    apply sc_le_mono_m; [lia |].
    assert (Zpos mf * Zpos m1_3 <= Zpos mf * Zpos m) by nia. lia.
  - replace (sc (Zpos mf + c) ef) with (sc ((Zpos mf + c) * 2 ^ 51) (ef + -51))
      by (rewrite sc_shift by lia; f_equal; lia).
    apply sc_le_mono_m; [lia |].
    assert (Hm52 : 2 ^ 52 <= Zpos m) by (destruct Hn; lia).
    assert (Zpos mf * 2 ^ 52 <= Zpos mf * Zpos m) by nia. lia.
Qed.

(** From four days on, the product with an ease of at least 1.3 is at
    least one day longer than the interval, also after both roundings. *)
Lemma correct_interval_grows (i : Z) (x p : float) (ni : Z) :
  4 <= i -> ease_in_range x = true ->
  Float64.int_mul i x = Ok p -> Float64.to_int p = Ok ni ->
  i + 1 <= ni.
Proof.
  intros Hi Hx Hp Hni.
  apply ease_in_range_inv in Hx.
  destruct Hx as (m & e & -> & Hb & [Hlo _] & Hcase).
  pose proof (bounded_inv m e Hb) as (He & Hm & Hn).
  unfold Float64.int_mul in Hp.
  destruct (Float64.of_int i) as [f | ex] eqn:Hf; [| discriminate].
  cbn [bind] in Hp. injection Hp as <-.
  destruct (of_int_positive i f ltac:(lia) Hf) as (mf & ef & -> & Hbf & Hnf & Hef & Hulp).
  pose proof (bounded_inv mf ef Hbf) as (Hef' & Hmf & _).
  destruct (of_int_interval i ltac:(lia)) as (vf & Hvf & Hge & _).
  assert (Hfeq : binary_normalize 53 1024 i 0 false = S754_finite false mf ef).
  { unfold Float64.of_int, Float64.prec, Float64.emax in Hf.
    destruct (binary_normalize 53 1024 i 0 false); congruence. }
  rewrite Hfeq in Hvf.
  assert (Hsf : sc (Zpos mf) ef = vf) by (inversion Hvf; assumption).
  destruct (mul_interval mf ef m e Hbf Hb) as (vp & Hvp & HgeP & _).
  assert (Hnext : sc (i + 1) 0 <= vp).
  { destruct (Z.le_gt_cases (i + 1) (2 ^ 53)) as [Hsmall | Hlarge].
    - apply (HgeP (i + 1) 0); [split; lia |].
      assert (Hif : sc i 0 <= sc (Zpos mf) ef).
      { rewrite Hsf. apply Hge; [split; lia | lia]. }
      assert (Hmul : sc i 0 * sc (Zpos m1_3) (-52) <= sc (Zpos mf) ef * sc (Zpos m) e).
      { apply Z.mul_le_mono_nonneg; auto; apply sc_zero_le; lia. }
      rewrite (sc_mul (Zpos mf) (Zpos m) ef e) in Hmul by lia.
      rewrite (sc_mul i (Zpos m1_3) 0 (-52)) in Hmul by lia.
      apply Z.mul_le_mono_pos_r in Hmul; [| apply pow2_pos; lia].
      apply Z.le_trans with (sc (i * Zpos m1_3) (0 + -52)); [| exact Hmul].
      replace (sc (i + 1) 0) with (sc ((i + 1) * 2 ^ 52) (0 + -52))
        by (rewrite sc_shift by lia; f_equal; lia).
      apply sc_le_mono_m; [lia |].
      assert (Hm13 : Zpos m1_3 = 5854679515581645) by reflexivity. lia.
    - assert (Hef1 : 1 <= ef).
      { assert (H53 : sc (2 ^ 53) 0 <= sc (Zpos mf) ef).
        { rewrite Hsf. apply Hge; [split; lia |]. apply sc_le_mono_m; lia. }
        destruct (Z.le_gt_cases 1 ef) as [Hok | Hneg]; [exact Hok |].
        assert (sc (Zpos mf) ef <= sc (Zpos mf) 0) by (apply sc_le_mono_e; lia).
        assert (sc (Zpos mf) 0 < sc (2 ^ 53) 0).
        { unfold sc. pose proof (pow2_pos (0 + 2148) ltac:(lia)). nia. }
        lia. }
      assert (Hone : sc 1 0 <= sc 1 ef) by (apply sc_le_mono_e; lia).
      assert (Hup : sc (i + 1) 0 <= sc (Zpos mf + 2) ef).
      { rewrite (sc_add i 1 0).
        replace (Zpos mf + 2) with ((Zpos mf + 1) + 1) by lia.
        rewrite (sc_add (Zpos mf + 1) 1 ef). lia. }
      destruct (Z.le_gt_cases (Zpos mf + 2) (2 ^ 53)) as [Hfit | Htop].
      + apply Z.le_trans with (sc (Zpos mf + 2) ef); [exact Hup |].
        apply HgeP; [split; lia |].
        apply above_float_of_int; auto; lia.
      + assert (Hmore : sc (Zpos mf + 2) ef <= sc (Zpos mf + 3) ef)
          by (apply sc_le_mono_m; lia).
        assert (Heq : sc (2 ^ 52 + 1) (ef + 1) = sc (Zpos mf + 3) ef).
        { rewrite sc_succ_e by lia. f_equal. lia. }
        apply Z.le_trans with (sc (2 ^ 52 + 1) (ef + 1)); [lia |].
        apply HgeP; [split; lia |]. rewrite Heq.
        apply above_float_of_int; auto; lia. }
  assert (Hpos : 0 < sc (i + 1) 0) by (apply sc_pos; lia).
  destruct Hvp as [Hz | mp ep Hbp Hsc | Hinf]; [lia | | discriminate].
  pose proof (bounded_inv mp ep Hbp) as (Hep & _ & _).
  rewrite to_int_finite in Hni by lia. injection Hni as <-.
  apply Z.div_le_lower_bound; [apply pow2_pos; lia |].
  rewrite Hsc. unfold sc in Hnext. change (0 + 2148) with 2148 in Hnext. lia.
Qed.

(** X26. A right answer on an interval of at least 4 and at most
    [2^1000] days, with the ease in [1.3, 2.5]: the interval the call
    leaves on the attempt is strictly longer. *)
Theorem correct_answer_lengthens (a : ProblemAttempt.t) (w : World) :
  4 <= ProblemAttempt.review_interval_days a <= 2 ^ 1000 ->
  ease_in_range (ProblemAttempt.ease_factor a) = true ->
  ProblemAttempt.review_interval_days a
  < ProblemAttempt.review_interval_days
      (attempt_after (calculate_next_review a true w)).
Proof.
  intros [Hlo Hhi] He.
  assert (Hone : 1 <= ProblemAttempt.review_interval_days a) by lia.
  assert (Hk : 0 <= 1000 <= 1000) by lia.
  destruct (correct_step_bound _ _ 1000 (conj Hone Hhi) Hk He)
    as (p & ni & Hp & Hni & _).
  pose proof (correct_interval_grows _ _ p ni Hlo He Hp Hni) as Hgrow.
  destruct (attempt_after_values a true w ni _
              (new_review_values_correct a p ni Hp Hni)) as [-> _].
  lia.
Qed.

Lemma correct_answer_lengthens_witness :
  ProblemAttempt.review_interval_days (sample_attempt 1 tuesday None 4 f1_8)
  < ProblemAttempt.review_interval_days
      (attempt_after (calculate_next_review (sample_attempt 1 tuesday None 4 f1_8)
                        true (world_2024 empty_db))).
Proof.
  apply (correct_answer_lengthens (sample_attempt 1 tuesday None 4 f1_8)
           (world_2024 empty_db)).
  - cbn. lia.
  - vm_compute. reflexivity.
Defined.
